(** * xml2mql: XML to Emdros MQL importer

    A shallow embedding of [xml2mql/xml2mql.py] and the properties of its
    dispatch engine, position tracker, schema deriver and renderer.

    Conventions of the embedding:
    - a Python [str] is the list of its Unicode code points ([pystr]);
    - a Python [bytes] value is a [list byte];
    - Python integers are unbounded, hence [Z];
    - dictionaries of the handler are [gmap]s, sets are [gset]s; the
      dictionaries of the JSON script are association lists in file order,
      because the program iterates over them;
    - a Python list used as a stack grows at its end ([l ++ [x]]);
    - [SRObject] instances are mutated through aliases, so they live in a
      store and the stacks and collections hold their addresses;
    - a raised exception is an [Error], and aborts the run. *)

From Stdlib Require Import ZArith NArith List String Ascii Lia.
From Stdlib Require Import Strings.Byte.
From stdpp Require Import base option list gmap strings pretty.

Local Open Scope Z_scope.

(** ** Python values *)

(** A Python [str]: a sequence of code points. *)
Definition pystr := list N.

(** The [str] written by an ASCII literal of the source. *)
Definition u (s : string) : pystr :=
  map N_of_ascii (list_ascii_of_string s).

Definition bytes := list byte.

Definition byte_of_N (n : N) : byte :=
  match Byte.of_N n with
  | Some b => b
  | None => x00
  end.

(** The exceptions the program can raise.  [SAXParseException] is raised by
    the XML parser that drives the handlers, not by the handlers.  The last
    two belong to the model: [DanglingAddress] is a miss in the object store
    and [NoTermination] a loop that outran its iteration bound; no run
    produces either. *)
Inductive exn : Type :=
| UnknownStartTag (tag : pystr)
| UnknownEndTag (tag : pystr)
| KeyError (key : pystr)
| IndexError
| AssertionError
| NameError
| UnicodeEncodeError
| SAXParseException
| DanglingAddress
| NoTermination.

Inductive result (A : Type) : Type :=
| Ok (a : A)
| Error (e : exn).
Arguments Ok {A} a.
Arguments Error {A} e.

(** Sequencing: an exception skips the rest of the computation. *)
Global Instance result_ret : MRet result := fun _ a => Ok a.
Global Instance result_bind : MBind result := fun _ _ k r =>
  match r with
  | Ok a => k a
  | Error e => Error e
  end.

Definition of_option {A : Type} (o : option A) (e : exn) : result A :=
  match o with
  | Some a => Ok a
  | None => Error e
  end.

(** [ustr.encode('utf-8')] with the default strict error handler: lone
    surrogates (and values that are not code points) are refused. *)
Definition utf8_encode_char (cp : N) : option bytes :=
  if (cp <? 128)%N then Some [byte_of_N cp]
  else if (cp <? 2048)%N then
    Some [byte_of_N (192 + cp / 64); byte_of_N (128 + cp mod 64)]
  else if (cp <? 65536)%N then
    if ((55296 <=? cp) && (cp <? 57344))%N then None
    else Some [byte_of_N (224 + cp / 4096);
               byte_of_N (128 + (cp / 64) mod 64);
               byte_of_N (128 + cp mod 64)]
  else if (cp <? 1114112)%N then
    Some [byte_of_N (240 + cp / 262144);
          byte_of_N (128 + (cp / 4096) mod 64);
          byte_of_N (128 + (cp / 64) mod 64);
          byte_of_N (128 + cp mod 64)]
  else None.

Fixpoint encode_utf8 (ustr : pystr) : option bytes :=
  match ustr with
  | [] => Some []
  | cp :: rest =>
      match utf8_encode_char cp, encode_utf8 rest with
      | Some b, Some bs => Some (b ++ bs)
      | _, _ => None
      end
  end.

(** ** MQL string mangling *)

(** [pattern.sub(repl, s)] for a pattern that is one character class: every
    byte of the class is replaced by what [repl] returns for it. *)
Definition re_sub (class : byte -> bool) (repl : byte -> bytes) (s : bytes) : bytes :=
  flat_map (fun c => if class c then repl c else [c]) s.

(** [special_re]: the class of newline, tab, double quote and backslash. *)
Definition special_re (c : byte) : bool :=
  Byte.eqb c x0a || Byte.eqb c x09 || Byte.eqb c x22 || Byte.eqb c x5c.

(** [special_dict]: newline, tab, quote and backslash, each mapped to a
    backslash followed by [n], [t], the quote or a backslash. *)
Definition special_dict : list (byte * bytes) :=
  [ (x0a, [x5c; x6e]);
    (x09, [x5c; x74]);
    (x22, [x5c; x22]);
    (x5c, [x5c; x5c]) ].

Fixpoint dict_lookup_byte (c : byte) (d : list (byte * bytes)) : option bytes :=
  match d with
  | [] => None
  | (k, v) :: rest => if Byte.eqb c k then Some v else dict_lookup_byte c rest
  end.

(** [upper_bit_re]: the class of the bytes 0x80 to 0xff. *)
Definition upper_bit_re (c : byte) : bool := (128 <=? Byte.to_N c)%N.

(** [special_sub]: [special_dict[c]]; the lookup cannot miss on a byte that
    [special_re] matched (lemma [special_dict_covers]). *)
Definition special_sub (c : byte) : bytes :=
  match dict_lookup_byte c special_dict with
  | Some r => r
  | None => []
  end.

(** One lower-case hexadecimal digit, as [%x] prints it. *)
Definition hex_digit (n : N) : byte :=
  if (n <? 10)%N then byte_of_N (48 + n) else byte_of_N (87 + n).

(** [upper_bit_sub]: a backslash, [x] and [ord(c)] as two hexadecimal
    digits ([%02x]). *)
Definition upper_bit_sub (c : byte) : bytes :=
  let n := Byte.to_N c in
  [x5c; x78; hex_digit (n / 16); hex_digit (n mod 16)].

(** The two substitution passes of [mangleMQLString] on the encoded bytes. *)
Definition mangle_bytes (b : bytes) : bytes :=
  let result := re_sub special_re special_sub b in
  re_sub upper_bit_re upper_bit_sub result.

Definition mangleMQLString (ustr : pystr) : result bytes :=
  b ← of_option (encode_utf8 ustr) UnicodeEncodeError;
  Ok (mangle_bytes b).

(** The escaping rule as the specification words it, byte by byte. *)
Definition escape_byte (c : byte) : bytes :=
  if Byte.eqb c x0a then [x5c; x6e]
  else if Byte.eqb c x09 then [x5c; x74]
  else if Byte.eqb c x22 then [x5c; x22]
  else if Byte.eqb c x5c then [x5c; x5c]
  else if (128 <=? Byte.to_N c)%N then
    [x5c; x78; hex_digit (Byte.to_N c / 16); hex_digit (Byte.to_N c mod 16)]
  else [c].

Definition hex_value (c : byte) : option N :=
  let n := Byte.to_N c in
  if ((48 <=? n) && (n <? 58))%N then Some (n - 48)%N
  else if ((97 <=? n) && (n <? 103))%N then Some (n - 87)%N
  else None.

(** Modelled from the spec: the inverse unescape rule of the escaping
    round-trip property; the source has no unescape function.  A backslash
    introduces [n], [t], a quote, a backslash or [x] with two hexadecimal
    digits; every other byte stands for itself. *)
Fixpoint unmangle_bytes (s : bytes) : option bytes :=
  match s with
  | [] => Some []
  | c :: rest =>
      if Byte.eqb c x5c then
        match rest with
        | [] => None
        | e :: rest' =>
            if Byte.eqb e x6e then cons x0a <$> unmangle_bytes rest'
            else if Byte.eqb e x74 then cons x09 <$> unmangle_bytes rest'
            else if Byte.eqb e x22 then cons x22 <$> unmangle_bytes rest'
            else if Byte.eqb e x5c then cons x5c <$> unmangle_bytes rest'
            else if Byte.eqb e x78 then
              match rest' with
              | h :: l :: rest'' =>
                  match hex_value h, hex_value l with
                  | Some a, Some b =>
                      cons (byte_of_N (16 * a + b)) <$> unmangle_bytes rest''
                  | _, _ => None
                  end
              | _ => None
              end
            else None
        end
      else cons c <$> unmangle_bytes rest
  end.


(** ** Dictionaries and formatting *)

(** A dictionary that the program iterates over: its items in insertion
    order, with keys that are pairwise different. *)
Definition dict (V : Type) := list (pystr * V).

Fixpoint dict_get {V : Type} (k : pystr) (d : dict V) : option V :=
  match d with
  | [] => None
  | (k', v) :: rest => if decide (k = k') then Some v else dict_get k rest
  end.

(** [d[k] = v]: an existing key keeps its place. *)
Fixpoint dict_set {V : Type} (k : pystr) (v : V) (d : dict V) : dict V :=
  match d with
  | [] => [(k, v)]
  | (k', v') :: rest =>
      if decide (k = k') then (k, v) :: rest else (k', v') :: dict_set k v rest
  end.

Definition dict_keys {V : Type} (d : dict V) : list pystr := map fst d.

(** [d.get(k, default)] *)
Definition dict_get_default {V : Type} (k : pystr) (d : dict V) (default : V) : V :=
  match dict_get k d with
  | Some v => v
  | None => default
  end.

(** [l.pop()] on a list used as a stack. *)
Fixpoint list_pop {A : Type} (l : list A) : option (list A * A) :=
  match l with
  | [] => None
  | [x] => Some ([], x)
  | x :: rest =>
      match list_pop rest with
      | Some (rest', y) => Some (x :: rest', y)
      | None => None
      end
  end.

(** [l[-1]] *)
Definition list_top {A : Type} (l : list A) : option A := snd <$> list_pop l.

Fixpoint startswith (p s : pystr) : bool :=
  match p, s with
  | [], _ => true
  | _ :: _, [] => false
  | a :: p', b :: s' => (a =? b)%N && startswith p' s'
  end.

(** [needle in hay] on strings. *)
Fixpoint contains (needle hay : pystr) : bool :=
  startswith needle hay ||
  match hay with
  | [] => false
  | _ :: hay' => contains needle hay'
  end.

(** [%d] of an integer. *)
Definition fmt_d (z : Z) : pystr := u (pretty z).

(** [%s] of a [bytes] value, which is its [repr]: [b], a quote, the bytes
    with backslash, the quote, tab, newline, carriage return and everything
    outside the printable ASCII range escaped, and the quote again.  The
    quote is the apostrophe unless the bytes hold an apostrophe and no double
    quote. *)
Definition bytes_repr_char (quote : byte) (c : byte) : pystr :=
  let n := Byte.to_N c in
  if Byte.eqb c quote || Byte.eqb c x5c then [92; n]%N
  else if Byte.eqb c x09 then [92; 116]%N
  else if Byte.eqb c x0a then [92; 110]%N
  else if Byte.eqb c x0d then [92; 114]%N
  else if ((n <? 32) || (127 <=? n))%N then
    [92; 120; Byte.to_N (hex_digit (n / 16)); Byte.to_N (hex_digit (n mod 16))]%N
  else [n].

Definition bytes_repr (b : bytes) : pystr :=
  let quote :=
    if existsb (Byte.eqb x27) b && negb (existsb (Byte.eqb x22) b)
    then x22 else x27 in
  [98%N; Byte.to_N quote] ++ flat_map (bytes_repr_char quote) b ++ [Byte.to_N quote].

(** What [f.write] has received, one entry per call. *)
Definition output := list pystr.

(** ** The declarative script *)

(** One entry of an element's ["attributes"]: a dictionary that is read
    under the keys [featureName] and [featureType]. *)
Definition AttributeSpec := dict pystr.

(** One entry of ["handled_elements"].  [objectTypeName] is read by
    subscript and must be there; the other keys are read with [.get] or
    tested with [in]: [None] is an absent key (for [tokenObjectTypeName]
    also a JSON [null]). *)
Record HandledElement : Type := {
  he_objectTypeName : pystr;
  he_tokenObjectTypeName : option pystr;
  he_minimumMonadLength : option Z;
  he_attributes : option (dict AttributeSpec);
  he_objectRangeType : option pystr
}.

Record GlobalParameters : Type := {
  gp_docIndexFeatureName : pystr;
  gp_docIndexIncrementBeforeObjectType : dict Z;
  gp_tokenObjectTypeNameList : list pystr
}.

(** The keys of the ["global_parameters"] object, which is what iterating
    over it yields. *)
Definition global_parameters_keys (gp : GlobalParameters) : list pystr :=
  [ u "docIndexFeatureName";
    u "docIndexIncrementBeforeObjectType";
    u "tokenObjectTypeNameList" ].

Record Script : Type := {
  global_parameters : GlobalParameters;
  script_handled_elements : dict HandledElement;
  script_ignored_elements : list pystr;
  script_nixed_elements : list pystr
}.

(** ** ObjectTypeDescription *)

Module ObjectTypeDescription.

Record t : Type := {
  objectTypeName : pystr;
  objectRangeType : pystr;
  features : gmap pystr pystr
}.

(** [__init__]: an empty (or missing) range type is replaced. *)
Definition init (objectTypeName objectRangeType : pystr) : t :=
  {| objectTypeName := objectTypeName;
     objectRangeType :=
       match objectRangeType with
       | [] => u "WITH SINGLE RANGE OBJECTS"
       | _ => objectRangeType
       end;
     features := ∅ |}.

Definition addFeature (self : t) (featureName featureType : pystr) : result t :=
  match featureName, featureType with
  | _ :: _, _ :: _ =>
      Ok {| objectTypeName := objectTypeName self;
            objectRangeType := objectRangeType self;
            features := <[featureName := featureType]> (features self) |}
  | _, _ => Error AssertionError
  end.

End ObjectTypeDescription.

(** ** Token *)

Module Token.

Record t : Type := {
  monad : Z;
  wholesurface : pystr;
  prefix : pystr;
  surface : pystr;
  suffix : pystr;
  xmlindex : Z;
  id_d : Z
}.

Definition init (monad : Z) (prefix surface suffix : pystr) (xmlindex id_d : Z) : t :=
  {| monad := monad;
     wholesurface := prefix ++ surface ++ suffix;
     prefix := prefix;
     surface := surface;
     suffix := suffix;
     xmlindex := xmlindex;
     id_d := id_d |}.

(** The identifier clause of a token. *)
Definition id_clause (id_d : Z) : pystr :=
  u "WITH ID_D=" ++ fmt_d id_d ++ [10%N].

(** The writes of the feature loop; an exception of [mangleMQLString]
    ends them. *)
Fixpoint write_features (fs : list (pystr * pystr)) : output * option exn :=
  match fs with
  | [] => ([], None)
  | (featureName, featureValue) :: rest =>
      match mangleMQLString featureValue with
      | Error e => ([], Some e)
      | Ok m =>
          let (out, e) := write_features rest in
          ((featureName ++ u ":" ++ [34%N] ++ bytes_repr m ++ [34%N] ++ u ";" ++ [10%N])
             :: out, e)
      end
  end.

(** [dumpMQL]: what is written to [f], and the exception that ended the
    writing, if any.  [lower] is [str.lower]. *)
Definition dumpMQL (lower : pystr -> pystr) (self : t) : output * option exn :=
  let surface_lowcase := lower (surface self) in
  let head :=
    [u "CREATE OBJECT FROM MONADS={" ++ fmt_d (monad self) ++ u "}" ++ [10%N]]
    ++ (if decide (id_d self ≠ 0) then [id_clause (id_d self)] else [])
    ++ [u "["] in
  let (body, e) :=
    write_features
      [ (u "prefix", prefix self);
        (u "surface", surface self);
        (u "suffix", suffix self);
        (u "surface_lowcase", surface_lowcase) ] in
  match e with
  | Some _ => (head ++ body, e)
  | None =>
      (head ++ body
         ++ [u "xmlindex:=" ++ fmt_d (xmlindex self) ++ u ";" ++ [10%N]]
         ++ [u "]" ++ [10%N]],
       None)
  end.

End Token.

(** ** SRObject *)

(** The value of a non-string feature: the document index (an integer) or
    the text of an XML attribute. *)
Inductive pyval : Type :=
| PyInt (z : Z)
| PyStr (s : pystr).

(** [%s] of such a value. *)
Definition fmt_s (v : pyval) : pystr :=
  match v with
  | PyInt z => fmt_d z
  | PyStr s => s
  end.

Module SRObject.

Record t : Type := {
  objectTypeName : pystr;
  fm : Z;
  lm : Z;
  stringFeatures : dict pystr;
  nonStringFeatures : dict pyval;
  id_d : Z
}.

Definition init (objectTypeName : pystr) (starting_monad : Z) : t :=
  {| objectTypeName := objectTypeName;
     fm := starting_monad;
     lm := starting_monad;
     stringFeatures := [];
     nonStringFeatures := [];
     id_d := 0 |}.

Definition setID_D (self : t) (id_d : Z) : t :=
  {| objectTypeName := objectTypeName self; fm := fm self; lm := lm self;
     stringFeatures := stringFeatures self;
     nonStringFeatures := nonStringFeatures self;
     id_d := id_d |}.

Definition setStringFeature (self : t) (name value : pystr) : t :=
  {| objectTypeName := objectTypeName self; fm := fm self; lm := lm self;
     stringFeatures := dict_set name value (stringFeatures self);
     nonStringFeatures := nonStringFeatures self;
     id_d := id_d self |}.

Definition setNonStringFeature (self : t) (name : pystr) (value : pyval) : t :=
  {| objectTypeName := objectTypeName self; fm := fm self; lm := lm self;
     stringFeatures := stringFeatures self;
     nonStringFeatures := dict_set name value (nonStringFeatures self);
     id_d := id_d self |}.

Definition setLastMonad (self : t) (ending_monad : Z) : t :=
  {| objectTypeName := objectTypeName self; fm := fm self;
     lm := if ending_monad <? fm self then fm self else ending_monad;
     stringFeatures := stringFeatures self;
     nonStringFeatures := nonStringFeatures self;
     id_d := id_d self |}.

Definition getMonadLength (self : t) : Z := lm self - fm self + 1.

(** The identifier clause of an object (no line break after it). *)
Definition id_clause (id_d : Z) : pystr := u "WITH ID_D=" ++ fmt_d id_d.

Fixpoint write_stringFeatures (fs : dict pystr) : output * option exn :=
  match fs with
  | [] => ([], None)
  | (key, value) :: rest =>
      match mangleMQLString value with
      | Error e => ([], Some e)
      | Ok m =>
          let (out, e) := write_stringFeatures rest in
          ((u "  " ++ key ++ u ":=" ++ [34%N] ++ bytes_repr m ++ [34%N] ++ u ";" ++ [10%N])
             :: out, e)
      end
  end.

Definition dumpMQL (self : t) : output * option exn :=
  let head :=
    [u "CREATE OBJECT FROM MONADS={" ++ fmt_d (fm self) ++ u "-"
       ++ fmt_d (lm self) ++ u "}"]
    ++ (if decide (id_d self ≠ 0) then [id_clause (id_d self)] else [])
    ++ [u "["]
    ++ map (fun kv => u "  " ++ fst kv ++ u ":=" ++ fmt_s (snd kv) ++ u ";" ++ [10%N])
         (nonStringFeatures self) in
  let (body, e) := write_stringFeatures (stringFeatures self) in
  match e with
  | Some _ => (head ++ body, e)
  | None => (head ++ body ++ [u "]" ++ [10%N]], None)
  end.

End SRObject.

(** ** The handler state *)

(** The fields of [BaseHandler] and of [MQLGeneratorHandler].  [store]
    holds the [SRObject] instances; [objstacks] and [objects] hold their
    addresses, since an instance is still mutated after it has been pushed on
    its stack and after it has been appended to [objects]. *)
Record Handler : Type := {
  elemstack : list pystr;
  charstack : list pystr;
  nixing_stack : list pystr;
  nixed_elements : gset pystr;
  ignored_elements : gset pystr;
  handled_elements : gset pystr;
  store : list SRObject.t;
  objstacks : gmap pystr (list nat);
  objects : gmap pystr (list nat);
  script : Script;
  schema : gmap pystr ObjectTypeDescription.t;
  curdocindex : Z;
  curmonad : Z;
  curid_d : Z;
  docIndexFeatureName : pystr;
  tokens : gmap pystr (list Token.t)
}.

Definition set_elemstack (v : list pystr) (h : Handler) : Handler :=
  {| elemstack := v; charstack := charstack h; nixing_stack := nixing_stack h;
     nixed_elements := nixed_elements h; ignored_elements := ignored_elements h;
     handled_elements := handled_elements h; store := store h;
     objstacks := objstacks h; objects := objects h; script := script h;
     schema := schema h; curdocindex := curdocindex h; curmonad := curmonad h;
     curid_d := curid_d h; docIndexFeatureName := docIndexFeatureName h;
     tokens := tokens h |}.

Definition set_charstack (v : list pystr) (h : Handler) : Handler :=
  {| elemstack := elemstack h; charstack := v; nixing_stack := nixing_stack h;
     nixed_elements := nixed_elements h; ignored_elements := ignored_elements h;
     handled_elements := handled_elements h; store := store h;
     objstacks := objstacks h; objects := objects h; script := script h;
     schema := schema h; curdocindex := curdocindex h; curmonad := curmonad h;
     curid_d := curid_d h; docIndexFeatureName := docIndexFeatureName h;
     tokens := tokens h |}.

Definition set_nixing_stack (v : list pystr) (h : Handler) : Handler :=
  {| elemstack := elemstack h; charstack := charstack h; nixing_stack := v;
     nixed_elements := nixed_elements h; ignored_elements := ignored_elements h;
     handled_elements := handled_elements h; store := store h;
     objstacks := objstacks h; objects := objects h; script := script h;
     schema := schema h; curdocindex := curdocindex h; curmonad := curmonad h;
     curid_d := curid_d h; docIndexFeatureName := docIndexFeatureName h;
     tokens := tokens h |}.

Definition set_store (v : list SRObject.t) (h : Handler) : Handler :=
  {| elemstack := elemstack h; charstack := charstack h;
     nixing_stack := nixing_stack h;
     nixed_elements := nixed_elements h; ignored_elements := ignored_elements h;
     handled_elements := handled_elements h; store := v;
     objstacks := objstacks h; objects := objects h; script := script h;
     schema := schema h; curdocindex := curdocindex h; curmonad := curmonad h;
     curid_d := curid_d h; docIndexFeatureName := docIndexFeatureName h;
     tokens := tokens h |}.

Definition set_objstacks (v : gmap pystr (list nat)) (h : Handler) : Handler :=
  {| elemstack := elemstack h; charstack := charstack h;
     nixing_stack := nixing_stack h;
     nixed_elements := nixed_elements h; ignored_elements := ignored_elements h;
     handled_elements := handled_elements h; store := store h;
     objstacks := v; objects := objects h; script := script h;
     schema := schema h; curdocindex := curdocindex h; curmonad := curmonad h;
     curid_d := curid_d h; docIndexFeatureName := docIndexFeatureName h;
     tokens := tokens h |}.

Definition set_objects (v : gmap pystr (list nat)) (h : Handler) : Handler :=
  {| elemstack := elemstack h; charstack := charstack h;
     nixing_stack := nixing_stack h;
     nixed_elements := nixed_elements h; ignored_elements := ignored_elements h;
     handled_elements := handled_elements h; store := store h;
     objstacks := objstacks h; objects := v; script := script h;
     schema := schema h; curdocindex := curdocindex h; curmonad := curmonad h;
     curid_d := curid_d h; docIndexFeatureName := docIndexFeatureName h;
     tokens := tokens h |}.

Definition set_schema (v : gmap pystr ObjectTypeDescription.t) (h : Handler) : Handler :=
  {| elemstack := elemstack h; charstack := charstack h;
     nixing_stack := nixing_stack h;
     nixed_elements := nixed_elements h; ignored_elements := ignored_elements h;
     handled_elements := handled_elements h; store := store h;
     objstacks := objstacks h; objects := objects h; script := script h;
     schema := v; curdocindex := curdocindex h; curmonad := curmonad h;
     curid_d := curid_d h; docIndexFeatureName := docIndexFeatureName h;
     tokens := tokens h |}.

Definition set_curdocindex (v : Z) (h : Handler) : Handler :=
  {| elemstack := elemstack h; charstack := charstack h;
     nixing_stack := nixing_stack h;
     nixed_elements := nixed_elements h; ignored_elements := ignored_elements h;
     handled_elements := handled_elements h; store := store h;
     objstacks := objstacks h; objects := objects h; script := script h;
     schema := schema h; curdocindex := v; curmonad := curmonad h;
     curid_d := curid_d h; docIndexFeatureName := docIndexFeatureName h;
     tokens := tokens h |}.

Definition set_curmonad (v : Z) (h : Handler) : Handler :=
  {| elemstack := elemstack h; charstack := charstack h;
     nixing_stack := nixing_stack h;
     nixed_elements := nixed_elements h; ignored_elements := ignored_elements h;
     handled_elements := handled_elements h; store := store h;
     objstacks := objstacks h; objects := objects h; script := script h;
     schema := schema h; curdocindex := curdocindex h; curmonad := v;
     curid_d := curid_d h; docIndexFeatureName := docIndexFeatureName h;
     tokens := tokens h |}.

Definition set_curid_d (v : Z) (h : Handler) : Handler :=
  {| elemstack := elemstack h; charstack := charstack h;
     nixing_stack := nixing_stack h;
     nixed_elements := nixed_elements h; ignored_elements := ignored_elements h;
     handled_elements := handled_elements h; store := store h;
     objstacks := objstacks h; objects := objects h; script := script h;
     schema := schema h; curdocindex := curdocindex h; curmonad := curmonad h;
     curid_d := v; docIndexFeatureName := docIndexFeatureName h;
     tokens := tokens h |}.

Definition set_docIndexFeatureName (v : pystr) (h : Handler) : Handler :=
  {| elemstack := elemstack h; charstack := charstack h;
     nixing_stack := nixing_stack h;
     nixed_elements := nixed_elements h; ignored_elements := ignored_elements h;
     handled_elements := handled_elements h; store := store h;
     objstacks := objstacks h; objects := objects h; script := script h;
     schema := schema h; curdocindex := curdocindex h; curmonad := curmonad h;
     curid_d := curid_d h; docIndexFeatureName := v;
     tokens := tokens h |}.

Definition set_tokens (v : gmap pystr (list Token.t)) (h : Handler) : Handler :=
  {| elemstack := elemstack h; charstack := charstack h;
     nixing_stack := nixing_stack h;
     nixed_elements := nixed_elements h; ignored_elements := ignored_elements h;
     handled_elements := handled_elements h; store := store h;
     objstacks := objstacks h; objects := objects h; script := script h;
     schema := schema h; curdocindex := curdocindex h; curmonad := curmonad h;
     curid_d := curid_d h; docIndexFeatureName := docIndexFeatureName h;
     tokens := v |}.

Definition set_element_sets (nixed ignored handled : gset pystr) (h : Handler) : Handler :=
  {| elemstack := elemstack h; charstack := charstack h;
     nixing_stack := nixing_stack h;
     nixed_elements := nixed; ignored_elements := ignored;
     handled_elements := handled; store := store h;
     objstacks := objstacks h; objects := objects h; script := script h;
     schema := schema h; curdocindex := curdocindex h; curmonad := curmonad h;
     curid_d := curid_d h; docIndexFeatureName := docIndexFeatureName h;
     tokens := tokens h |}.

(** The events that the SAX parser delivers to the handler. *)
Inductive event : Type :=
| StartElement (tag : pystr) (attributes : dict pystr)
| Characters (data : pystr)
| EndElement (tag : pystr).

(** Left-to-right iteration with exceptions. *)
Fixpoint for_each {A S : Type} (body : S -> A -> result S) (l : list A) (s : S) : result S :=
  match l with
  | [] => Ok s
  | a :: rest => s' ← body s a; for_each body rest s'
  end.

(** ** MQLGeneratorHandler *)

Section MQLGeneratorHandler.

(** [latin_tokenizer.tokenize_string], a module of the package that is not
    part of the source at hand: text to (prefix, surface, suffix) triples. *)
Variable tokenize_string : pystr -> list (pystr * pystr * pystr).

(** [str.lower] *)
Variable lower : pystr -> pystr.

Definition handled (h : Handler) : dict HandledElement :=
  script_handled_elements (script h).

(** [d.setdefault(k, [])] for its effect on [d]. *)
Definition setdefault_nil {A : Type} (k : pystr) (d : gmap pystr (list A))
  : gmap pystr (list A) :=
  match d !! k with
  | Some _ => d
  | None => <[k := []]> d
  end.

Definition initialize (h : Handler) : Handler :=
  let gp := global_parameters (script h) in
  let h :=
    set_tokens
      (fold_left (fun d tokenObjectTypeName => setdefault_nil tokenObjectTypeName d)
         (gp_tokenObjectTypeNameList gp) (tokens h)) h in
  let h := set_docIndexFeatureName (gp_docIndexFeatureName gp) h in
  set_element_sets
    (fold_left (fun s element_name => s ∪ {[element_name]})
       (script_nixed_elements (script h)) (nixed_elements h))
    (fold_left (fun s element_name => s ∪ {[element_name]})
       (script_ignored_elements (script h)) (ignored_elements h))
    (fold_left (fun s element_name => s ∪ {[element_name]})
       (dict_keys (handled h)) (handled_elements h))
    h.

(** The local variables [featureName] and [featureType] of [makeSchema]:
    they are bound by the first loop and read by the second. *)
Definition locals : Type := option pystr * option pystr.

Definition token_feature_list : list (pystr * pystr) :=
  [ (u "pre", u "STRING FROM SET");
    (u "surface", u "STRING WITH INDEX");
    (u "post", u "STRING FROM SET");
    (u "surface_lowcase", u "STRING WITH INDEX") ].

(** The body of the first loop of [makeSchema]; the loop variable is
    called [tokenObjectTypeName] and runs over the keys of
    ["global_parameters"]. *)
Definition makeSchema_token (docIndexFeatureName : pystr)
    (st : gmap pystr ObjectTypeDescription.t * locals) (tokenObjectTypeName : pystr)
  : result (gmap pystr ObjectTypeDescription.t * locals) :=
  let objectTypeDescription :=
    ObjectTypeDescription.init tokenObjectTypeName (u "WITH SINGLE MONAD OBJECTS") in
  r ← for_each
        (fun (acc : ObjectTypeDescription.t * locals) (f : pystr * pystr) =>
           d ← ObjectTypeDescription.addFeature (fst acc) (fst f) (snd f);
           Ok (d, (Some (fst f), Some (snd f))))
        token_feature_list (objectTypeDescription, snd st);
  d ← ObjectTypeDescription.addFeature (fst r) docIndexFeatureName (u "INTEGER");
  Ok (<[tokenObjectTypeName := d]> (fst st), snd r).

(** The body of the loop over an element's declared attributes: the
    arguments of the two [.get] calls are the variables [featureName] and
    [featureType], not the strings. *)
Definition makeSchema_attribute
    (acc : ObjectTypeDescription.t * locals) (entry : pystr * AttributeSpec)
  : result (ObjectTypeDescription.t * locals) :=
  let spec := snd entry in
  name_var ← of_option (fst (snd acc)) NameError;
  let featureName := dict_get_default name_var spec [] in
  type_var ← of_option (snd (snd acc)) NameError;
  let featureType := dict_get_default type_var spec [] in
  match featureName, featureType with
  | _ :: _, _ :: _ =>
      d ← ObjectTypeDescription.addFeature (fst acc) featureName featureType;
      Ok (d, (Some featureName, Some featureType))
  | _, _ => Ok (fst acc, (Some featureName, Some featureType))
  end.

(** The body of the second loop of [makeSchema]. *)
Definition makeSchema_element (docIndexFeatureName : pystr)
    (st : gmap pystr ObjectTypeDescription.t * locals)
    (entry : pystr * HandledElement)
  : result (gmap pystr ObjectTypeDescription.t * locals) :=
  let he := snd entry in
  let objectTypeName := he_objectTypeName he in
  let objectRangeType :=
    default (u "WITH SINGLE RANGE OBJECTS") (he_objectRangeType he) in
  let objectTypeDescription :=
    ObjectTypeDescription.init objectTypeName objectRangeType in
  r ← match he_attributes he with
      | Some attrs =>
          for_each makeSchema_attribute attrs (objectTypeDescription, snd st)
      | None => Ok (objectTypeDescription, snd st)
      end;
  d ← ObjectTypeDescription.addFeature (fst r) docIndexFeatureName (u "INTEGER");
  Ok (<[objectTypeName := d]> (fst st), snd r).

Definition makeSchema (h : Handler) : result Handler :=
  st ← for_each (makeSchema_token (docIndexFeatureName h))
         (global_parameters_keys (global_parameters (script h)))
         (schema h, (None, None));
  st ← for_each (makeSchema_element (docIndexFeatureName h)) (handled h) st;
  Ok (set_schema (fst st) h).

(** [__init__]; the script is given already parsed. *)
Definition init (script : Script) (first_monad first_id_d : Z) : result Handler :=
  let h :=
    {| elemstack := []; charstack := []; nixing_stack := [];
       nixed_elements := ∅; ignored_elements := ∅; handled_elements := ∅;
       store := []; objstacks := ∅; objects := ∅; script := script;
       schema := ∅; curdocindex := 1; curmonad := first_monad;
       curid_d := first_id_d; docIndexFeatureName := []; tokens := ∅ |} in
  makeSchema (initialize h).

Definition createToken (h : Handler) (tokenObjectTypeName prefix surface suffix : pystr)
  : result Handler :=
  let docindex_increment :=
    Z.min 1
      (dict_get_default tokenObjectTypeName
         (gp_docIndexIncrementBeforeObjectType (global_parameters (script h))) 1) in
  let h := set_curdocindex (curdocindex h + docindex_increment) h in
  let t := Token.init (curmonad h) prefix surface suffix (curdocindex h) (curid_d h) in
  let h := set_curmonad (curmonad h + 1) h in
  let h := set_curid_d (curid_d h + 1) h in
  let h := set_curdocindex (curdocindex h + 1) h in
  l ← of_option (tokens h !! tokenObjectTypeName) (KeyError tokenObjectTypeName);
  Ok (set_tokens (<[tokenObjectTypeName := l ++ [t]]> (tokens h)) h).

(** [createObject]: the new state and the address of the new object. *)
Definition createObject (h : Handler) (objectTypeName : pystr) : Handler * nat :=
  let obj := SRObject.init objectTypeName (curmonad h) in
  let obj :=
    SRObject.setNonStringFeature obj (docIndexFeatureName h) (PyInt (curdocindex h)) in
  let h := set_curdocindex (curdocindex h + 1) h in
  let a := length (store h) in
  let h := set_store (store h ++ [obj]) h in
  let stack := default [] (objstacks h !! objectTypeName) in
  (set_objstacks (<[objectTypeName := stack ++ [a]]> (objstacks h)) h, a).

(** An address taken from a stack is always allocated; the model reports
    a miss as [DanglingAddress], which no run produces. *)
Definition deref (h : Handler) (a : nat) : result SRObject.t :=
  of_option (store h !! a) DanglingAddress.

Definition endObject (h : Handler) (objectTypeName : pystr) : result (Handler * nat) :=
  stack ← of_option (objstacks h !! objectTypeName) (KeyError objectTypeName);
  popped ← of_option (list_pop stack) IndexError;
  let a := snd popped in
  let h := set_objstacks (<[objectTypeName := fst popped]> (objstacks h)) h in
  obj ← deref h a;
  if decide (SRObject.objectTypeName obj = objectTypeName) then
    let h :=
      set_store (<[a := SRObject.setLastMonad obj (curmonad h - 1)]> (store h)) h in
    let finished := default [] (objects h !! objectTypeName) in
    Ok (set_objects (<[objectTypeName := finished ++ [a]]> (objects h)) h, a)
  else Error AssertionError.

Definition getFeatureType (h : Handler) (tag attribute : pystr) : result pystr :=
  he ← of_option (dict_get tag (handled h)) AssertionError;
  attrs ← of_option (he_attributes he) AssertionError;
  spec ← of_option (dict_get attribute attrs) (KeyError attribute);
  Ok (dict_get_default (u "featureType") spec (u "STRING")).

Definition featureTypeIsSTRING (featureType : pystr) : bool :=
  contains (u "string") (lower featureType).

(** The body of the attribute loop of [handleElementStart]; [a] is the
    address of [obj]. *)
Definition handleElementStart_attribute (tag : pystr) (attributes : dict pystr)
    (a : nat) (h : Handler) (entry : pystr * AttributeSpec) : result Handler :=
  let key := fst entry in
  match dict_get key attributes with
  | Some value =>
      featureName ←
        of_option (dict_get (u "featureName") (snd entry)) (KeyError (u "featureName"));
      featureType ← getFeatureType h tag key;
      obj ← deref h a;
      let obj :=
        if featureTypeIsSTRING featureType
        then SRObject.setStringFeature obj featureName value
        else SRObject.setNonStringFeature obj featureName (PyStr value) in
      Ok (set_store (<[a := obj]> (store h)) h)
  | None => Ok h
  end.

(** [handleElementStart]; its boolean result is not used by the caller. *)
Definition handleElementStart (h : Handler) (tag : pystr) (attributes : dict pystr)
  : result Handler :=
  match dict_get tag (handled h) with
  | None => Ok h
  | Some he =>
      let objectTypeName := he_objectTypeName he in
      let created := createObject h objectTypeName in
      match he_attributes he with
      | Some attrs =>
          for_each (handleElementStart_attribute tag attributes (snd created))
            attrs (fst created)
      | None => Ok (fst created)
      end
  end.

(** The [while] loop of [handleElementEnd] on the object and the monad
    counter; [None] when [fuel] iterations were not enough. *)
Fixpoint pad_to_minimum (fuel : nat) (obj : SRObject.t) (curmonad minimumMonadLength : Z)
  : option (SRObject.t * Z) :=
  if SRObject.getMonadLength obj <? minimumMonadLength then
    match fuel with
    | O => None
    | S fuel' =>
        pad_to_minimum fuel' (SRObject.setLastMonad obj curmonad) (curmonad + 1)
          minimumMonadLength
    end
  else Some (obj, curmonad).

(** A number of iterations after which the loop has always stopped
    (lemma [pad_to_minimum_terminates]). *)
Definition pad_fuel (obj : SRObject.t) (curmonad minimumMonadLength : Z) : nat :=
  S (Z.to_nat (minimumMonadLength + SRObject.fm obj - curmonad)).

(** [handleElementEnd]; its boolean result is not used by the caller. *)
Definition handleElementEnd (h : Handler) (tag : pystr) : result Handler :=
  match dict_get tag (handled h) with
  | None => Ok h
  | Some he =>
      let objectTypeName := he_objectTypeName he in
      ended ← endObject h objectTypeName;
      let h := fst ended in
      let a := snd ended in
      let minimumMonadLength := default 1 (he_minimumMonadLength he) in
      obj ← deref h a;
      match pad_to_minimum (pad_fuel obj (curmonad h) minimumMonadLength)
              obj (curmonad h) minimumMonadLength with
      | Some (obj, curmonad) =>
          Ok (set_curmonad curmonad (set_store (<[a := obj]> (store h)) h))
      | None => Error NoTermination
      end
  end.

Definition handleChars (h : Handler) (chars_before tag : pystr) (bIsEndTag : bool)
  : result Handler :=
  let bDoIt :=
    if negb bIsEndTag then false
    else match dict_get tag (handled h) with
         | None => false
         | Some he =>
             match he_tokenObjectTypeName he with
             | Some _ => true
             | None => false
             end
         end in
  if bDoIt then
    let token_list := tokenize_string chars_before in
    he ← of_option (dict_get tag (handled h)) (KeyError tag);
    tokenObjectTypeName ←
      of_option (he_tokenObjectTypeName he) (KeyError (u "tokenObjectTypeName"));
    for_each
      (fun h (t : pystr * pystr * pystr) =>
         createToken h tokenObjectTypeName (fst (fst t)) (snd (fst t)) (snd t))
      token_list h
  else Ok h.

(** ** BaseHandler, with the methods that MQLGeneratorHandler overrides *)

Definition characters (h : Handler) (data : pystr) : Handler :=
  set_charstack (charstack h ++ [data]) h.

Definition startDocument (h : Handler) : result Handler := Ok h.

Definition endDocument (h : Handler) : result Handler := Ok h.

(** [handleUnknownElementStart] and [handleUnknownElementEnd] are not
    overridden: they return [False]. *)
Definition handleUnknownElementStart (h : Handler) (tag : pystr)
    (attributes : dict pystr) : bool := false.

Definition handleUnknownElementEnd (h : Handler) (tag : pystr) : bool := false.

Definition startElement (h : Handler) (tag : pystr) (attributes : dict pystr)
  : result Handler :=
  let h := set_elemstack (elemstack h ++ [tag]) h in
  let chars := concat (charstack h) in
  let h := set_charstack [] h in
  h ← handleChars h chars tag false;
  if decide (tag ∈ nixed_elements h) then
    Ok (set_nixing_stack (nixing_stack h ++ [tag]) h)
  else if decide (length (nixing_stack h) ≠ 0%nat) then Ok h
  else if decide (tag ∈ handled_elements h) then handleElementStart h tag attributes
  else if decide (tag ∈ ignored_elements h) then Ok h
  else if handleUnknownElementStart h tag attributes then Ok h
  else Error (UnknownStartTag tag).

Definition endElement (h : Handler) (tag : pystr) : result Handler :=
  let chars := concat (charstack h) in
  let h := set_charstack [] h in
  h ← handleChars h chars tag true;
  h ← (if decide (length (nixing_stack h) ≠ 0%nat ∧ list_top (nixing_stack h) = Some tag)
       then Ok (set_nixing_stack (default [] (fst <$> list_pop (nixing_stack h))) h)
       else if decide (length (nixing_stack h) ≠ 0%nat) then Ok h
       else if decide (tag ∈ handled_elements h) then handleElementEnd h tag
       else if decide (tag ∈ ignored_elements h) then Ok h
       else if handleUnknownElementEnd h tag then Ok h
       else Error (UnknownEndTag tag));
  popped ← of_option (list_pop (elemstack h)) IndexError;
  Ok (set_elemstack (fst popped) h).

Definition handle_event (h : Handler) (ev : event) : result Handler :=
  match ev with
  | StartElement tag attributes => startElement h tag attributes
  | Characters data => Ok (characters h data)
  | EndElement tag => endElement h tag
  end.

(** Modelled from the spec: the code that hands a document to the XML
    parser is not part of the source at hand.  [parse] is what the handler does
    when it is given a list of events: [startDocument], the events in document
    order, [endDocument].  It says nothing on which lists a parser delivers;
    the statements use it on the events of documents, and [sax_parse] below
    is the parser with its check of the nesting. *)
Definition parse (h : Handler) (events : list event) : result Handler :=
  h ← startDocument h;
  h ← for_each handle_event events h;
  endDocument h.

(** Modelled from the spec: the XML parser ([xml.sax]) that drives the
    handler is not part of the source at hand.  The spec has the event source
    emit well-formed matching boundaries only and an unbalanced document be a
    fatal error.  The parser keeps the open elements in [open]; it delivers a
    start tag and text as they come, delivers an end tag when it closes the
    innermost open element, and raises [SAXParseException] at any other end
    tag and at the end of an input with open elements, without calling
    [endElement] or [endDocument].  An exception of the handler passes through
    the parser.  Of the parser's checks, only the one on the nesting of the
    tags is modelled. *)
Fixpoint sax_events (open : list pystr) (events : list event) (h : Handler)
  : result Handler :=
  match events with
  | [] => if decide (open = []) then Ok h else Error SAXParseException
  | StartElement tag attributes :: rest =>
      h ← startElement h tag attributes;
      sax_events (open ++ [tag]) rest h
  | Characters data :: rest => sax_events open rest (characters h data)
  | EndElement tag :: rest =>
      match list_pop open with
      | Some (open', top) =>
          if decide (top = tag) then
            h ← endElement h tag;
            sax_events open' rest h
          else Error SAXParseException
      | None => Error SAXParseException
      end
  end.

Definition sax_parse (h : Handler) (events : list event) : result Handler :=
  h ← startDocument h;
  h ← sax_events [] events h;
  endDocument h.

End MQLGeneratorHandler.

(** ** Stand-ins for the collaborators, used at concrete inputs *)

(** Modelled from the spec: the trivial tokenizer of the scenarios, which
    splits on whitespace; [latin_tokenizer] itself is not part of the source at
    hand.  A surface is a maximal run of characters other than the space, its
    suffix is the space that ends it, and the triples concatenate to the
    text. *)
Fixpoint tokenize_ws_from (surface text : pystr) : list (pystr * pystr * pystr) :=
  match text with
  | [] =>
      match surface with
      | [] => []
      | _ => [([], surface, [])]
      end
  | c :: rest =>
      if (c =? 32)%N then ([], surface, [c]) :: tokenize_ws_from [] rest
      else tokenize_ws_from (surface ++ [c]) rest
  end.

Definition tokenize_ws (text : pystr) : list (pystr * pystr * pystr) :=
  tokenize_ws_from [] text.

(** [str.lower] on ASCII text: the letters [A] to [Z] become [a] to [z] and
    every other character is left alone.  On letters outside ASCII [str.lower]
    does more; [lower_ascii] stands for it on the ASCII texts of the scenarios
    only, and the general statements take [lower] as a parameter. *)
Definition lower_ascii (s : pystr) : pystr :=
  map (fun c => if ((65 <=? c) && (c <=? 90))%N then (c + 32)%N else c) s.

(** ** The scripts and inputs of the scenarios *)

Definition gp_word (increment : Z) : GlobalParameters :=
  {| gp_docIndexFeatureName := u "xmlindex";
     gp_docIndexIncrementBeforeObjectType := [(u "word", increment)];
     gp_tokenObjectTypeNameList := [u "word"] |}.

(** Element [p] handled with token type [word] and minimum length 1;
    element [note] nixed. *)
Definition script_p_note : Script :=
  {| global_parameters := gp_word 1;
     script_handled_elements :=
       [ (u "p",
          {| he_objectTypeName := u "p";
             he_tokenObjectTypeName := Some (u "word");
             he_minimumMonadLength := Some 1;
             he_attributes := None;
             he_objectRangeType := None |}) ];
     script_ignored_elements := [];
     script_nixed_elements := [u "note"] |}.

(** The events of [<p>A<note>B<p>C</p></note>D</p>]. *)
Definition doc_nixing : list event :=
  [ StartElement (u "p") [];
    Characters (u "A");
    StartElement (u "note") [];
    Characters (u "B");
    StartElement (u "p") [];
    Characters (u "C");
    EndElement (u "p");
    EndElement (u "note");
    Characters (u "D");
    EndElement (u "p") ].

(** Element [milestone] handled, no token type, minimum length 3. *)
Definition milestone_element : HandledElement :=
  {| he_objectTypeName := u "milestone";
     he_tokenObjectTypeName := None;
     he_minimumMonadLength := Some 3;
     he_attributes := None;
     he_objectRangeType := None |}.

Definition script_milestone : Script :=
  {| global_parameters := gp_word 1;
     script_handled_elements := [ (u "milestone", milestone_element) ];
     script_ignored_elements := [];
     script_nixed_elements := [] |}.

(** The events of [<milestone/>]. *)
Definition doc_milestone : list event :=
  [ StartElement (u "milestone") []; EndElement (u "milestone") ].

(** The events of [<p>Hi there</p>]. *)
Definition doc_hi_there : list event :=
  [ StartElement (u "p") []; Characters (u "Hi there"); EndElement (u "p") ].

(** A run from a fresh handler: the final state, if no exception was
    raised. *)
Definition run (script : Script) (first_monad first_id_d : Z) (events : list event)
  : result Handler :=
  h ← init script first_monad first_id_d;
  parse tokenize_ws lower_ascii h events.

(** The tokens of a type and the finished objects of a type in a state. *)
Definition tokens_of (h : Handler) (ty : pystr) : list Token.t :=
  default [] (tokens h !! ty).

Definition objects_of (h : Handler) (ty : pystr) : list SRObject.t :=
  omap (fun a => store h !! a) (default [] (objects h !! ty)).

(** The script above with another document-index pre-increment for
    [word]. *)
Definition script_p_increment (increment : Z) : Script :=
  {| global_parameters := gp_word increment;
     script_handled_elements := script_handled_elements script_p_note;
     script_ignored_elements := [];
     script_nixed_elements := [u "note"] |}.

(** Element [p] handled with token type [word]; its attribute [id] is
    declared as the string feature [ident]. *)
Definition script_p_attribute : Script :=
  {| global_parameters := gp_word 1;
     script_handled_elements :=
       [ (u "p",
          {| he_objectTypeName := u "p";
             he_tokenObjectTypeName := Some (u "word");
             he_minimumMonadLength := Some 1;
             he_attributes :=
               Some [ (u "id", [ (u "featureName", u "ident");
                                 (u "featureType", u "STRING") ]) ];
             he_objectRangeType := None |}) ];
     script_ignored_elements := [];
     script_nixed_elements := [] |}.

(** The state of a computation that raised nothing. *)
Definition the_state (r : result Handler) : Handler :=
  match r with
  | Ok h => h
  | Error _ =>
      {| elemstack := []; charstack := []; nixing_stack := [];
         nixed_elements := ∅; ignored_elements := ∅; handled_elements := ∅;
         store := []; objstacks := ∅; objects := ∅; script := script_p_note;
         schema := ∅; curdocindex := 0; curmonad := 0; curid_d := 0;
         docIndexFeatureName := []; tokens := ∅ |}
  end.

(** The state after the events of a document prefix, from a fresh handler
    with first monad 1 and first identifier 0. *)
Definition state_after (script : Script) (events : list event) : Handler :=
  the_state (run script 1 0 events).


(** The [milestone] element open and about to be closed, and its object. *)
Definition milestone_open : Handler :=
  state_after script_milestone [StartElement (u "milestone") []].

Definition milestone_object : SRObject.t :=
  SRObject.setNonStringFeature (SRObject.init (u "milestone") 1)
    (u "xmlindex") (PyInt 1).

(** The nixing scenario just before and just after the start tag of
    [note]. *)
Definition nixing_before_note : Handler :=
  state_after script_p_note [StartElement (u "p") []; Characters (u "A")].

Definition nixing_after_note : Handler :=
  state_after script_p_note
    [StartElement (u "p") []; Characters (u "A"); StartElement (u "note") []].

(** The handler that is built for [script_p_attribute]. *)
Definition attribute_handler : Handler := the_state (init script_p_attribute 1 0).

(** A fresh handler, and the handler after [<p>Hi there</p>]. *)
Definition fresh_handler : Handler := the_state (init script_p_note 1 0).

Definition after_hi_there : Handler := state_after script_p_note doc_hi_there.

(** ** Predicates of the statements *)

(** Everything but the object store, the object stacks and the document
    index is left alone by the operations that open an object. *)
Definition same_text_state (h h' : Handler) : Prop :=
  tokens h' = tokens h /\ curmonad h' = curmonad h /\ curid_d h' = curid_d h
  /\ script h' = script h /\ charstack h' = charstack h
  /\ elemstack h' = elemstack h /\ nixing_stack h' = nixing_stack h
  /\ objects h' = objects h.

Definition docindex_increment (h : Handler) (tokenObjectTypeName : pystr) : Z :=
  Z.min 1
    (dict_get_default tokenObjectTypeName
       (gp_docIndexIncrementBeforeObjectType (global_parameters (script h))) 1).

Definition minted (h : Handler) (ty prefix surface suffix : pystr) : Token.t :=
  Token.init (curmonad h) prefix surface suffix
    (curdocindex h + docindex_increment h ty) (curid_d h).

(** The identifiers handed out so far are those from [first] up to the
    counter, each to one token. *)
Definition ids_inv (first : Z) (toks : gmap pystr (list Token.t)) (next : Z) : Prop :=
  first <= next
  /\ (forall ty l i t, toks !! ty = Some l -> l !! i = Some t ->
        first <= Token.id_d t < next)
  /\ (forall ty1 ty2 l1 l2 i j t1 t2,
        toks !! ty1 = Some l1 -> l1 !! i = Some t1 ->
        toks !! ty2 = Some l2 -> l2 !! j = Some t2 ->
        Token.id_d t1 = Token.id_d t2 -> ty1 = ty2 /\ i = j)
  /\ (next = first <-> forall ty l, toks !! ty = Some l -> l = []).


(** Whether one of the writes is an identifier clause. *)
Definition has_id_clause (out : output) : bool :=
  existsb (startswith (u "WITH ID_D=")) out.

(** A finished object of type [ty]: its span is not empty, and it is at
    least as long as the minimum of a handled element that produces [ty]. *)
Definition finished_ok (scr : Script) (ty : pystr) (o : SRObject.t) : Prop :=
  SRObject.fm o <= SRObject.lm o
  /\ exists tag he,
       dict_get tag (script_handled_elements scr) = Some he
       /\ he_objectTypeName he = ty
       /\ default 1 (he_minimumMonadLength he) <= SRObject.getMonadLength o.

(** The object store and the collections of addresses: every address on a
    stack or in a finished collection is allocated, the object there has the
    type of the collection, an open object occurs once on its stack and in no
    finished collection, and the finished objects are [finished_ok]. *)
Definition store_inv (scr : Script) (st : list SRObject.t)
    (os ob : gmap pystr (list nat)) : Prop :=
  (forall ty l a, os !! ty = Some l -> a ∈ l ->
     exists o, st !! a = Some o /\ SRObject.objectTypeName o = ty
               /\ SRObject.fm o <= SRObject.lm o)
  /\ (forall ty l a, ob !! ty = Some l -> a ∈ l ->
        exists o, st !! a = Some o /\ SRObject.objectTypeName o = ty
                  /\ finished_ok scr ty o)
  /\ (forall ty l, os !! ty = Some l -> NoDup l)
  /\ (forall ty l l' a, os !! ty = Some l -> ob !! ty = Some l' -> a ∈ l -> a ∉ l').

Definition handler_inv (h : Handler) : Prop :=
  store_inv (script h) (store h) (objstacks h) (objects h).

(** An exception of Python, as opposed to one of the model. *)
Definition python_exn (e : exn) : Prop :=
  e <> DanglingAddress /\ e <> NoTermination.

(** No configured document-index pre-increment is negative. *)
Definition nonneg_increments (scr : Script) : Prop :=
  forall ty z,
    dict_get ty (gp_docIndexIncrementBeforeObjectType (global_parameters scr)) = Some z ->
    0 <= z.

(** The counters of [h'] are not below those of [h]; for the document
    index this needs a script without negative pre-increments. *)
Definition counters_le (h h' : Handler) : Prop :=
  script h' = script h
  /\ curmonad h <= curmonad h'
  /\ curid_d h <= curid_d h'
  /\ (nonneg_increments (script h) -> curdocindex h <= curdocindex h').

(** ** Path names and XML entities *)

(** [s.split(sep)] for a separator of one character: the pieces between
    the separators, at least one. *)
Fixpoint split_on (sep : N) (s : pystr) : list pystr :=
  match s with
  | [] => [[]]
  | c :: rest =>
      if (c =? sep)%N then [] :: split_on sep rest
      else match split_on sep rest with
           | [] => [[c]]
           | w :: ws => (c :: w) :: ws
           end
  end.

(** [sep.join(l)] *)
Fixpoint join (sep : pystr) (l : list pystr) : pystr :=
  match l with
  | [] => []
  | [w] => w
  | w :: ws => w ++ sep ++ join sep ws
  end.

(** [getBasename]: the last component of the path, without its last
    extension. *)
Definition getBasename (pathname : pystr) : pystr :=
  let filename := default [] (last (split_on 47 pathname)) in
  if contains (u ".") filename
  then join (u ".") (removelast (split_on 46 filename))
  else filename.

(** [s.replace(old, new)] for an [old] of one character. *)
Definition replace_char (old : N) (new : pystr) (s : pystr) : pystr :=
  flat_map (fun c => if (c =? old)%N then new else [c]) s.

Definition mangle_XML_entities (s : pystr) : pystr :=
  let r := replace_char 38 (u "&amp;") s in
  let r := replace_char 60 (u "&lt;") r in
  let r := replace_char 62 (u "&gt;") r in
  replace_char 34 (u "&quot;") r.

(** The entity of one character. *)
Definition xml_entity (c : N) : pystr :=
  if (c =? 38)%N then u "&amp;"
  else if (c =? 60)%N then u "&lt;"
  else if (c =? 62)%N then u "&gt;"
  else if (c =? 34)%N then u "&quot;"
  else [c].

(** ** Predicates of the handler properties *)

(** [SRObject.getStringFeature] *)
Definition getStringFeature (self : SRObject.t) (name : pystr) : result pystr :=
  of_option (dict_get name (SRObject.stringFeatures self)) (KeyError name).

(** [BaseHandler.getCurElement] *)
Definition getCurElement (h : Handler) : pystr :=
  if decide (length (elemstack h) = 0%nat) then []
  else default [] (list_top (elemstack h)).

(** What is fixed when the handler is constructed. *)
Definition static_eq (h h' : Handler) : Prop :=
  nixed_elements h' = nixed_elements h
  /\ ignored_elements h' = ignored_elements h
  /\ handled_elements h' = handled_elements h
  /\ script h' = script h
  /\ docIndexFeatureName h' = docIndexFeatureName h
  /\ schema h' = schema h.

(** The events of a well-formed piece of a document, read with the open
    elements [stack]: every end tag closes the innermost open element.  The
    result is the list of the elements that are open afterwards. *)
Fixpoint nesting (stack : list pystr) (events : list event) : option (list pystr) :=
  match events with
  | [] => Some stack
  | StartElement tag _ :: rest => nesting (stack ++ [tag]) rest
  | Characters _ :: rest => nesting stack rest
  | EndElement tag :: rest =>
      match list_pop stack with
      | Some (stack', top) =>
          if decide (top = tag) then nesting stack' rest else None
      | None => None
      end
  end.

(** Two states that differ at most in how the buffered text is cut into
    chunks. *)
Definition same_buffer (h1 h2 : Handler) : Prop :=
  concat (charstack h1) = concat (charstack h2)
  /\ set_charstack [] h1 = set_charstack [] h2.

Definition same_outcome (r1 r2 : result Handler) : Prop :=
  match r1, r2 with
  | Ok h1, Ok h2 => same_buffer h1 h2
  | Error e1, Error e2 => e1 = e2
  | _, _ => False
  end.

(** The tokens are in the order in which they were minted: monads and
    identifiers are below the counters, grow together, and grow along each
    collection. *)
Definition tokens_ordered (h : Handler) : Prop :=
  (forall ty l i t, tokens h !! ty = Some l -> l !! i = Some t ->
     Token.monad t < curmonad h /\ Token.id_d t < curid_d h)
  /\ (forall ty1 ty2 l1 l2 i j t1 t2,
        tokens h !! ty1 = Some l1 -> l1 !! i = Some t1 ->
        tokens h !! ty2 = Some l2 -> l2 !! j = Some t2 ->
        (Token.id_d t1 < Token.id_d t2 <-> Token.monad t1 < Token.monad t2))
  /\ (forall ty l i j ti tj,
        tokens h !! ty = Some l -> l !! i = Some ti -> l !! j = Some tj ->
        (i < j)%nat -> Token.id_d ti < Token.id_d tj).

(** The token collections are those of the token types that the script
    lists. *)
Definition token_types_inv (h : Handler) : Prop :=
  forall ty,
    is_Some (tokens h !! ty)
    <-> ty ∈ gp_tokenObjectTypeNameList (global_parameters (script h)).

(** The tokens minted since the counters stood at [c0] and [n0] have
    monads from [c0] on. *)
Definition minted_since (c0 n0 : Z) (h : Handler) : Prop :=
  c0 <= curmonad h
  /\ forall ty l i t, tokens h !! ty = Some l -> l !! i = Some t ->
       n0 <= Token.id_d t -> c0 <= Token.monad t < curmonad h.

(** The store only grows, and the type and the first monad of an object
    never change. *)
Definition store_le (h h' : Handler) : Prop :=
  forall a o, store h !! a = Some o ->
    exists o', store h' !! a = Some o'
               /\ SRObject.fm o' = SRObject.fm o
               /\ SRObject.objectTypeName o' = SRObject.objectTypeName o.

(** The three parts of a token. *)
Definition triple_of (t : Token.t) : pystr * pystr * pystr :=
  (Token.prefix t, Token.surface t, Token.suffix t).

(** The two exceptions that [startElement] and [endElement] raise
    themselves. *)
Definition unknown_tag_exn (e : exn) : Prop :=
  match e with
  | UnknownStartTag _ | UnknownEndTag _ => True
  | _ => False
  end.

(** The name of the feature of a declared attribute. *)
Definition feature_name (spec : AttributeSpec) : option pystr :=
  dict_get (u "featureName") spec.

(** The type of the feature of a declared attribute, as [getFeatureType]
    reads it. *)
Definition feature_type (spec : AttributeSpec) : pystr :=
  dict_get_default (u "featureType") spec (u "STRING").

(** The declared attributes of an element whose keys are those of a
    dictionary and whose features have names, pairwise different. *)
Definition well_declared (declared : dict AttributeSpec) : Prop :=
  NoDup (dict_keys declared)
  /\ NoDup (map (fun entry => feature_name (snd entry)) declared)
  /\ Forall (fun entry => is_Some (feature_name (snd entry))) declared.

(** The two values that an object has under a feature name. *)
Definition features_at (o : SRObject.t) (name : pystr) : option pystr * option pyval :=
  (dict_get name (SRObject.stringFeatures o),
   dict_get name (SRObject.nonStringFeatures o)).

(** The document index of an object: its feature under the name that the
    script gives to the document index. *)
Definition docindex_of (h : Handler) (o : SRObject.t) : option pyval :=
  dict_get (docIndexFeatureName h) (SRObject.nonStringFeatures o).

(** No declared attribute has the document index as its feature. *)
Definition docindex_reserved (scr : Script) : Prop :=
  forall tag he declared entry,
    dict_get tag (script_handled_elements scr) = Some he ->
    he_attributes he = Some declared ->
    entry ∈ declared ->
    feature_name (snd entry) <> Some (gp_docIndexFeatureName (global_parameters scr)).

(** The document index [z] is that of the token at place [k] of the
    collection [ty], or that of the object at the address [a]. *)
Definition docindex_at (h : Handler) (w : pystr * nat + nat) (z : Z) : Prop :=
  match w with
  | inl (ty, k) =>
      exists l t, tokens h !! ty = Some l /\ l !! k = Some t /\ Token.xmlindex t = z
  | inr a =>
      exists o, store h !! a = Some o /\ docindex_of h o = Some (PyInt z)
  end.

(** The document indexes in use are below the counter and pairwise
    different, and every object has one. *)
Definition docindex_inv (h : Handler) : Prop :=
  docIndexFeatureName h = gp_docIndexFeatureName (global_parameters (script h))
  /\ (forall w z, docindex_at h w z -> z < curdocindex h)
  /\ (forall w1 w2 z, docindex_at h w1 z -> docindex_at h w2 z -> w1 = w2)
  /\ (forall a o, store h !! a = Some o -> exists z, docindex_of h o = Some (PyInt z)).

(** ** Writing the MQL *)

(** The order of [str]: lexicographic on the code points. *)
Fixpoint str_le (a b : pystr) : bool :=
  match a, b with
  | [], _ => true
  | _ :: _, [] => false
  | x :: a', y :: b' => (x <? y)%N || ((x =? y)%N && str_le a' b')
  end.

Fixpoint insert_sorted (x : pystr) (l : list pystr) : list pystr :=
  match l with
  | [] => [x]
  | y :: rest => if str_le x y then x :: y :: rest else y :: insert_sorted x rest
  end.

(** [sorted(d)] on a dictionary of strings: its keys in ascending order. *)
Definition sorted (keys : list pystr) : list pystr :=
  foldr insert_sorted [] keys.

Definition sorted_keys {V : Type} (d : gmap pystr V) : list pystr :=
  sorted (map fst (map_to_list d)).

(** Writers in sequence: an exception ends the writing. *)
Fixpoint write_all {A : Type} (write : A -> output * option exn) (l : list A)
  : output * option exn :=
  match l with
  | [] => ([], None)
  | a :: rest =>
      match write a with
      | (out, Some e) => (out, Some e)
      | (out, None) =>
          let (out', e) := write_all write rest in (out ++ out', e)
      end
  end.

Definition max_in_statement : Z := 50000.

Definition statement_header (objectTypeName : pystr) : pystr :=
  u "CREATE OBJECTS WITH OBJECT TYPE [" ++ objectTypeName ++ u "]" ++ [10%N].

(** The loop of [dumpMQLObjectType], with the value of [count] on entry;
    [dump] is the [dumpMQL] of the elements of the list. *)
Fixpoint dumpMQLObjectType_loop {A : Type} (dump : A -> output * option exn)
    (max : Z) (objectTypeName : pystr) (count : Z) (object_list : list A)
  : output * option exn :=
  match object_list with
  | [] => ([], None)
  | obj :: rest =>
      let count := count + 1 in
      let separator :=
        if count =? max then [u "GO" ++ [10%N]; statement_header objectTypeName]
        else [] in
      let count := if count =? max then 0 else count in
      match dump obj with
      | (out, Some e) => (separator ++ out, Some e)
      | (out, None) =>
          let (out', e) :=
            dumpMQLObjectType_loop dump max objectTypeName count rest in
          (separator ++ out ++ out', e)
      end
  end.

Definition dumpMQLObjectType {A : Type} (dump : A -> output * option exn)
    (objectTypeName : pystr) (object_list : list A) : output * option exn :=
  match dumpMQLObjectType_loop dump max_in_statement objectTypeName 0 object_list with
  | (body, Some e) => (statement_header objectTypeName :: body, Some e)
  | (body, None) => (statement_header objectTypeName :: body ++ [u "GO"], None)
  end.

(** [ObjectTypeDescription.dumpMQL]: one write of the lines joined by line
    breaks. *)
Definition ObjectTypeDescription_dumpMQL (self : ObjectTypeDescription.t) : output :=
  [ join [10%N]
      ([ u "CREATE OBJECT TYPE"; ObjectTypeDescription.objectRangeType self; u "[" ]
       ++ map (fun featureName =>
                 u "  "
                 ++ default [] (ObjectTypeDescription.features self !! featureName)
                 ++ u " : " ++ featureName ++ u ";")
            (sorted_keys (ObjectTypeDescription.features self))
       ++ [ u "]"; u "GO"; []; [] ]) ].

Definition dumpMQLSchema (h : Handler) : output :=
  flat_map
    (fun objectTypeName =>
       match schema h !! objectTypeName with
       | Some d => ObjectTypeDescription_dumpMQL d
       | None => []
       end)
    (sorted_keys (schema h)).

(** An object of the store, written; the model reports an address that is
    not allocated as [DanglingAddress]. *)
Definition dump_at (h : Handler) (a : nat) : output * option exn :=
  match store h !! a with
  | Some obj => SRObject.dumpMQL obj
  | None => ([], Some DanglingAddress)
  end.

Definition dumpMQLObjects (lower : pystr -> pystr) (h : Handler) : output * option exn :=
  match
    write_all
      (fun objectTypeName =>
         dumpMQLObjectType (dump_at h) objectTypeName
           (default [] (objects h !! objectTypeName)))
      (sorted_keys (objects h))
  with
  | (out, Some e) => (out, Some e)
  | (out, None) =>
      let (out', e) :=
        write_all
          (fun objectTypeName =>
             dumpMQLObjectType (Token.dumpMQL lower) objectTypeName
               (default [] (tokens h !! objectTypeName)))
          (sorted_keys (tokens h)) in
      (out ++ out', e)
  end.

Definition doCommand (lower : pystr -> pystr) (h : Handler) : output * option exn :=
  let banner :=
    u "//" ++ [10%N] ++ u "// Dumped with xml2emdrosmql.py." ++ [10%N]
    ++ u "//" ++ [10%N] ++ [10%N] in
  let (out, e) := dumpMQLObjects lower h in
  (banner :: dumpMQLSchema h ++ out, e).

(** The writes for the object at place [i] of a list, when nothing
    raises: a statement ends before every object whose place, counted from 1,
    is a multiple of [max]. *)
Definition statement_block {A : Type} (dump : A -> output * option exn)
    (max : Z) (objectTypeName : pystr) (i : nat) (obj : A) : output :=
  (if (Z.of_nat (S i) mod max =? 0)
   then [u "GO" ++ [10%N]; statement_header objectTypeName]
   else [])
  ++ fst (dump obj).

(** ** JSONGeneratorHandler *)

(** [s.strip()]; [isspace] is [str.isspace] on one character. *)
Fixpoint lstrip (isspace : N -> bool) (s : pystr) : pystr :=
  match s with
  | [] => []
  | c :: rest => if isspace c then lstrip isspace rest else s
  end.

Definition strip (isspace : N -> bool) (s : pystr) : pystr :=
  reverse (lstrip isspace (reverse (lstrip isspace s))).

(** [l[-2]] *)
Definition list_second_top {A : Type} (l : list A) : option A :=
  match list_pop l with
  | Some (l', _) => list_top l'
  | None => None
  end.

Module JSONGeneratorHandler.

(** The fields of [BaseHandler] and of [JSONGeneratorHandler]. *)
Record t : Type := {
  elemstack : list pystr;
  charstack : list pystr;
  nixing_stack : list pystr;
  nixed_elements : gset pystr;
  ignored_elements : gset pystr;
  handled_elements : gset pystr;
  bElementHasPCHAR : bool;
  default_token_name : pystr;
  element2ObjectTypeName : dict pystr;
  objectTypeName2Element : dict pystr;
  script : Script
}.

Definition set_elemstack (v : list pystr) (j : t) : t :=
  {| elemstack := v; charstack := charstack j; nixing_stack := nixing_stack j;
     nixed_elements := nixed_elements j; ignored_elements := ignored_elements j;
     handled_elements := handled_elements j;
     bElementHasPCHAR := bElementHasPCHAR j;
     default_token_name := default_token_name j;
     element2ObjectTypeName := element2ObjectTypeName j;
     objectTypeName2Element := objectTypeName2Element j;
     script := script j |}.

Definition set_charstack (v : list pystr) (j : t) : t :=
  {| elemstack := elemstack j; charstack := v; nixing_stack := nixing_stack j;
     nixed_elements := nixed_elements j; ignored_elements := ignored_elements j;
     handled_elements := handled_elements j;
     bElementHasPCHAR := bElementHasPCHAR j;
     default_token_name := default_token_name j;
     element2ObjectTypeName := element2ObjectTypeName j;
     objectTypeName2Element := objectTypeName2Element j;
     script := script j |}.

Definition set_nixing_stack (v : list pystr) (j : t) : t :=
  {| elemstack := elemstack j; charstack := charstack j; nixing_stack := v;
     nixed_elements := nixed_elements j; ignored_elements := ignored_elements j;
     handled_elements := handled_elements j;
     bElementHasPCHAR := bElementHasPCHAR j;
     default_token_name := default_token_name j;
     element2ObjectTypeName := element2ObjectTypeName j;
     objectTypeName2Element := objectTypeName2Element j;
     script := script j |}.

Definition set_names (e2o o2e : dict pystr) (j : t) : t :=
  {| elemstack := elemstack j; charstack := charstack j;
     nixing_stack := nixing_stack j;
     nixed_elements := nixed_elements j; ignored_elements := ignored_elements j;
     handled_elements := handled_elements j;
     bElementHasPCHAR := bElementHasPCHAR j;
     default_token_name := default_token_name j;
     element2ObjectTypeName := e2o;
     objectTypeName2Element := o2e;
     script := script j |}.

(** An assignment to an entry of [self.script["handled_elements"]]. *)
Definition set_handled (v : dict HandledElement) (j : t) : t :=
  {| elemstack := elemstack j; charstack := charstack j;
     nixing_stack := nixing_stack j;
     nixed_elements := nixed_elements j; ignored_elements := ignored_elements j;
     handled_elements := handled_elements j;
     bElementHasPCHAR := bElementHasPCHAR j;
     default_token_name := default_token_name j;
     element2ObjectTypeName := element2ObjectTypeName j;
     objectTypeName2Element := objectTypeName2Element j;
     script :=
       {| global_parameters := global_parameters (script j);
          script_handled_elements := v;
          script_ignored_elements := script_ignored_elements (script j);
          script_nixed_elements := script_nixed_elements (script j) |} |}.

Definition handled (j : t) : dict HandledElement :=
  script_handled_elements (script j).

Definition init_default_script (default_token_name : pystr) : Script :=
  {| global_parameters :=
       {| gp_docIndexFeatureName := u "xmlindex";
          gp_docIndexIncrementBeforeObjectType := [(default_token_name, 1)];
          gp_tokenObjectTypeNameList := [default_token_name] |};
     script_handled_elements := [];
     script_ignored_elements := [];
     script_nixed_elements := [] |}.

(** [__init__] *)
Definition init (default_token_name : pystr) : t :=
  {| elemstack := []; charstack := []; nixing_stack := [];
     nixed_elements := ∅; ignored_elements := ∅; handled_elements := ∅;
     bElementHasPCHAR := false;
     default_token_name := default_token_name;
     element2ObjectTypeName := [];
     objectTypeName2Element := [(default_token_name, [])];
     script := init_default_script default_token_name |}.

(** The character that [makeIdentifier] puts for [c]. *)
Definition identifier_char (c : N) : N :=
  if ((97 <=? c) && (c <=? 122))%N then c
  else if ((65 <=? c) && (c <=? 90))%N then c
  else if ((48 <=? c) && (c <=? 57))%N then c
  else 95%N.

(** [makeIdentifier].  The string that is lower-cased holds ASCII letters,
    digits and underscores only, on which [str.lower] is [lower_ascii]. *)
Definition makeIdentifier (instring : pystr) : pystr :=
  let result := map identifier_char instring in
  let result :=
    match result with
    | [] => [95%N]
    | c :: _ =>
        if ((48 <=? c) && (c <=? 57))%N then 95%N :: result else result
    end in
  lower_ascii result.

(** The [while] loop of [makeObjectTypeName]; [None] when [fuel]
    iterations were not enough. *)
Fixpoint extend_suggestion (fuel : nat) (objectTypeName2Element : dict pystr)
    (element_name suggestion : pystr) : option pystr :=
  match dict_get suggestion objectTypeName2Element with
  | Some e =>
      if decide (e <> element_name) then
        match fuel with
        | O => None
        | S fuel' =>
            extend_suggestion fuel' objectTypeName2Element element_name
              (suggestion ++ u "_")
        end
      else Some suggestion
  | None => Some suggestion
  end.

(** [makeObjectTypeName]: the new state and the name.  The loop ends
    within as many iterations as [objectTypeName2Element] has entries (lemma
    [extend_suggestion_terminates]). *)
Definition makeObjectTypeName (j : t) (element_name : pystr) : result (t * pystr) :=
  match dict_get element_name (element2ObjectTypeName j) with
  | Some name => Ok (j, name)
  | None =>
      match extend_suggestion (length (objectTypeName2Element j))
              (objectTypeName2Element j) element_name (makeIdentifier element_name) with
      | Some suggestion =>
          Ok (set_names
                (dict_set element_name suggestion (element2ObjectTypeName j))
                (dict_set suggestion element_name (objectTypeName2Element j)) j,
              suggestion)
      | None => Error NoTermination
      end
  end.

(** The loop over [attributes.keys()] of [updateElement] and of
    [createElement], on the element's ["attributes"]. *)
Definition declare_attributes (attributes : dict pystr) (declared : dict AttributeSpec)
  : dict AttributeSpec :=
  fold_left
    (fun declared key =>
       dict_set key
         [ (u "featureName", makeIdentifier key); (u "featureType", u "STRING") ]
         declared)
    (dict_keys attributes) declared.

Definition updateElement (j : t) (tag : pystr) (attributes : dict pystr)
    (bHasTokens : bool) : result t :=
  he ← of_option (dict_get tag (handled j)) (KeyError tag);
  let he :=
    if decide (0 < length attributes)%nat then
      {| he_objectTypeName := he_objectTypeName he;
         he_tokenObjectTypeName := he_tokenObjectTypeName he;
         he_minimumMonadLength := he_minimumMonadLength he;
         he_attributes :=
           Some (declare_attributes attributes (default [] (he_attributes he)));
         he_objectRangeType := he_objectRangeType he |}
    else he in
  let he :=
    if bHasTokens then
      {| he_objectTypeName := he_objectTypeName he;
         he_tokenObjectTypeName := Some (default_token_name j);
         he_minimumMonadLength := he_minimumMonadLength he;
         he_attributes := he_attributes he;
         he_objectRangeType := he_objectRangeType he |}
    else he in
  Ok (set_handled (dict_set tag he (handled j)) j).

Definition createElement (j : t) (tag : pystr) (attributes : dict pystr) : result t :=
  named ← makeObjectTypeName j tag;
  let j := fst named in
  let he :=
    {| he_objectTypeName := snd named;
       he_tokenObjectTypeName := None;
       he_minimumMonadLength := Some 1;
       he_attributes :=
         if decide (0 < length attributes)%nat
         then Some (declare_attributes attributes [])
         else None;
       he_objectRangeType := None |} in
  Ok (set_handled (dict_set tag he (handled j)) j).

Definition createOrUpdateElement (j : t) (tag : pystr) (attributes : dict pystr)
  : result t :=
  match dict_get tag (handled j) with
  | Some _ => updateElement j tag attributes false
  | None => createElement j tag attributes
  end.

Definition updateTokenObjectTypeName (j : t) (element_name : pystr) : t :=
  match dict_get element_name (handled j) with
  | Some he =>
      set_handled
        (dict_set element_name
           {| he_objectTypeName := he_objectTypeName he;
              he_tokenObjectTypeName := Some (default_token_name j);
              he_minimumMonadLength := he_minimumMonadLength he;
              he_attributes := he_attributes he;
              he_objectRangeType := he_objectRangeType he |}
           (handled j)) j
  | None => j
  end.

Section Events.

Variable isspace : N -> bool.

Definition handleChars (j : t) (chars_before tag : pystr) (bIsEndTag : bool) : t :=
  let stripped_chars := strip isspace chars_before in
  if decide (0 < length stripped_chars)%nat then
    if bIsEndTag then updateTokenObjectTypeName j tag
    else if decide (2 <= length (elemstack j))%nat then
      match list_second_top (elemstack j) with
      | Some element_name => updateTokenObjectTypeName j element_name
      | None => j
      end
    else j
  else j.

Definition handleUnknownElementStart (j : t) (tag : pystr) (attributes : dict pystr)
  : result (t * bool) :=
  j ← createOrUpdateElement j tag attributes;
  Ok (j, true).

Definition handleUnknownElementEnd (j : t) (tag : pystr) : result bool :=
  match dict_get tag (handled j) with
  | Some _ => Ok true
  | None => Error AssertionError
  end.

Definition characters (j : t) (data : pystr) : t :=
  set_charstack (charstack j ++ [data]) j.

(** [BaseHandler.startElement]; [handleElementStart] is not overridden
    and does nothing. *)
Definition startElement (j : t) (tag : pystr) (attributes : dict pystr) : result t :=
  let j := set_elemstack (elemstack j ++ [tag]) j in
  let chars := concat (charstack j) in
  let j := set_charstack [] j in
  let j := handleChars j chars tag false in
  if decide (tag ∈ nixed_elements j) then
    Ok (set_nixing_stack (nixing_stack j ++ [tag]) j)
  else if decide (length (nixing_stack j) ≠ 0%nat) then Ok j
  else if decide (tag ∈ handled_elements j) then Ok j
  else if decide (tag ∈ ignored_elements j) then Ok j
  else
    r ← handleUnknownElementStart j tag attributes;
    if snd (r : t * bool) then Ok (fst r) else Error (UnknownStartTag tag).

(** [BaseHandler.endElement]; [handleElementEnd] is not overridden and
    does nothing. *)
Definition endElement (j : t) (tag : pystr) : result t :=
  let chars := concat (charstack j) in
  let j := set_charstack [] j in
  let j := handleChars j chars tag true in
  j ← (if decide (length (nixing_stack j) ≠ 0%nat ∧ list_top (nixing_stack j) = Some tag)
       then Ok (set_nixing_stack (default [] (fst <$> list_pop (nixing_stack j))) j)
       else if decide (length (nixing_stack j) ≠ 0%nat) then Ok j
       else if decide (tag ∈ handled_elements j) then Ok j
       else if decide (tag ∈ ignored_elements j) then Ok j
       else
         b ← handleUnknownElementEnd j tag;
         if (b : bool) then Ok j else Error (UnknownEndTag tag));
  popped ← of_option (list_pop (elemstack j)) IndexError;
  Ok (set_elemstack (fst popped) j).

Definition handle_event (j : t) (ev : event) : result t :=
  match ev with
  | StartElement tag attributes => startElement j tag attributes
  | Characters data => Ok (characters j data)
  | EndElement tag => endElement j tag
  end.

(** One document; [startDocument] and [endDocument] do nothing. *)
Definition parse (j : t) (events : list event) : result t :=
  for_each handle_event events j.

End Events.

End JSONGeneratorHandler.

(** The key test of the loop of [makeObjectTypeName]: the keys of the
    dictionary that are at least as long as the suggestion. *)
Definition long_keys (d : dict pystr) (suggestion : pystr) : list pystr :=
  filter (fun k => (length suggestion <= length k)%nat) (dict_keys d).

(** A valid identifier of MQL in lower case: not empty, of lower-case
    letters, digits and underscores, and not starting with a digit. *)
Definition identifier_ok (s : pystr) : Prop :=
  s <> []
  /\ Forall (fun c => (97 <= c <= 122)%N \/ (48 <= c <= 57)%N \/ c = 95%N) s
  /\ (forall c, head s = Some c -> ~ (48 <= c <= 57)%N).

(** The two dictionaries of names are inverse to each other, apart from
    the entry of the default token name, and the name of an element is its
    identifier followed by underscores. *)
Definition names_inv (j : JSONGeneratorHandler.t) : Prop :=
  (forall e n, dict_get e (JSONGeneratorHandler.element2ObjectTypeName j) = Some n ->
     dict_get n (JSONGeneratorHandler.objectTypeName2Element j) = Some e)
  /\ dict_get (JSONGeneratorHandler.default_token_name j)
       (JSONGeneratorHandler.objectTypeName2Element j) = Some []
  /\ (forall e n, dict_get e (JSONGeneratorHandler.element2ObjectTypeName j) = Some n ->
        exists k, n = JSONGeneratorHandler.makeIdentifier e ++ replicate k 95%N).

(** What [makeIdentifier] makes of one character of its argument. *)
Definition identifier_char_lower (c : N) : N :=
  let c := JSONGeneratorHandler.identifier_char c in
  if ((65 <=? c) && (c <=? 90))%N then (c + 32)%N else c.

(** What the functions on names and on the script leave alone. *)
Definition same_stacks (j j' : JSONGeneratorHandler.t) : Prop :=
  JSONGeneratorHandler.default_token_name j' = JSONGeneratorHandler.default_token_name j
  /\ JSONGeneratorHandler.elemstack j' = JSONGeneratorHandler.elemstack j
  /\ JSONGeneratorHandler.charstack j' = JSONGeneratorHandler.charstack j
  /\ JSONGeneratorHandler.nixing_stack j' = JSONGeneratorHandler.nixing_stack j
  /\ JSONGeneratorHandler.nixed_elements j' = JSONGeneratorHandler.nixed_elements j
  /\ JSONGeneratorHandler.ignored_elements j' = JSONGeneratorHandler.ignored_elements j
  /\ JSONGeneratorHandler.handled_elements j' = JSONGeneratorHandler.handled_elements j.

(** The description that the generator gives to an attribute. *)
Definition standard_spec (key : pystr) : AttributeSpec :=
  [ (u "featureName", JSONGeneratorHandler.makeIdentifier key);
    (u "featureType", u "STRING") ].

Definition declares (he : HandledElement) (key : pystr) : Prop :=
  exists declared,
    he_attributes he = Some declared
    /\ dict_get key declared = Some (standard_spec key).

(** The entry of an element in the generated script. *)
Definition element_ok (j : JSONGeneratorHandler.t) (tag : pystr) (he : HandledElement)
  : Prop :=
  dict_get tag (JSONGeneratorHandler.element2ObjectTypeName j)
  = Some (he_objectTypeName he)
  /\ he_minimumMonadLength he = Some 1
  /\ (he_tokenObjectTypeName he = None
      \/ he_tokenObjectTypeName he = Some (JSONGeneratorHandler.default_token_name j))
  /\ he_objectRangeType he = None
  /\ (forall declared key spec,
        he_attributes he = Some declared -> dict_get key declared = Some spec ->
        spec = standard_spec key).

(** The state of a generator: the names, the classification that is never
    filled in, and the entries of the script. *)
Definition json_inv (j : JSONGeneratorHandler.t) : Prop :=
  names_inv j
  /\ JSONGeneratorHandler.nixing_stack j = []
  /\ JSONGeneratorHandler.nixed_elements j = ∅
  /\ JSONGeneratorHandler.ignored_elements j = ∅
  /\ JSONGeneratorHandler.handled_elements j = ∅
  /\ global_parameters (JSONGeneratorHandler.script j)
     = global_parameters
         (JSONGeneratorHandler.init_default_script
            (JSONGeneratorHandler.default_token_name j))
  /\ (forall tag he, dict_get tag (JSONGeneratorHandler.handled j) = Some he ->
        element_ok j tag he).

(** The script only grows: an element stays described under its name, a
    declared attribute stays declared, a token-bearing element stays one. *)
Definition script_grows (j j' : JSONGeneratorHandler.t) : Prop :=
  forall tag he,
    dict_get tag (JSONGeneratorHandler.handled j) = Some he ->
    exists he',
      dict_get tag (JSONGeneratorHandler.handled j') = Some he'
      /\ he_objectTypeName he' = he_objectTypeName he
      /\ (forall key, declares he key -> declares he' key)
      /\ (is_Some (he_tokenObjectTypeName he) -> is_Some (he_tokenObjectTypeName he')).

(** The state of a computation of the generator that raised nothing. *)
Definition the_json_state (r : result JSONGeneratorHandler.t) : JSONGeneratorHandler.t :=
  match r with
  | Ok j => j
  | Error _ => JSONGeneratorHandler.init []
  end.

(** ** Predicates of the corpus properties *)


(** The three counters of a state. *)
Definition counters (h : Handler) : Z * Z * Z :=
  (curmonad h, curid_d h, curdocindex h).


(** The identifier clauses among the writes. *)
Definition id_clauses (out : output) : list pystr :=
  List.filter (startswith (u "WITH ID_D=")) out.

(** ** The scenario of text before a child element *)

(** [str.isspace] on the characters of ASCII: the space, the controls from
    the tab to the carriage return and the four separators before the space.
    It stands for [str.isspace] on the ASCII texts of the scenarios only; the
    general statements take it as a parameter. *)
Definition isspace_ascii (c : N) : bool :=
  ((c =? 32) || ((9 <=? c) && (c <=? 13)) || ((28 <=? c) && (c <=? 31)))%N.

(** The events of [<p>A<b/></p>] and of [<p><b/></p>]. *)
Definition doc_text_before_child : list event :=
  [ StartElement (u "p") [];
    Characters (u "A");
    StartElement (u "b") [];
    EndElement (u "b");
    EndElement (u "p") ].

Definition doc_child_only : list event :=
  [ StartElement (u "p") [];
    StartElement (u "b") [];
    EndElement (u "b");
    EndElement (u "p") ].

(** The script that the generator writes for a document, with the default
    token name [word]. *)
Definition generated_script (events : list event) : result Script :=
  j ← JSONGeneratorHandler.parse isspace_ascii (JSONGeneratorHandler.init (u "word"))
        events;
  Ok (JSONGeneratorHandler.script j).

(** The elements of a script with the token type of each. *)
Definition token_bearing (scr : Script) : list (pystr * option pystr) :=
  map (fun entry => (fst entry, he_tokenObjectTypeName (snd entry)))
    (script_handled_elements scr).
(** ** Properties of the string mangling *)

Section Mangling.

Lemma special_dict_covers (c : byte) :
  special_re c = true -> is_Some (dict_lookup_byte c special_dict).
Proof. destruct c; vm_compute; intros H; try discriminate H; eauto. Qed.

Lemma re_sub_app class repl (s1 s2 : bytes) :
  re_sub class repl (s1 ++ s2) = re_sub class repl s1 ++ re_sub class repl s2.
Proof. unfold re_sub. apply flat_map_app. Qed.

Lemma mangle_bytes_app (s1 s2 : bytes) :
  mangle_bytes (s1 ++ s2) = mangle_bytes s1 ++ mangle_bytes s2.
Proof. unfold mangle_bytes. cbv zeta. now rewrite !re_sub_app. Qed.

Lemma mangle_bytes_single (c : byte) : mangle_bytes [c] = escape_byte c.
Proof. destruct c; reflexivity. Qed.

Lemma mangle_bytes_cons (c : byte) (s : bytes) :
  mangle_bytes (c :: s) = escape_byte c ++ mangle_bytes s.
Proof.
  change (c :: s) with ([c] ++ s).
  now rewrite mangle_bytes_app, mangle_bytes_single.
Qed.

(** The passes are one left-to-right rewriting of the bytes. *)
Lemma mangle_bytes_flat_map (s : bytes) :
  mangle_bytes s = flat_map escape_byte s.
Proof.
  induction s as [|c s IH]; [reflexivity|].
  rewrite mangle_bytes_cons, IH. reflexivity.
Qed.

Lemma unmangle_escape_byte (c : byte) (s : bytes) :
  unmangle_bytes (escape_byte c ++ s) = cons c <$> unmangle_bytes s.
Proof. destruct c; reflexivity. Qed.

Lemma unmangle_mangle_bytes (s : bytes) :
  unmangle_bytes (mangle_bytes s) = Some s.
Proof.
  induction s as [|c s IH]; [reflexivity|].
  rewrite mangle_bytes_cons, unmangle_escape_byte, IH. reflexivity.
Qed.

End Mangling.

(** ** Reasoning about exceptions and loops *)

Lemma bind_Ok {A B : Type} (r : result A) (k : A -> result B) (b : B) :
  (r ≫= k) = Ok b -> exists a, r = Ok a /\ k a = Ok b.
Proof. destruct r as [a|e]; simpl; [eauto | discriminate]. Qed.

Lemma of_option_Ok {A : Type} (o : option A) (e : exn) (a : A) :
  of_option o e = Ok a -> o = Some a.
Proof. destruct o; simpl; congruence. Qed.

Lemma Ok_inj {A : Type} (a b : A) : Ok a = Ok b -> a = b.
Proof. congruence. Qed.

(** Peel the binds of a hypothesis [H : ... = Ok _]. *)
Ltac inv_ok H :=
  repeat match type of H with
    | (_ ≫= _) = Ok _ =>
        let a := fresh "r" in
        let H1 := fresh "Hr" in
        apply bind_Ok in H; destruct H as (a & H1 & H);
        try (apply of_option_Ok in H1)
    | Ok _ = Ok _ => apply Ok_inj in H
    | Error _ = Ok _ => discriminate H
    | of_option _ _ = Ok _ => apply of_option_Ok in H
    end.

(** An invariant of the loop body is an invariant of the loop. *)
Lemma for_each_invariant {A S : Type} (P : S -> Prop)
    (body : S -> A -> result S) (l : list A) :
  (forall s a s', P s -> body s a = Ok s' -> P s') ->
  forall s s', P s -> for_each body l s = Ok s' -> P s'.
Proof.
  intros Hbody. induction l as [|a l IH]; intros s s' Hs H; simpl in H.
  - injection H as <-. exact Hs.
  - inv_ok H. eauto.
Qed.

(** The same for a relation between the state before and after. *)
Lemma for_each_preserves {A S : Type} (R : S -> S -> Prop)
    (body : S -> A -> result S) (l : list A) :
  (forall s, R s s) ->
  (forall s1 s2 s3, R s1 s2 -> R s2 s3 -> R s1 s3) ->
  (forall s a s', body s a = Ok s' -> R s s') ->
  forall s s', for_each body l s = Ok s' -> R s s'.
Proof.
  intros Hrefl Htrans Hbody s s' H.
  apply (for_each_invariant (R s) body l) with (s := s); eauto.
Qed.

Lemma list_pop_snoc {A : Type} (l : list A) (x : A) :
  list_pop (l ++ [x]) = Some (l, x).
Proof.
  induction l as [|y l IH]; [reflexivity|].
  simpl. rewrite IH. destruct (l ++ [x]) eqn:E; [|reflexivity].
  destruct l; discriminate E.
Qed.

Lemma list_pop_Some {A : Type} (l l' : list A) (x : A) :
  list_pop l = Some (l', x) -> l = l' ++ [x].
Proof.
  revert l'. induction l as [|y l IH]; intros l' H; [discriminate|].
  simpl in H. destruct l as [|z l].
  - injection H as <- <-. reflexivity.
  - destruct (list_pop (z :: l)) as [[r w]|] eqn:E; [|discriminate].
    injection H as <- <-. rewrite (IH r eq_refl). reflexivity.
Qed.

Lemma list_pop_None {A : Type} (l : list A) : list_pop l = None -> l = [].
Proof.
  induction l as [|x l IH]; [reflexivity|]. simpl.
  destruct l as [|y l]; [discriminate|].
  destruct (list_pop (y :: l)) as [[r w]|]; [discriminate|].
  intros _. discriminate (IH eq_refl).
Qed.

(** ** C7: escaping and its round trip *)

(** C7, as stated, fails: it has every control character
    backslash-escaped, but the carriage return (13) is below 32 and
    [mangleMQLString] copies it unchanged. *)
Lemma control_characters_not_all_escaped :
  ~ (forall cp : N, (cp < 32)%N ->
       exists rest, mangleMQLString [cp] = Ok (x5c :: rest)).
Proof.
  intros H. destruct (H 13%N) as [rest Hrest]; [reflexivity|].
  vm_compute in Hrest. discriminate Hrest.
Qed.

(** C7 (amended): on the UTF-8 bytes of a string, [mangleMQLString] rewrites
    newline, tab, the double quote and the backslash to a backslash followed
    by [n], [t], the quote or a backslash; every byte with the high bit set
    to a backslash, [x] and two hexadecimal digits; and copies every other
    byte, the remaining control characters included.  The inverse unescape
    rule gives the original bytes back. *)
Theorem mangleMQLString_escapes_and_round_trips (ustr : pystr) (b : bytes) :
  encode_utf8 ustr = Some b ->
  exists m,
    mangleMQLString ustr = Ok m
    /\ m = flat_map escape_byte b
    /\ (forall c, special_re c = true ->
          exists e, escape_byte c = [x5c; e]
                    /\ In (c, e) [(x0a, x6e); (x09, x74); (x22, x22); (x5c, x5c)])
    /\ (forall c, upper_bit_re c = true ->
          escape_byte c =
            [x5c; x78; hex_digit (Byte.to_N c / 16); hex_digit (Byte.to_N c mod 16)])
    /\ (forall c, special_re c = false -> upper_bit_re c = false ->
          escape_byte c = [c])
    /\ unmangle_bytes m = Some b.
Proof.
  intros Henc. exists (mangle_bytes b).
  split; [unfold mangleMQLString; rewrite Henc; reflexivity|].
  split; [apply mangle_bytes_flat_map|].
  split.
  { intros c. destruct c; vm_compute; intros H; try discriminate H;
      eexists; (split; [reflexivity|]); simpl; tauto. }
  split; [intros c; destruct c; vm_compute; intros H; (discriminate H || reflexivity)|].
  split; [intros c; destruct c; vm_compute; intros H1 H2;
          (discriminate H1 || discriminate H2 || reflexivity)|].
  apply unmangle_mangle_bytes.
Qed.

(** The theorem at a quote, a backslash, a newline, a tab and the letter
    e with an acute accent (two bytes with the high bit set). *)
Lemma mangleMQLString_round_trip_witness :
  encode_utf8 [34; 92; 10; 9; 233]%N = Some [x22; x5c; x0a; x09; xc3; xa9]
  /\ exists m,
       mangleMQLString [34; 92; 10; 9; 233]%N = Ok m
       /\ m = flat_map escape_byte [x22; x5c; x0a; x09; xc3; xa9]
       /\ (forall c, special_re c = true ->
             exists e, escape_byte c = [x5c; e]
                       /\ In (c, e) [(x0a, x6e); (x09, x74); (x22, x22); (x5c, x5c)])
       /\ (forall c, upper_bit_re c = true ->
             escape_byte c =
               [x5c; x78; hex_digit (Byte.to_N c / 16); hex_digit (Byte.to_N c mod 16)])
       /\ (forall c, special_re c = false -> upper_bit_re c = false ->
             escape_byte c = [c])
       /\ unmangle_bytes m = Some [x22; x5c; x0a; x09; xc3; xa9].
Proof.
  split; [reflexivity|].
  apply (mangleMQLString_escapes_and_round_trips
           [34; 92; 10; 9; 233]%N [x22; x5c; x0a; x09; xc3; xa9]).
  reflexivity.
Defined.

(** ** The handler: what each operation touches *)

Lemma same_text_state_refl h : same_text_state h h.
Proof. unfold same_text_state. tauto. Qed.

Lemma same_text_state_trans h1 h2 h3 :
  same_text_state h1 h2 -> same_text_state h2 h3 -> same_text_state h1 h3.
Proof. unfold same_text_state. intuition congruence. Qed.

Lemma createObject_same_text_state h ty :
  same_text_state h (fst (createObject h ty)).
Proof. unfold same_text_state. simpl. tauto. Qed.

Section HandlerProperties.

Variable tokenize_string : pystr -> list (pystr * pystr * pystr).
Variable lower : pystr -> pystr.

Lemma handleElementStart_attribute_same_text_state tag attributes a h entry h' :
  handleElementStart_attribute lower tag attributes a h entry = Ok h' ->
  same_text_state h h'.
Proof.
  unfold handleElementStart_attribute. intros H.
  destruct (dict_get (fst entry) attributes).
  - inv_ok H. subst h'. unfold same_text_state. simpl. tauto.
  - inv_ok H. subst h'. apply same_text_state_refl.
Qed.

Lemma handleElementStart_same_text_state h tag attributes h' :
  handleElementStart lower h tag attributes = Ok h' -> same_text_state h h'.
Proof.
  unfold handleElementStart. intros H.
  destruct (dict_get tag (handled h)) as [he|].
  - destruct (he_attributes he) as [attrs|].
    + apply same_text_state_trans with (fst (createObject h (he_objectTypeName he)));
        [apply createObject_same_text_state|].
      revert H. apply for_each_preserves;
        eauto using same_text_state_refl, same_text_state_trans,
          handleElementStart_attribute_same_text_state.
    + inv_ok H. subst h'. apply createObject_same_text_state.
  - inv_ok H. subst h'. apply same_text_state_refl.
Qed.

(** A flush that is not at an end tag mints nothing. *)
Lemma handleChars_start h chars tag :
  handleChars tokenize_string h chars tag false = Ok h.
Proof. reflexivity. Qed.

(** [startElement] clears the text buffer and mints no token. *)
Lemma startElement_discards_text h tag attributes h' :
  startElement tokenize_string lower h tag attributes = Ok h' ->
  charstack h' = [] /\ tokens h' = tokens h
  /\ curmonad h' = curmonad h /\ curid_d h' = curid_d h.
Proof.
  unfold startElement. cbv zeta. rewrite handleChars_start. simpl.
  intros H. repeat case_decide.
  - inv_ok H. subst h'. simpl. tauto.
  - inv_ok H. subst h'. simpl. tauto.
  - apply handleElementStart_same_text_state in H.
    unfold same_text_state in H. simpl in H. intuition.
  - inv_ok H. subst h'. simpl. tauto.
  - discriminate H.
Qed.

(** *** Token minting *)

Lemma createToken_Ok h ty p s x h' :
  createToken h ty p s x = Ok h' ->
  exists l,
    tokens h !! ty = Some l
    /\ tokens h' = <[ty := l ++ [minted h ty p s x]]> (tokens h)
    /\ curmonad h' = curmonad h + 1
    /\ curid_d h' = curid_d h + 1
    /\ curdocindex h' = curdocindex h + docindex_increment h ty + 1
    /\ script h' = script h /\ store h' = store h
    /\ objstacks h' = objstacks h /\ objects h' = objects h
    /\ elemstack h' = elemstack h /\ nixing_stack h' = nixing_stack h
    /\ charstack h' = charstack h.
Proof.
  unfold createToken. cbv zeta. simpl. intros H. inv_ok H.
  exists r. subst h'. simpl. unfold minted, docindex_increment. tauto.
Qed.

Lemma createToken_total h ty p s x l :
  tokens h !! ty = Some l -> exists h', createToken h ty p s x = Ok h'.
Proof.
  intros Hl. unfold createToken. cbv zeta. simpl. rewrite Hl. simpl. eauto.
Qed.

(** *** The identifiers of the tokens *)

Lemma lookup_snoc_inv {A : Type} (l : list A) (x y : A) (i : nat) :
  (l ++ [x]) !! i = Some y ->
  (l !! i = Some y /\ (i < length l)%nat) \/ (i = length l /\ y = x).
Proof.
  intros H. destruct (decide (i < length l)%nat) as [Hlt|Hge].
  - left. rewrite lookup_app_l in H by exact Hlt. auto.
  - right. rewrite lookup_app_r in H by lia.
    destruct (i - length l)%nat eqn:E; simpl in H; [|discriminate].
    injection H as <-. split; [lia|reflexivity].
Qed.

Lemma ids_inv_mint first toks next ty l t :
  ids_inv first toks next ->
  toks !! ty = Some l ->
  Token.id_d t = next ->
  ids_inv first (<[ty := l ++ [t]]> toks) (next + 1).
Proof.
  intros (Hle & Hrange & Huniq & Hempty) Hl Hid.
  assert (Hnew : forall ty' l' i t',
             <[ty := l ++ [t]]> toks !! ty' = Some l' -> l' !! i = Some t' ->
             (toks !! ty' = Some l' /\ ty' <> ty)
             \/ (ty' = ty /\ l !! i = Some t' /\ (i < length l)%nat /\ l' = l ++ [t])
             \/ (ty' = ty /\ i = length l /\ t' = t /\ l' = l ++ [t])).
  { intros ty' l' i t' Hl' Ht'.
    destruct (decide (ty = ty')) as [<-|Hne].
    - rewrite lookup_insert_eq in Hl'. injection Hl' as <-.
      apply lookup_snoc_inv in Ht'. destruct Ht' as [[? ?]|[? ?]]; auto 10.
    - rewrite lookup_insert_ne in Hl' by exact Hne. auto. }
  assert (Hold : forall ty' l' i t', toks !! ty' = Some l' -> l' !! i = Some t' ->
             Token.id_d t' < next) by (intros; eapply Hrange; eauto).
  split; [lia|]. split; [|split].
  - intros ty' l' i t' Hl' Ht'.
    destruct (Hnew _ _ _ _ Hl' Ht') as [[H1 _]|[(-> & H1 & _)|(-> & _ & -> & _)]].
    + specialize (Hrange _ _ _ _ H1 Ht'). lia.
    + specialize (Hrange _ _ _ _ Hl H1). lia.
    + lia.
  - intros ty1 ty2 l1 l2 i j t1 t2 Hl1 Ht1 Hl2 Ht2 Heq.
    destruct (Hnew _ _ _ _ Hl1 Ht1) as [[H1 N1]|[(-> & H1 & B1 & ->)|(-> & -> & -> & ->)]];
    destruct (Hnew _ _ _ _ Hl2 Ht2) as [[H2 N2]|[(-> & H2 & B2 & ->)|(-> & -> & -> & ->)]].
    + eapply Huniq; eauto.
    + eapply Huniq; eauto.
    + specialize (Hold _ _ _ _ H1 Ht1). lia.
    + eapply Huniq; eauto.
    + eapply Huniq; eauto.
    + specialize (Hold _ _ _ _ Hl H1). lia.
    + specialize (Hold _ _ _ _ H2 Ht2). lia.
    + specialize (Hold _ _ _ _ Hl H2). lia.
    + auto.
  - split; [lia|]. intros Hall.
    specialize (Hall ty (l ++ [t])). rewrite lookup_insert_eq in Hall.
    specialize (Hall eq_refl). destruct l; discriminate Hall.
Qed.

Lemma createToken_ids_inv first h ty p s x h' :
  ids_inv first (tokens h) (curid_d h) ->
  createToken h ty p s x = Ok h' ->
  ids_inv first (tokens h') (curid_d h').
Proof.
  intros Hinv H. apply createToken_Ok in H.
  destruct H as (l & Hl & -> & _ & -> & _).
  apply ids_inv_mint; [exact Hinv | exact Hl | reflexivity].
Qed.

(** *** Closing an object: the padding loop *)

Lemma setLastMonad_valid obj m :
  SRObject.fm (SRObject.setLastMonad obj m) <= SRObject.lm (SRObject.setLastMonad obj m).
Proof. simpl. destruct (Z.ltb_spec m (SRObject.fm obj)); lia. Qed.

Lemma setLastMonad_lm obj m :
  SRObject.lm (SRObject.setLastMonad obj m) = Z.max (SRObject.fm obj) m.
Proof. simpl. destruct (Z.ltb_spec m (SRObject.fm obj)); lia. Qed.

(** What the loop returns, whenever it returns. *)
Lemma pad_to_minimum_Some fuel : forall obj c L obj' c',
  pad_to_minimum fuel obj c L = Some (obj', c') ->
  c <= c'
  /\ L <= SRObject.getMonadLength obj'
  /\ SRObject.fm obj' = SRObject.fm obj
  /\ SRObject.objectTypeName obj' = SRObject.objectTypeName obj
  /\ SRObject.id_d obj' = SRObject.id_d obj
  /\ (SRObject.fm obj <= SRObject.lm obj -> SRObject.fm obj' <= SRObject.lm obj')
  /\ (L <= SRObject.getMonadLength obj -> obj' = obj /\ c' = c).
Proof.
  induction fuel as [|fuel IH]; intros obj c L obj' c' H; simpl in H;
    destruct (Z.ltb_spec (SRObject.getMonadLength obj) L) as [Hlt|Hge];
    try discriminate H.
  - injection H as <- <-. repeat split; auto; lia.
  - apply IH in H. destruct H as (H1 & H2 & H3 & H4 & H5 & H6 & _).
    simpl in H3, H4, H5.
    split; [lia|]. split; [lia|]. split; [congruence|]. split; [congruence|].
    split; [congruence|]. split; [intros _; apply H6, setLastMonad_valid|].
    intros Hge. lia.
  - injection H as <- <-. repeat split; auto; lia.
Qed.

(** Once the last monad follows the counter, the distance to the
    required length bounds the iterations that remain. *)
Lemma pad_to_minimum_synced fuel : forall obj c L,
  SRObject.lm obj = Z.max (SRObject.fm obj) (c - 1) ->
  (Z.to_nat (L + SRObject.fm obj - c) <= fuel)%nat ->
  is_Some (pad_to_minimum fuel obj c L).
Proof.
  induction fuel as [|fuel IH]; intros obj c L Hsync Hfuel; simpl;
    destruct (Z.ltb_spec (SRObject.getMonadLength obj) L) as [Hlt|Hge]; eauto.
  - unfold SRObject.getMonadLength in Hlt. lia.
  - apply IH.
    + rewrite setLastMonad_lm. simpl. lia.
    + simpl. unfold SRObject.getMonadLength in Hlt. lia.
Qed.

(** The loop of [handleElementEnd] terminates within [pad_fuel]
    iterations, from every state. *)
Lemma pad_to_minimum_terminates obj c L :
  is_Some (pad_to_minimum (pad_fuel obj c L) obj c L).
Proof.
  unfold pad_fuel. simpl.
  destruct (Z.ltb_spec (SRObject.getMonadLength obj) L) as [Hlt|Hge]; eauto.
  apply pad_to_minimum_synced.
  - rewrite setLastMonad_lm. simpl. lia.
  - simpl. lia.
Qed.

Lemma endObject_Ok h ty h' a :
  endObject h ty = Ok (h', a) ->
  exists stack stack' obj,
    objstacks h !! ty = Some stack
    /\ list_pop stack = Some (stack', a)
    /\ store h !! a = Some obj
    /\ SRObject.objectTypeName obj = ty
    /\ store h' = <[a := SRObject.setLastMonad obj (curmonad h - 1)]> (store h)
    /\ objstacks h' = <[ty := stack']> (objstacks h)
    /\ objects h' = <[ty := default [] (objects h !! ty) ++ [a]]> (objects h)
    /\ tokens h' = tokens h /\ curmonad h' = curmonad h
    /\ curid_d h' = curid_d h /\ curdocindex h' = curdocindex h
    /\ script h' = script h /\ elemstack h' = elemstack h
    /\ nixing_stack h' = nixing_stack h /\ charstack h' = charstack h.
Proof.
  unfold endObject, deref. intros H. inv_ok H. simpl in Hr1.
  destruct r0 as [stack' a0]. simpl in *.
  case_decide; [|discriminate H]. inv_ok H. injection H as <- <-.
  exists r, stack', r1. simpl. tauto.
Qed.

Lemma handleElementEnd_frame h tag h' :
  handleElementEnd h tag = Ok h' ->
  tokens h' = tokens h /\ curid_d h' = curid_d h /\ script h' = script h
  /\ curdocindex h' = curdocindex h /\ curmonad h <= curmonad h'
  /\ elemstack h' = elemstack h /\ nixing_stack h' = nixing_stack h
  /\ charstack h' = charstack h.
Proof.
  unfold handleElementEnd. intros H.
  destruct (dict_get tag (handled h)) as [he|].
  - inv_ok H. destruct r as [h1 a]. cbn [fst snd] in *.
    apply endObject_Ok in Hr.
    destruct Hr as (stack & stack' & obj & _ & _ & _ & _ & _ & _ & _
                    & Ht & Hm & Hi & Hd & Hs & He & Hn & Hc).
    destruct (pad_to_minimum _ _ _ _) as [[obj' c']|] eqn:Hpad; [|discriminate H].
    inv_ok H. subst h'. simpl.
    apply pad_to_minimum_Some in Hpad. destruct Hpad as (Hle & _).
    rewrite <- Hm. tauto.
  - inv_ok H. subst h'. repeat split; auto; lia.
Qed.

(** *** Events *)

Lemma handleChars_ids_inv first h chars tag b h' :
  handleChars tokenize_string h chars tag b = Ok h' ->
  ids_inv first (tokens h) (curid_d h) ->
  ids_inv first (tokens h') (curid_d h').
Proof.
  unfold handleChars. intros H Hinv.
  match type of H with (if ?c then _ else _) = _ => destruct c end.
  - inv_ok H. revert H.
    apply (for_each_invariant (fun h => ids_inv first (tokens h) (curid_d h)));
      [|exact Hinv].
    intros s t s' Hs Hbody. eapply createToken_ids_inv; eauto.
  - inv_ok H. subst h'. exact Hinv.
Qed.

(** Minting changes the counters and the token collections only, and
    the monad counter does not go down. *)
Lemma handleChars_frame h chars tag b h' :
  handleChars tokenize_string h chars tag b = Ok h' ->
  script h' = script h /\ store h' = store h /\ objstacks h' = objstacks h
  /\ objects h' = objects h /\ elemstack h' = elemstack h
  /\ nixing_stack h' = nixing_stack h /\ charstack h' = charstack h
  /\ curmonad h <= curmonad h'.
Proof.
  unfold handleChars. intros H.
  match type of H with (if ?c then _ else _) = _ => destruct c end.
  - inv_ok H. revert H.
    apply (for_each_preserves
             (fun h h' =>
                script h' = script h /\ store h' = store h
                /\ objstacks h' = objstacks h /\ objects h' = objects h
                /\ elemstack h' = elemstack h
                /\ nixing_stack h' = nixing_stack h /\ charstack h' = charstack h
                /\ curmonad h <= curmonad h')).
    + intros s. repeat split; auto; lia.
    + intros s1 s2 s3 H1 H2.
      destruct H1 as (?&?&?&?&?&?&?&?), H2 as (?&?&?&?&?&?&?&?).
      repeat split; try congruence; lia.
    + intros s t s' Hbody. apply createToken_Ok in Hbody.
      destruct Hbody as (l & _ & _ & Hm & _ & _ & ? & ? & ? & ? & ? & ? & ?).
      repeat split; auto; lia.
  - inv_ok H. subst h'. repeat split; auto; lia.
Qed.

Lemma endElement_ids_inv first h tag h' :
  endElement tokenize_string h tag = Ok h' ->
  ids_inv first (tokens h) (curid_d h) ->
  ids_inv first (tokens h') (curid_d h').
Proof.
  unfold endElement. cbv zeta. intros H Hinv. inv_ok H. subst h'. simpl.
  apply (handleChars_ids_inv first) in Hr; [|exact Hinv].
  repeat case_decide; inv_ok Hr0; subst; simpl; auto.
  - apply handleElementEnd_frame in Hr0.
    destruct Hr0 as (-> & -> & _). exact Hr.
  - discriminate Hr0.
Qed.

Lemma handle_event_ids_inv first h ev h' :
  handle_event tokenize_string lower h ev = Ok h' ->
  ids_inv first (tokens h) (curid_d h) ->
  ids_inv first (tokens h') (curid_d h').
Proof.
  destruct ev as [tag attributes|data|tag]; simpl; intros H Hinv.
  - apply startElement_discards_text in H.
    destruct H as (_ & -> & _ & ->). exact Hinv.
  - inv_ok H. subst h'. exact Hinv.
  - eapply endElement_ids_inv; eauto.
Qed.

Lemma parse_ids_inv first h events h' :
  parse tokenize_string lower h events = Ok h' ->
  ids_inv first (tokens h) (curid_d h) ->
  ids_inv first (tokens h') (curid_d h').
Proof.
  unfold parse, startDocument, endDocument. simpl. intros H Hinv.
  inv_ok H. subst h'. revert Hr.
  apply (for_each_invariant (fun h => ids_inv first (tokens h) (curid_d h)));
    [|exact Hinv].
  intros s ev s' Hs Hev. eapply handle_event_ids_inv; eauto.
Qed.

(** *** Construction *)

Lemma makeSchema_Ok h h' :
  makeSchema h = Ok h' -> exists s, h' = set_schema s h.
Proof. unfold makeSchema. intros H. inv_ok H. eauto. Qed.

Lemma setdefault_nil_all_empty (l : list pystr) : forall d : gmap pystr (list Token.t),
  (forall ty toks, d !! ty = Some toks -> toks = []) ->
  forall ty toks,
    fold_left (fun d k => setdefault_nil k d) l d !! ty = Some toks -> toks = [].
Proof.
  induction l as [|k l IH]; intros d Hd ty toks; simpl; [apply Hd|].
  apply IH. intros ty' toks'. unfold setdefault_nil.
  destruct (d !! k) eqn:E; [apply Hd|].
  destruct (decide (k = ty')) as [->|Hne].
  - rewrite lookup_insert_eq. congruence.
  - rewrite lookup_insert_ne by exact Hne. apply Hd.
Qed.

(** A new handler starts from the given monad and identifier, from
    document index 1, and without tokens, open or finished objects. *)
Lemma init_Ok scr first_monad first_id_d h :
  init scr first_monad first_id_d = Ok h ->
  curmonad h = first_monad /\ curid_d h = first_id_d /\ curdocindex h = 1
  /\ script h = scr
  /\ (forall ty toks, tokens h !! ty = Some toks -> toks = [])
  /\ store h = [] /\ objstacks h = ∅ /\ objects h = ∅
  /\ elemstack h = [] /\ charstack h = [] /\ nixing_stack h = [].
Proof.
  unfold init. intros H. apply makeSchema_Ok in H. destruct H as [s ->].
  simpl. repeat split; auto.
  apply setdefault_nil_all_empty. intros ty toks. rewrite lookup_empty. discriminate.
Qed.

Lemma init_ids_inv scr first_monad first_id_d h :
  init scr first_monad first_id_d = Ok h ->
  ids_inv first_id_d (tokens h) (curid_d h).
Proof.
  intros H. apply init_Ok in H. destruct H as (_ & -> & _ & _ & Hempty & _).
  unfold ids_inv. split; [lia|]. split; [|split].
  - intros ty l i t Hl Ht. rewrite (Hempty _ _ Hl) in Ht. discriminate Ht.
  - intros ty1 ty2 l1 l2 i j t1 t2 Hl1 Ht1.
    rewrite (Hempty _ _ Hl1) in Ht1. discriminate Ht1.
  - split; auto.
Qed.

(** *** Rendering: the identifier clause *)

Lemma has_id_clause_app (o1 o2 : output) :
  has_id_clause (o1 ++ o2) = has_id_clause o1 || has_id_clause o2.
Proof. apply existsb_app. Qed.

(** A feature line of a token starts with the feature's name. *)
Lemma Token_write_features_no_clause (fs : list (pystr * pystr)) :
  Forall (fun f => startswith (u "W") (fst f ++ u ":") = false) fs ->
  has_id_clause (fst (Token.write_features fs)) = false.
Proof.
  induction 1 as [|[name value] fs Hname _ IH]; [reflexivity|].
  simpl. destruct (mangleMQLString value) as [m|e]; [|reflexivity].
  destruct (Token.write_features fs) as [out e]. simpl in *.
  rewrite IH, orb_false_r.
  destruct name as [|c name]; [reflexivity|].
  simpl in Hname |- *. rewrite andb_true_r in Hname. rewrite Hname. reflexivity.
Qed.

(** A feature line of an object starts with two spaces. *)
Lemma SRObject_write_stringFeatures_no_clause (fs : dict pystr) :
  has_id_clause (fst (SRObject.write_stringFeatures fs)) = false.
Proof.
  induction fs as [|[key value] fs IH]; [reflexivity|].
  simpl. destruct (mangleMQLString value) as [m|e]; [|reflexivity].
  destruct (SRObject.write_stringFeatures fs) as [out e]. simpl in *.
  exact IH.
Qed.

Lemma SRObject_nonStringFeatures_no_clause (fs : dict pyval) :
  has_id_clause
    (map (fun kv => u "  " ++ fst kv ++ u ":=" ++ fmt_s (snd kv) ++ u ";" ++ [10%N]) fs)
  = false.
Proof. induction fs as [|kv fs IH]; [reflexivity|]. simpl. exact IH. Qed.

Lemma Token_dumpMQL_id_clause (t : Token.t) :
  has_id_clause (fst (Token.dumpMQL lower t)) = true <-> Token.id_d t <> 0.
Proof.
  unfold Token.dumpMQL. cbv zeta.
  pose proof (Token_write_features_no_clause
                [ (u "prefix", Token.prefix t); (u "surface", Token.surface t);
                  (u "suffix", Token.suffix t);
                  (u "surface_lowcase", lower (Token.surface t)) ]) as Hbody.
  destruct (Token.write_features _) as [body e].
  assert (Hb : has_id_clause body = false)
    by (apply Hbody; repeat constructor).
  clear Hbody.
  destruct e as [e|]; cbn [fst]; rewrite !has_id_clause_app, Hb;
    case_decide as Hid;
    match goal with
    | |- ?b = true <-> _ =>
        let v := eval cbv in b in change b with v
    end; intuition discriminate.
Qed.

Lemma SRObject_dumpMQL_id_clause (o : SRObject.t) :
  has_id_clause (fst (SRObject.dumpMQL o)) = true <-> SRObject.id_d o <> 0.
Proof.
  unfold SRObject.dumpMQL. cbv zeta.
  pose proof (SRObject_write_stringFeatures_no_clause (SRObject.stringFeatures o)) as Hb.
  destruct (SRObject.write_stringFeatures _) as [body e]. cbn [fst] in Hb.
  destruct e as [e|]; cbn [fst];
    rewrite !has_id_clause_app, Hb, SRObject_nonStringFeatures_no_clause;
    case_decide as Hid;
    match goal with
    | |- ?b = true <-> _ =>
        let v := eval cbv in b in change b with v
    end; intuition discriminate.
Qed.

(** *** C3: closing an object *)

(** When the loop has work to do, it stops at a span of exactly the
    required length. *)
Lemma pad_to_minimum_exact fuel : forall obj c L obj' c',
  SRObject.lm obj = Z.max (SRObject.fm obj) (c - 1) ->
  SRObject.getMonadLength obj < L ->
  pad_to_minimum fuel obj c L = Some (obj', c') ->
  SRObject.lm obj' = SRObject.fm obj + L - 1 /\ c' = SRObject.fm obj + L.
Proof.
  induction fuel as [|fuel IH]; intros obj c L obj' c' Hsync Hlt H; simpl in H;
    destruct (Z.ltb_spec (SRObject.getMonadLength obj) L) as [_|Hge];
    try discriminate H; try lia.
  pose proof (setLastMonad_lm obj c) as Hlm1.
  destruct (Z.ltb_spec (SRObject.getMonadLength (SRObject.setLastMonad obj c)) L)
    as [Hlt1|Hge1].
  - apply IH in H; [exact H| |exact Hlt1].
    rewrite Hlm1. simpl. f_equal. lia.
  - apply pad_to_minimum_Some in H.
    destruct H as (_ & _ & _ & _ & _ & _ & Hsame).
    destruct (Hsame Hge1) as [-> ->].
    unfold SRObject.getMonadLength in *. simpl SRObject.fm in *. lia.
Qed.

Local Arguments pad_to_minimum : simpl never.
Local Arguments pad_fuel : simpl never.

Lemma handleElementEnd_closes h tag he stack stack' a obj :
  dict_get tag (handled h) = Some he ->
  objstacks h !! he_objectTypeName he = Some stack ->
  list_pop stack = Some (stack', a) ->
  store h !! a = Some obj ->
  SRObject.objectTypeName obj = he_objectTypeName he ->
  let L := default 1 (he_minimumMonadLength he) in
  let ended := SRObject.setLastMonad obj (curmonad h - 1) in
  exists h' obj',
    handleElementEnd h tag = Ok h'
    /\ objstacks h' !! he_objectTypeName he = Some stack'
    /\ objects h' !! he_objectTypeName he
       = Some (default [] (objects h !! he_objectTypeName he) ++ [a])
    /\ store h' !! a = Some obj'
    /\ L <= SRObject.getMonadLength obj'
    /\ SRObject.fm obj' = SRObject.fm obj
    /\ SRObject.fm obj' <= SRObject.lm obj'
    /\ curmonad h <= curmonad h'
    /\ (L <= SRObject.getMonadLength ended ->
          obj' = ended /\ curmonad h' = curmonad h)
    /\ (SRObject.getMonadLength ended < L ->
          SRObject.getMonadLength obj' = L
          /\ curmonad h' = SRObject.fm obj + L).
Proof.
  intros Hhe Hstack Hpop Hobj Hty L ended.
  assert (Ha : (a < length (store h))%nat) by (eapply lookup_lt_Some; eauto).
  unfold handleElementEnd. rewrite Hhe.
  unfold endObject, deref. rewrite Hstack. simpl. rewrite Hpop. simpl.
  rewrite Hobj. simpl. rewrite decide_True by exact Hty. simpl.
  rewrite list_lookup_insert_eq by exact Ha. simpl.
  fold ended. fold L.
  destruct (pad_to_minimum_terminates ended (curmonad h) L) as [[obj' c'] Hpad].
  rewrite Hpad.
  pose proof (pad_to_minimum_Some _ _ _ _ _ _ Hpad)
    as (Hle & HL & Hfm & _ & _ & Hvalid & Hsame).
  eexists _, obj'. split; [reflexivity|]. simpl.
  rewrite !lookup_insert_eq.
  rewrite list_lookup_insert_eq by (rewrite length_insert; exact Ha).
  split; [reflexivity|]. split; [reflexivity|]. split; [reflexivity|].
  split; [exact HL|]. split; [exact Hfm|].
  split; [apply Hvalid, setLastMonad_valid|].
  split; [exact Hle|].
  split; [exact Hsame|].
  intros Hlt.
  pose proof (pad_to_minimum_exact _ _ _ _ _ _ (setLastMonad_lm obj _) Hlt Hpad)
    as [E1 E2].
  split; [|exact E2].
  unfold SRObject.getMonadLength. rewrite E1, Hfm. subst ended. simpl. lia.
Qed.

(** *** The object store *)

Lemma store_inv_create scr st os ob ty obj :
  store_inv scr st os ob ->
  SRObject.objectTypeName obj = ty ->
  SRObject.fm obj <= SRObject.lm obj ->
  store_inv scr (st ++ [obj]) (<[ty := default [] (os !! ty) ++ [length st]]> os) ob.
Proof.
  intros (I1 & I2 & I3 & I4) Hty Hspan.
  assert (Hold : forall l, default [] (os !! ty) = l -> forall a, a ∈ l ->
                   exists o, st !! a = Some o /\ SRObject.objectTypeName o = ty
                             /\ SRObject.fm o <= SRObject.lm o).
  { intros l Hl a Ha. destruct (os !! ty) as [l0|] eqn:E; simpl in Hl; subst l.
    - eapply I1; eauto.
    - inversion Ha. }
  assert (Hfresh1 : length st ∉ default [] (os !! ty)).
  { intros Hin. destruct (Hold _ eq_refl _ Hin) as (o & Ho & _).
    apply lookup_lt_Some in Ho. lia. }
  split; [|split; [|split]].
  - intros ty' l a Hl Ha. destruct (decide (ty = ty')) as [<-|Hne].
    + rewrite lookup_insert_eq in Hl. injection Hl as <-.
      apply elem_of_app in Ha. destruct Ha as [Ha|Ha].
      * destruct (Hold _ eq_refl _ Ha) as (o & Ho & Hrest).
        exists o. split; [|exact Hrest].
        rewrite lookup_app_l; [exact Ho|]. eapply lookup_lt_Some; eauto.
      * apply list_elem_of_singleton in Ha. subst a.
        exists obj. split; [|auto].
        rewrite lookup_app_r by lia. rewrite Nat.sub_diag. reflexivity.
    + rewrite lookup_insert_ne in Hl by exact Hne.
      destruct (I1 _ _ _ Hl Ha) as (o & Ho & Hrest).
      exists o. split; [|exact Hrest].
      rewrite lookup_app_l; [exact Ho|]. eapply lookup_lt_Some; eauto.
  - intros ty' l a Hl Ha. destruct (I2 _ _ _ Hl Ha) as (o & Ho & Hrest).
    exists o. split; [|exact Hrest].
    rewrite lookup_app_l; [exact Ho|]. eapply lookup_lt_Some; eauto.
  - intros ty' l Hl. destruct (decide (ty = ty')) as [<-|Hne].
    + rewrite lookup_insert_eq in Hl. injection Hl as <-.
      apply NoDup_app. split; [|split].
      * destruct (os !! ty) as [l0|] eqn:E; simpl; [eapply I3; eauto | constructor].
      * intros a Ha Hin. apply list_elem_of_singleton in Hin. subst a. auto.
      * apply NoDup_singleton.
    + rewrite lookup_insert_ne in Hl by exact Hne. eapply I3; eauto.
  - intros ty' l l' a Hl Hl' Ha. destruct (decide (ty = ty')) as [<-|Hne].
    + rewrite lookup_insert_eq in Hl. injection Hl as <-.
      apply elem_of_app in Ha. destruct Ha as [Ha|Ha].
      * destruct (os !! ty) as [l0|] eqn:E; simpl in Ha; [|inversion Ha].
        eapply I4; eauto.
      * apply list_elem_of_singleton in Ha. subst a. intros Hin.
        destruct (I2 _ _ _ Hl' Hin) as (o & Ho & _).
        apply lookup_lt_Some in Ho. lia.
    + rewrite lookup_insert_ne in Hl by exact Hne. eapply I4; eauto.
Qed.

Lemma store_inv_update scr st os ob ty l a o o' :
  store_inv scr st os ob ->
  os !! ty = Some l -> a ∈ l ->
  st !! a = Some o ->
  SRObject.objectTypeName o' = SRObject.objectTypeName o ->
  SRObject.fm o' <= SRObject.lm o' ->
  store_inv scr (<[a := o']> st) os ob.
Proof.
  intros (I1 & I2 & I3 & I4) Hl Ha Ho Hty Hspan.
  assert (Hlt : (a < length st)%nat) by (eapply lookup_lt_Some; eauto).
  destruct (I1 _ _ _ Hl Ha) as (o0 & Ho0 & Hty0 & _).
  assert (o0 = o) by congruence. subst o0.
  split; [|split; [|split]]; auto.
  - intros ty' l' a' Hl' Ha'. destruct (decide (a = a')) as [<-|Hne].
    + destruct (I1 _ _ _ Hl' Ha') as (o1 & Ho1 & Hty1 & _).
      assert (o1 = o) by congruence. subst o1.
      exists o'. rewrite list_lookup_insert_eq by exact Hlt.
      split; [reflexivity|]. split; [congruence|exact Hspan].
    + rewrite list_lookup_insert_ne by exact Hne. eapply I1; eauto.
  - intros ty' l' a' Hl' Ha'. destruct (decide (a = a')) as [<-|Hne].
    + exfalso. destruct (I2 _ _ _ Hl' Ha') as (o1 & Ho1 & Hty1 & _).
      assert (o1 = o) by congruence. subst o1.
      assert (E : ty' = ty) by congruence. rewrite E in Hl'.
      exact (I4 _ _ _ _ Hl Hl' Ha Ha').
    + rewrite list_lookup_insert_ne by exact Hne. eapply I2; eauto.
Qed.

Lemma store_inv_finish scr st os ob ty stack' a o' :
  store_inv scr st os ob ->
  os !! ty = Some (stack' ++ [a]) ->
  SRObject.objectTypeName o' = ty ->
  finished_ok scr ty o' ->
  store_inv scr (<[a := o']> st) (<[ty := stack']> os)
    (<[ty := default [] (ob !! ty) ++ [a]]> ob).
Proof.
  intros (I1 & I2 & I3 & I4) Hl Hty Hfin.
  assert (Ha : a ∈ stack' ++ [a])
    by (apply elem_of_app; right; apply list_elem_of_singleton; reflexivity).
  destruct (I1 _ _ _ Hl Ha) as (o & Ho & Htyo & _).
  assert (Hlt : (a < length st)%nat) by (eapply lookup_lt_Some; eauto).
  pose proof (I3 _ _ Hl) as Hnd. apply NoDup_app in Hnd.
  destruct Hnd as (Hnd' & Hdisj & _).
  assert (Hnotin : a ∉ stack').
  { intros Hin. apply (Hdisj _ Hin). apply list_elem_of_singleton. reflexivity. }
  assert (Hsub : forall a', a' ∈ stack' -> a' ∈ stack' ++ [a])
    by (intros; apply elem_of_app; auto).
  assert (Hother : forall ty' l' a', ty <> ty' -> os !! ty' = Some l' -> a' ∈ l' -> a <> a').
  { intros ty' l' a' Hne Hl' Ha' <-.
    destruct (I1 _ _ _ Hl' Ha') as (o1 & Ho1 & Hty1 & _). congruence. }
  assert (Hotherfin : forall ty' l' a', ob !! ty' = Some l' -> a' ∈ l' -> a <> a').
  { intros ty' l' a' Hl' Ha' <-.
    destruct (I2 _ _ _ Hl' Ha') as (o1 & Ho1 & Hty1 & _).
    assert (E : ty' = ty) by congruence. rewrite E in Hl'.
    exact (I4 _ _ _ _ Hl Hl' Ha Ha'). }
  split; [|split; [|split]].
  - intros ty' l' a' Hl' Ha'. destruct (decide (ty = ty')) as [<-|Hne].
    + rewrite lookup_insert_eq in Hl'. injection Hl' as <-.
      rewrite list_lookup_insert_ne by (intros ->; auto).
      eapply I1; eauto.
    + rewrite lookup_insert_ne in Hl' by exact Hne.
      rewrite list_lookup_insert_ne by eauto.
      eapply I1; eauto.
  - intros ty' l' a' Hl' Ha'. destruct (decide (ty = ty')) as [<-|Hne].
    + rewrite lookup_insert_eq in Hl'. injection Hl' as <-.
      apply elem_of_app in Ha'. destruct Ha' as [Ha'|Ha'].
      * destruct (ob !! ty) as [l0|] eqn:E; simpl in Ha'; [|inversion Ha'].
        rewrite list_lookup_insert_ne by eauto.
        eapply I2; eauto.
      * apply list_elem_of_singleton in Ha'. subst a'.
        exists o'. rewrite list_lookup_insert_eq by exact Hlt. auto.
    + rewrite lookup_insert_ne in Hl' by exact Hne.
      rewrite list_lookup_insert_ne by eauto.
      eapply I2; eauto.
  - intros ty' l' Hl'. destruct (decide (ty = ty')) as [<-|Hne].
    + rewrite lookup_insert_eq in Hl'. injection Hl' as <-. exact Hnd'.
    + rewrite lookup_insert_ne in Hl' by exact Hne. eapply I3; eauto.
  - intros ty' l1 l2 a' Hl1 Hl2 Ha'. destruct (decide (ty = ty')) as [<-|Hne].
    + rewrite lookup_insert_eq in Hl1, Hl2. injection Hl1 as <-. injection Hl2 as <-.
      apply not_elem_of_app. split.
      * destruct (ob !! ty) as [l0|] eqn:E; simpl; [|intros Hin; inversion Hin].
        eapply I4; eauto.
      * intros Hin. apply list_elem_of_singleton in Hin. subst a'. auto.
    + rewrite lookup_insert_ne in Hl1, Hl2 by exact Hne. eapply I4; eauto.
Qed.

Lemma createObject_handler_inv h ty :
  handler_inv h ->
  handler_inv (fst (createObject h ty))
  /\ objstacks (fst (createObject h ty)) !! ty
     = Some (default [] (objstacks h !! ty) ++ [snd (createObject h ty)])
  /\ snd (createObject h ty) = length (store h).
Proof.
  intros Hinv. unfold handler_inv, createObject. simpl.
  split; [|split; [apply lookup_insert_eq | reflexivity]].
  apply store_inv_create; [exact Hinv | reflexivity | simpl; lia].
Qed.

Lemma handleElementStart_attribute_handler_inv tag attributes a ty l h entry h' :
  handleElementStart_attribute lower tag attributes a h entry = Ok h' ->
  handler_inv h /\ objstacks h !! ty = Some l /\ a ∈ l ->
  handler_inv h' /\ objstacks h' !! ty = Some l /\ a ∈ l.
Proof.
  unfold handleElementStart_attribute. intros H (Hinv & Hl & Ha).
  destruct (dict_get (fst entry) attributes) as [value|].
  - inv_ok H. subst h'.
    split; [|simpl; auto].
    unfold handler_inv. simpl.
    pose proof Hinv as (I1 & _).
    destruct (I1 _ _ _ Hl Ha) as (o & Ho & _ & Hspan).
    assert (o = r1) by congruence. subst o.
    apply (store_inv_update _ _ _ _ ty l a r1); auto.
    + destruct (featureTypeIsSTRING lower r0); reflexivity.
    + destruct (featureTypeIsSTRING lower r0); exact Hspan.
  - inv_ok H. subst h'. auto.
Qed.

Lemma handleElementStart_handler_inv h tag attributes h' :
  handleElementStart lower h tag attributes = Ok h' ->
  handler_inv h -> handler_inv h'.
Proof.
  unfold handleElementStart. intros H Hinv.
  destruct (dict_get tag (handled h)) as [he|]; [|inv_ok H; subst h'; exact Hinv].
  destruct (createObject_handler_inv h (he_objectTypeName he) Hinv) as (Hinv' & Hstack & Hfresh).
  destruct (he_attributes he) as [attrs|]; [|inv_ok H; subst h'; exact Hinv'].
  assert (Ha : snd (createObject h (he_objectTypeName he))
               ∈ default [] (objstacks h !! he_objectTypeName he)
                 ++ [snd (createObject h (he_objectTypeName he))])
    by (apply elem_of_app; right; apply list_elem_of_singleton; reflexivity).
  apply (for_each_invariant
           (fun h0 => handler_inv h0
                      /\ objstacks h0 !! he_objectTypeName he
                         = Some (default [] (objstacks h !! he_objectTypeName he)
                                 ++ [snd (createObject h (he_objectTypeName he))])
                      /\ snd (createObject h (he_objectTypeName he))
                         ∈ default [] (objstacks h !! he_objectTypeName he)
                           ++ [snd (createObject h (he_objectTypeName he))])) in H.
  - apply H.
  - intros s entry s' Hs Hbody.
    eapply handleElementStart_attribute_handler_inv; eauto.
  - auto.
Qed.

(** What a successful [handleElementEnd] of a handled element does. *)
Lemma handleElementEnd_Ok h tag he h' :
  dict_get tag (handled h) = Some he ->
  handleElementEnd h tag = Ok h' ->
  exists stack' a obj obj',
    objstacks h !! he_objectTypeName he = Some (stack' ++ [a])
    /\ store h !! a = Some obj
    /\ SRObject.objectTypeName obj' = he_objectTypeName he
    /\ SRObject.fm obj' = SRObject.fm obj
    /\ SRObject.fm obj' <= SRObject.lm obj'
    /\ default 1 (he_minimumMonadLength he) <= SRObject.getMonadLength obj'
    /\ store h' = <[a := obj']> (store h)
    /\ objstacks h' = <[he_objectTypeName he := stack']> (objstacks h)
    /\ objects h'
       = <[he_objectTypeName he := default [] (objects h !! he_objectTypeName he) ++ [a]]>
           (objects h)
    /\ script h' = script h.
Proof.
  intros Hhe H. unfold handleElementEnd in H. rewrite Hhe in H.
  inv_ok H. destruct r as [h1 a]. cbn [fst snd] in *.
  apply endObject_Ok in Hr.
  destruct Hr as (stack & stack' & obj & Hstack & Hpop & Hobj & Hty & Hst & Hos & Hob
                  & _ & Hm & _ & _ & Hs & _).
  assert (Hlt : (a < length (store h))%nat) by (eapply lookup_lt_Some; eauto).
  rewrite Hst, list_lookup_insert_eq in Hr0 by exact Hlt.
  injection Hr0 as <-.
  destruct (pad_to_minimum _ _ _ _) as [[obj' c']|] eqn:Hpad; [|discriminate H].
  inv_ok H. subst h'.
  apply pad_to_minimum_Some in Hpad.
  destruct Hpad as (_ & HL & Hfm & Hty' & _ & Hvalid & _).
  apply list_pop_Some in Hpop. subst stack.
  exists stack', a, obj, obj'. simpl.
  rewrite Hst, list_insert_insert_eq.
  repeat split; auto.
  - rewrite Hty'. exact Hty.
  - apply Hvalid. apply setLastMonad_valid.
Qed.

Lemma handleElementEnd_handler_inv h tag h' :
  handleElementEnd h tag = Ok h' -> handler_inv h -> handler_inv h'.
Proof.
  intros H Hinv.
  destruct (dict_get tag (handled h)) as [he|] eqn:Hhe.
  - destruct (handleElementEnd_Ok _ _ _ _ Hhe H)
      as (stack' & a & obj & obj' & Hstack & Hobj & Hty & _ & Hspan & HL
          & Hst & Hos & Hob & Hs).
    unfold handler_inv. rewrite Hst, Hos, Hob, Hs.
    apply store_inv_finish; auto.
    split; [exact Hspan|]. exists tag, he. auto.
  - unfold handleElementEnd in H. rewrite Hhe in H. inv_ok H. subst h'. exact Hinv.
Qed.

Lemma handleChars_handler_inv h chars tag b h' :
  handleChars tokenize_string h chars tag b = Ok h' ->
  handler_inv h -> handler_inv h'.
Proof.
  intros H Hinv. apply handleChars_frame in H.
  destruct H as (Hs & Hst & Hos & Hob & _).
  unfold handler_inv. rewrite Hs, Hst, Hos, Hob. exact Hinv.
Qed.

Lemma startElement_handler_inv h tag attributes h' :
  startElement tokenize_string lower h tag attributes = Ok h' ->
  handler_inv h -> handler_inv h'.
Proof.
  unfold startElement. cbv zeta. rewrite handleChars_start. simpl.
  intros H Hinv. repeat case_decide.
  - inv_ok H. subst h'. exact Hinv.
  - inv_ok H. subst h'. exact Hinv.
  - eapply handleElementStart_handler_inv; eauto.
  - inv_ok H. subst h'. exact Hinv.
  - discriminate H.
Qed.

Lemma endElement_handler_inv h tag h' :
  endElement tokenize_string h tag = Ok h' ->
  handler_inv h -> handler_inv h'.
Proof.
  unfold endElement. cbv zeta. intros H Hinv. inv_ok H. subst h'.
  apply handleChars_handler_inv in Hr; [|exact Hinv].
  repeat case_decide; inv_ok Hr0; subst; auto.
  - eapply handleElementEnd_handler_inv in Hr0; eauto.
  - discriminate Hr0.
Qed.

Lemma handle_event_handler_inv h ev h' :
  handle_event tokenize_string lower h ev = Ok h' ->
  handler_inv h -> handler_inv h'.
Proof.
  destruct ev as [tag attributes|data|tag]; simpl; intros H Hinv.
  - eapply startElement_handler_inv; eauto.
  - inv_ok H. subst h'. exact Hinv.
  - eapply endElement_handler_inv; eauto.
Qed.

Lemma parse_handler_inv h events h' :
  parse tokenize_string lower h events = Ok h' ->
  handler_inv h -> handler_inv h'.
Proof.
  unfold parse, startDocument, endDocument. simpl. intros H Hinv.
  inv_ok H. subst h'. revert Hr.
  apply (for_each_invariant handler_inv); [|exact Hinv].
  intros s ev s' Hs Hev. eapply handle_event_handler_inv; eauto.
Qed.

Lemma init_handler_inv scr first_monad first_id_d h :
  init scr first_monad first_id_d = Ok h -> handler_inv h.
Proof.
  intros H. apply init_Ok in H.
  destruct H as (_ & _ & _ & _ & _ & Hst & Hos & Hob & _).
  unfold handler_inv. rewrite Hst, Hos, Hob.
  repeat split; intros ty l; intros; rewrite lookup_empty in *; discriminate.
Qed.

(** *** The exceptions of the model are never raised *)

Lemma bind_Error {A B : Type} (r : result A) (k : A -> result B) (e : exn) :
  (r ≫= k) = Error e -> r = Error e \/ exists a, r = Ok a /\ k a = Error e.
Proof. destruct r as [a|e']; simpl; [eauto | intros [= ->]; auto]. Qed.

Lemma of_option_Error {A : Type} (o : option A) (e e' : exn) :
  of_option o e = Error e' -> o = None /\ e' = e.
Proof. destruct o; simpl; [discriminate | intros [= ->]; auto]. Qed.

Lemma for_each_Error {A S : Type} (I : S -> Prop) (Q : exn -> Prop)
    (body : S -> A -> result S) (l : list A) :
  (forall s a s', I s -> body s a = Ok s' -> I s') ->
  (forall s a e, I s -> body s a = Error e -> Q e) ->
  forall s e, I s -> for_each body l s = Error e -> Q e.
Proof.
  intros Hok Herr. induction l as [|a l IH]; intros s e Hs H; simpl in H.
  - discriminate H.
  - apply bind_Error in H. destruct H as [H|(s' & H1 & H2)]; eauto.
Qed.

Lemma createToken_Error h ty p s x e :
  createToken h ty p s x = Error e -> e = KeyError ty.
Proof.
  unfold createToken. cbv zeta. simpl. intros H.
  apply bind_Error in H. destruct H as [H|(l & _ & H)]; [|discriminate H].
  apply of_option_Error in H. tauto.
Qed.

Lemma handleChars_Error h chars tag b e :
  handleChars tokenize_string h chars tag b = Error e -> python_exn e.
Proof.
  unfold handleChars. intros H.
  match type of H with (if ?c then _ else _) = _ => destruct c end;
    [|discriminate H].
  apply bind_Error in H. destruct H as [H|(he & _ & H)].
  { apply of_option_Error in H. destruct H as [_ ->]. split; discriminate. }
  apply bind_Error in H. destruct H as [H|(ty & _ & H)].
  { apply of_option_Error in H. destruct H as [_ ->]. split; discriminate. }
  revert H. apply (for_each_Error (fun _ => True)); auto.
  intros s t e' _ Hbody. apply createToken_Error in Hbody. subst e'.
  split; discriminate.
Qed.

Lemma getFeatureType_Error h tag attribute e :
  getFeatureType h tag attribute = Error e -> python_exn e.
Proof.
  unfold getFeatureType. intros H.
  repeat (apply bind_Error in H;
          destruct H as [H|(? & _ & H)];
          [apply of_option_Error in H; destruct H as [_ ->]; split; discriminate|]).
  discriminate H.
Qed.

Lemma handleElementStart_attribute_Error tag attributes a ty l h entry e :
  handleElementStart_attribute lower tag attributes a h entry = Error e ->
  handler_inv h /\ objstacks h !! ty = Some l /\ a ∈ l ->
  python_exn e.
Proof.
  unfold handleElementStart_attribute. intros H (Hinv & Hl & Ha).
  destruct (dict_get (fst entry) attributes) as [value|]; [|discriminate H].
  apply bind_Error in H. destruct H as [H|(name & _ & H)].
  { apply of_option_Error in H. destruct H as [_ ->]. split; discriminate. }
  apply bind_Error in H. destruct H as [H|(ft & _ & H)].
  { eapply getFeatureType_Error; eauto. }
  apply bind_Error in H. destruct H as [H|(obj & _ & H)]; [|discriminate H].
  exfalso. apply of_option_Error in H. destruct H as [H _].
  destruct Hinv as (I1 & _). destruct (I1 _ _ _ Hl Ha) as (o & Ho & _). congruence.
Qed.

Lemma handleElementStart_Error h tag attributes e :
  handleElementStart lower h tag attributes = Error e ->
  handler_inv h -> python_exn e.
Proof.
  unfold handleElementStart. intros H Hinv.
  destruct (dict_get tag (handled h)) as [he|]; [|discriminate H].
  destruct (createObject_handler_inv h (he_objectTypeName he) Hinv) as (Hinv' & Hstack & _).
  destruct (he_attributes he) as [attrs|]; [|discriminate H].
  assert (Ha : snd (createObject h (he_objectTypeName he))
               ∈ default [] (objstacks h !! he_objectTypeName he)
                 ++ [snd (createObject h (he_objectTypeName he))])
    by (apply elem_of_app; right; apply list_elem_of_singleton; reflexivity).
  revert H.
  apply (for_each_Error
           (fun h0 => handler_inv h0
                      /\ objstacks h0 !! he_objectTypeName he
                         = Some (default [] (objstacks h !! he_objectTypeName he)
                                 ++ [snd (createObject h (he_objectTypeName he))])
                      /\ snd (createObject h (he_objectTypeName he))
                         ∈ default [] (objstacks h !! he_objectTypeName he)
                           ++ [snd (createObject h (he_objectTypeName he))])).
  - intros s entry s' Hs Hbody.
    eapply handleElementStart_attribute_handler_inv; eauto.
  - intros s entry e' Hs Hbody.
    eapply handleElementStart_attribute_Error; eauto.
  - auto.
Qed.

(** Closing an object fails only when its type has no stack ([KeyError])
    or an empty one ([IndexError]). *)
Lemma handleElementEnd_Error h tag e :
  handleElementEnd h tag = Error e ->
  handler_inv h ->
  exists he,
    dict_get tag (handled h) = Some he
    /\ ((objstacks h !! he_objectTypeName he = None
         /\ e = KeyError (he_objectTypeName he))
        \/ (objstacks h !! he_objectTypeName he = Some [] /\ e = IndexError)).
Proof.
  unfold handleElementEnd. intros H Hinv.
  destruct (dict_get tag (handled h)) as [he|] eqn:Hhe; [|discriminate H].
  exists he. split; [reflexivity|].
  destruct (objstacks h !! he_objectTypeName he) as [stack|] eqn:Hstack.
  - destruct (list_pop stack) as [[stack' a]|] eqn:Hpop.
    + exfalso. pose proof (list_pop_Some _ _ _ Hpop) as ->.
      destruct Hinv as (I1 & _).
      assert (Ha : a ∈ stack' ++ [a])
        by (apply elem_of_app; right; apply list_elem_of_singleton; reflexivity).
      destruct (I1 _ _ _ Hstack Ha) as (obj & Hobj & Hty & _).
      destruct (handleElementEnd_closes h tag he _ _ _ _ Hhe Hstack Hpop Hobj Hty)
        as (h' & obj' & Hok & _).
      unfold handleElementEnd in Hok. rewrite Hhe in Hok.
      rewrite Hok in H. discriminate H.
    + right. apply list_pop_None in Hpop. subst stack.
      unfold endObject in H. rewrite Hstack in H. simpl in H.
      injection H as <-. auto.
  - left. unfold endObject in H. rewrite Hstack in H. simpl in H.
    injection H as <-. auto.
Qed.

Lemma startElement_Error h tag attributes e :
  startElement tokenize_string lower h tag attributes = Error e ->
  handler_inv h -> python_exn e.
Proof.
  unfold startElement. cbv zeta. rewrite handleChars_start. simpl.
  intros H Hinv. repeat case_decide; try discriminate H.
  - eapply handleElementStart_Error; eauto.
  - injection H as <-. split; discriminate.
Qed.

Lemma endElement_Error h tag e :
  endElement tokenize_string h tag = Error e ->
  handler_inv h -> python_exn e.
Proof.
  unfold endElement. cbv zeta. intros H Hinv.
  apply bind_Error in H. destruct H as [H|(h1 & H1 & H)].
  { eapply handleChars_Error; eauto. }
  apply handleChars_handler_inv in H1; [|exact Hinv].
  apply bind_Error in H. destruct H as [H|(h2 & _ & H)].
  - repeat case_decide; try discriminate H.
    + apply handleElementEnd_Error in H; [|exact H1].
      destruct H as (he & _ & [[_ ->]|[_ ->]]); split; discriminate.
    + injection H as <-. split; discriminate.
  - apply bind_Error in H. destruct H as [H|(? & _ & H)]; [|discriminate H].
    apply of_option_Error in H. destruct H as [_ ->]. split; discriminate.
Qed.

(** A run from a new handler raises Python's exceptions only: no address
    dangles and every loop terminates. *)
Lemma parse_Error scr first_monad first_id_d h events e :
  init scr first_monad first_id_d = Ok h ->
  parse tokenize_string lower h events = Error e ->
  python_exn e.
Proof.
  intros Hinit H. apply init_handler_inv in Hinit.
  unfold parse, startDocument, endDocument in H. simpl in H.
  apply bind_Error in H. destruct H as [H|(h' & _ & H)]; [|discriminate H].
  revert H. apply (for_each_Error handler_inv); [| |exact Hinit].
  - intros s ev s' Hs Hev. eapply handle_event_handler_inv; eauto.
  - intros s ev e' Hs Hev. destruct ev as [tag attributes|data|tag]; simpl in Hev.
    + eapply startElement_Error; eauto.
    + discriminate Hev.
    + eapply endElement_Error; eauto.
Qed.

(** *** The counters *)

Lemma counters_le_refl h : counters_le h h.
Proof. unfold counters_le. repeat split; auto; lia. Qed.

Lemma counters_le_trans h1 h2 h3 :
  counters_le h1 h2 -> counters_le h2 h3 -> counters_le h1 h3.
Proof.
  unfold counters_le. intros (Hs1 & Hm1 & Hi1 & Hd1) (Hs2 & Hm2 & Hi2 & Hd2).
  rewrite Hs1 in *. repeat split; try congruence; try lia.
  intros Hn. specialize (Hd1 Hn). specialize (Hd2 Hn). lia.
Qed.

Lemma docindex_increment_le_1 h ty : docindex_increment h ty <= 1.
Proof. unfold docindex_increment. lia. Qed.

Lemma docindex_increment_nonneg h ty :
  nonneg_increments (script h) -> 0 <= docindex_increment h ty.
Proof.
  intros Hn. unfold docindex_increment, dict_get_default.
  destruct (dict_get ty _) as [z|] eqn:E; [specialize (Hn _ _ E)|]; lia.
Qed.

Lemma createToken_counters_le h ty p s x h' :
  createToken h ty p s x = Ok h' -> counters_le h h'.
Proof.
  intros H. apply createToken_Ok in H.
  destruct H as (l & _ & _ & Hm & Hi & Hd & Hs & _).
  unfold counters_le. repeat split; auto; try lia.
  intros Hn. pose proof (docindex_increment_nonneg h ty Hn). lia.
Qed.

Lemma handleChars_counters_le h chars tag b h' :
  handleChars tokenize_string h chars tag b = Ok h' -> counters_le h h'.
Proof.
  unfold handleChars. intros H.
  match type of H with (if ?c then _ else _) = _ => destruct c end.
  - inv_ok H. revert H.
    apply (for_each_preserves counters_le);
      eauto using counters_le_refl, counters_le_trans.
    intros s t s' Hbody. eapply createToken_counters_le; eauto.
  - inv_ok H. subst h'. apply counters_le_refl.
Qed.

Lemma handleElementStart_attribute_docindex tag attributes a h entry h' :
  handleElementStart_attribute lower tag attributes a h entry = Ok h' ->
  curdocindex h' = curdocindex h.
Proof.
  unfold handleElementStart_attribute. intros H.
  destruct (dict_get (fst entry) attributes); inv_ok H; subst h'; reflexivity.
Qed.

(** Opening an object takes one document index. *)
Lemma handleElementStart_docindex h tag attributes he h' :
  dict_get tag (handled h) = Some he ->
  handleElementStart lower h tag attributes = Ok h' ->
  curdocindex h' = curdocindex h + 1.
Proof.
  unfold handleElementStart. intros Hhe H. rewrite Hhe in H.
  destruct (he_attributes he) as [attrs|].
  - apply (for_each_invariant (fun h0 => curdocindex h0 = curdocindex h + 1)) in H;
      [exact H| |reflexivity].
    intros s entry s' Hs Hbody.
    apply handleElementStart_attribute_docindex in Hbody. congruence.
  - inv_ok H. subst h'. reflexivity.
Qed.

Lemma handleElementStart_counters_le h tag attributes h' :
  handleElementStart lower h tag attributes = Ok h' -> counters_le h h'.
Proof.
  intros H. pose proof (handleElementStart_same_text_state _ _ _ _ H)
    as (_ & Hm & Hi & Hs & _).
  unfold counters_le. repeat split; auto; try lia.
  intros _. destruct (dict_get tag (handled h)) as [he|] eqn:Hhe.
  - rewrite (handleElementStart_docindex _ _ _ _ _ Hhe H). lia.
  - unfold handleElementStart in H. rewrite Hhe in H. inv_ok H. subst h'. lia.
Qed.

Lemma handleElementEnd_counters_le h tag h' :
  handleElementEnd h tag = Ok h' -> counters_le h h'.
Proof.
  intros H. apply handleElementEnd_frame in H.
  destruct H as (_ & Hi & Hs & Hd & Hm & _).
  unfold counters_le. repeat split; auto; lia.
Qed.

Lemma startElement_counters_le h tag attributes h' :
  startElement tokenize_string lower h tag attributes = Ok h' -> counters_le h h'.
Proof.
  unfold startElement. cbv zeta. rewrite handleChars_start. simpl.
  intros H. repeat case_decide.
  - inv_ok H. subst h'. unfold counters_le. simpl. repeat split; auto; lia.
  - inv_ok H. subst h'. unfold counters_le. simpl. repeat split; auto; lia.
  - apply handleElementStart_counters_le in H. exact H.
  - inv_ok H. subst h'. unfold counters_le. simpl. repeat split; auto; lia.
  - discriminate H.
Qed.

Lemma endElement_counters_le h tag h' :
  endElement tokenize_string h tag = Ok h' -> counters_le h h'.
Proof.
  unfold endElement. cbv zeta. intros H. inv_ok H. subst h'.
  apply handleChars_counters_le in Hr.
  assert (Hr' : counters_le h r) by exact Hr.
  apply counters_le_trans with r; [exact Hr'|].
  apply counters_le_trans with r0;
    [|unfold counters_le; simpl; repeat split; auto; lia].
  repeat case_decide; inv_ok Hr0; subst;
    try (unfold counters_le; simpl; repeat split; auto; lia).
  - apply handleElementEnd_counters_le in Hr0. exact Hr0.
  - discriminate Hr0.
Qed.

(** The monad counter and the identifier counter never go down; neither
    does the document index when no configured pre-increment is negative. *)
Lemma parse_counters_le h events h' :
  parse tokenize_string lower h events = Ok h' -> counters_le h h'.
Proof.
  unfold parse, startDocument, endDocument. simpl. intros H. inv_ok H. subst h'.
  revert Hr. apply (for_each_preserves counters_le);
    eauto using counters_le_refl, counters_le_trans.
  intros s ev s' Hev. destruct ev as [tag attributes|data|tag]; simpl in Hev.
  - eapply startElement_counters_le; eauto.
  - inv_ok Hev. subst s'. unfold counters_le. simpl. repeat split; auto; lia.
  - eapply endElement_counters_le; eauto.
Qed.

(** *** Nixed subtrees *)

(** While a nixed element is open, a start tag opens no object. *)
Lemma startElement_nixed h tag attributes h' :
  nixing_stack h <> [] ->
  startElement tokenize_string lower h tag attributes = Ok h' ->
  store h' = store h /\ objstacks h' = objstacks h /\ objects h' = objects h
  /\ nixing_stack h' <> [].
Proof.
  unfold startElement. cbv zeta. rewrite handleChars_start. simpl.
  intros Hnix H. repeat case_decide.
  - inv_ok H. subst h'. simpl. repeat split; auto.
    destruct (nixing_stack h); discriminate.
  - inv_ok H. subst h'. simpl. auto.
  - exfalso. destruct (nixing_stack h); [congruence|]. simpl in *. lia.
  - exfalso. destruct (nixing_stack h); [congruence|]. simpl in *. lia.
  - discriminate H.
Qed.

(** While a nixed element is open, an end tag closes no object, but the
    text before it is still passed to [handleChars] as a terminal flush. *)
Lemma endElement_nixed h tag h' :
  nixing_stack h <> [] ->
  endElement tokenize_string h tag = Ok h' ->
  store h' = store h /\ objstacks h' = objstacks h /\ objects h' = objects h
  /\ exists h1,
       handleChars tokenize_string (set_charstack [] h) (concat (charstack h)) tag true
       = Ok h1
       /\ tokens h' = tokens h1.
Proof.
  unfold endElement. cbv zeta. intros Hnix H. inv_ok H. subst h'.
  pose proof (handleChars_frame _ _ _ _ _ Hr) as (_ & Hst & Hos & Hob & _ & Hn & _).
  simpl in Hst, Hos, Hob, Hn.
  assert (Hlen : length (nixing_stack r) <> 0%nat).
  { rewrite Hn. destruct (nixing_stack h); [congruence|]. simpl. lia. }
  repeat case_decide; inv_ok Hr0; subst; simpl; try tauto; eauto 10.
Qed.

(** *** Finished objects *)

(** In every state of a run, every finished object has a span that is not
    empty and not shorter than the minimum of a handled element of its
    type. *)
Lemma finished_objects_ok scr first_monad first_id_d h0 events h :
  init scr first_monad first_id_d = Ok h0 ->
  parse tokenize_string lower h0 events = Ok h ->
  forall ty l a, objects h !! ty = Some l -> a ∈ l ->
    exists o, store h !! a = Some o
              /\ SRObject.objectTypeName o = ty
              /\ finished_ok scr ty o.
Proof.
  intros Hinit Hparse ty l a Hl Ha.
  pose proof (init_handler_inv _ _ _ _ Hinit) as Hinv0.
  pose proof (parse_handler_inv _ _ _ Hparse Hinv0) as (_ & I2 & _).
  pose proof (parse_counters_le _ _ _ Hparse) as (Hs & _).
  apply init_Ok in Hinit. destruct Hinit as (_ & _ & _ & Hscr & _).
  rewrite Hs, Hscr in I2. eapply I2; eauto.
Qed.

End HandlerProperties.

(** ** The scenarios and the claims about them *)

(** C1 (the code departs from the specification): with [note] nixed and [p]
    handled with token type [word], the run on
    [<p>A<note>B<p>C</p></note>D</p>] finishes one object, the outer [p], but
    mints a token for the text [C] of the nixed subtree: the tokens are [C]
    and [D], at monads 1 and 2. *)
Theorem nixed_subtree_text_is_tokenized :
  match run script_p_note 1 0 doc_nixing with
  | Ok h =>
      map Token.surface (tokens_of h (u "word")) = [u "C"; u "D"]
      /\ map Token.monad (tokens_of h (u "word")) = [1; 2]
      /\ map (fun o => (SRObject.fm o, SRObject.lm o)) (objects_of h (u "p")) = [(1, 2)]
  | Error _ => False
  end.
Proof. vm_compute. repeat split. Qed.

(** C2 (the code departs from the specification): with the pre-increment -1
    configured for [word], the run on [<p>Hi there</p>] gives the object and
    both tokens the same document index 1; with -3 the document indexes of the
    two tokens are -1 and -3, and the counter ends below its start. *)
Theorem document_index_goes_back_on_negative_increment :
  match run (script_p_increment (-1)) 1 0 doc_hi_there with
  | Ok h =>
      map Token.xmlindex (tokens_of h (u "word")) = [1; 1]
      /\ map SRObject.nonStringFeatures (objects_of h (u "p"))
         = [[(u "xmlindex", PyInt 1)]]
  | Error _ => False
  end
  /\ match run (script_p_increment (-3)) 1 0 doc_hi_there with
     | Ok h =>
         map Token.xmlindex (tokens_of h (u "word")) = [-1; -3]
         /\ curdocindex h = -2
     | Error _ => False
     end.
Proof. vm_compute. repeat split. Qed.

(** C5 (the code departs from the specification): with the pre-increment 5
    configured for [word], the run on [<p>Hi there</p>] advances the document
    index by 1 before each token, as with the pre-increment 1: the tokens get
    the document indexes 3 and 5, where the specification has 7 and 13. *)
Theorem larger_pre_increment_is_not_honored :
  match run (script_p_increment 5) 1 0 doc_hi_there,
        run (script_p_increment 1) 1 0 doc_hi_there with
  | Ok h5, Ok h1 =>
      map Token.xmlindex (tokens_of h5 (u "word")) = [3; 5]
      /\ map Token.xmlindex (tokens_of h1 (u "word")) = [3; 5]
      /\ curdocindex h5 = 6
  | _, _ => False
  end.
Proof. vm_compute. repeat split. Qed.

(** C8 (the code departs from the specification): for the script with token
    type [word] and element [p] whose attribute [id] is declared as the string
    feature [ident], the schema has no entry for [word]; it has an entry for
    each key of the global parameters instead, and the entry of [p] has the
    document index as its only feature. *)
Theorem schema_misses_token_types_and_declared_features :
  init script_p_attribute 1 0 = Ok attribute_handler
  /\ schema attribute_handler !! u "word" = None
  /\ dom (schema attribute_handler)
     = {[ u "docIndexFeatureName"; u "docIndexIncrementBeforeObjectType";
          u "tokenObjectTypeNameList"; u "p" ]}
  /\ ObjectTypeDescription.features <$> schema attribute_handler !! u "p"
     = Some {[ u "xmlindex" := u "INTEGER" ]}
  /\ ObjectTypeDescription.features
       <$> schema attribute_handler !! u "tokenObjectTypeNameList"
     = Some (list_to_map
               [ (u "pre", u "STRING FROM SET");
                 (u "surface", u "STRING WITH INDEX");
                 (u "post", u "STRING FROM SET");
                 (u "surface_lowcase", u "STRING WITH INDEX");
                 (u "xmlindex", u "INTEGER") ]).
Proof.
  split; [vm_compute; reflexivity|].
  split; [vm_compute; reflexivity|].
  split; [apply (bool_decide_unpack _); vm_compute; exact I|].
  split; apply (bool_decide_unpack _); vm_compute; exact I.
Qed.

(** C3: closing a handled element whose object is on top of its type's
    stack succeeds; the object is moved to the finished collection with its
    first monad unchanged, its last monad not before the first, and a span of
    at least the configured minimum length [L] (1 when none is configured).
    When the span was shorter than [L], it is padded to exactly [L] and the
    monad counter ends right after it; otherwise the counter is unchanged.
    In every run, every finished object has its last monad not before its
    first and a span of at least the minimum length of a handled element of
    its type.  A [milestone] element with minimum length 3, opened and closed
    at once from monad 1, gives one object spanning the monads 1 to 3, no
    token, and the monad counter 4. *)
Theorem handleElementEnd_pads_to_minimum
    (tokenize_string : pystr -> list (pystr * pystr * pystr)) (lower : pystr -> pystr)
    h tag he stack stack' a obj :
  dict_get tag (handled h) = Some he ->
  objstacks h !! he_objectTypeName he = Some stack ->
  list_pop stack = Some (stack', a) ->
  store h !! a = Some obj ->
  SRObject.objectTypeName obj = he_objectTypeName he ->
  (let L := default 1 (he_minimumMonadLength he) in
   let ended := SRObject.setLastMonad obj (curmonad h - 1) in
   exists h' obj',
     handleElementEnd h tag = Ok h'
     /\ objstacks h' !! he_objectTypeName he = Some stack'
     /\ objects h' !! he_objectTypeName he
        = Some (default [] (objects h !! he_objectTypeName he) ++ [a])
     /\ store h' !! a = Some obj'
     /\ L <= SRObject.getMonadLength obj'
     /\ SRObject.fm obj' = SRObject.fm obj
     /\ SRObject.fm obj' <= SRObject.lm obj'
     /\ curmonad h <= curmonad h'
     /\ (L <= SRObject.getMonadLength ended ->
           obj' = ended /\ curmonad h' = curmonad h)
     /\ (SRObject.getMonadLength ended < L ->
           SRObject.getMonadLength obj' = L
           /\ curmonad h' = SRObject.fm obj + L))
  /\ (forall scr first_monad first_id_d h0 events hf,
        init scr first_monad first_id_d = Ok h0 ->
        parse tokenize_string lower h0 events = Ok hf ->
        forall ty l a', objects hf !! ty = Some l -> a' ∈ l ->
          exists o, store hf !! a' = Some o
                    /\ SRObject.objectTypeName o = ty
                    /\ finished_ok scr ty o)
  /\ match run script_milestone 1 0 doc_milestone with
     | Ok hm =>
         map (fun o => (SRObject.fm o, SRObject.lm o, SRObject.getMonadLength o))
           (objects_of hm (u "milestone")) = [(1, 3, 3)]
         /\ tokens_of hm (u "word") = []
         /\ curmonad hm = 4
     | Error _ => False
     end.
Proof.
  intros Hhe Hstack Hpop Hobj Hty. split; [|split].
  - apply (handleElementEnd_closes h tag he stack stack' a obj); assumption.
  - intros scr first_monad first_id_d h0 events hf Hinit Hparse.
    eapply finished_objects_ok; eauto.
  - vm_compute. repeat split.
Qed.

(** The theorem at the [milestone] element, open and about to be
    closed. *)
Lemma handleElementEnd_pads_to_minimum_witness :
  dict_get (u "milestone") (handled milestone_open) = Some milestone_element
  /\ objstacks milestone_open !! u "milestone" = Some [0%nat]
  /\ list_pop [0%nat] = Some ([], 0%nat)
  /\ store milestone_open !! 0%nat = Some milestone_object
  /\ SRObject.objectTypeName milestone_object = u "milestone"
  /\ exists h' obj',
       handleElementEnd milestone_open (u "milestone") = Ok h'
       /\ store h' !! 0%nat = Some obj'
       /\ 3 <= SRObject.getMonadLength obj'
       /\ SRObject.fm obj' <= SRObject.lm obj'.
Proof.
  assert (H1 : dict_get (u "milestone") (handled milestone_open) = Some milestone_element)
    by (vm_compute; reflexivity).
  assert (H2 : objstacks milestone_open !! he_objectTypeName milestone_element
               = Some [0%nat])
    by (vm_compute; reflexivity).
  assert (H3 : list_pop [0%nat] = Some ([], 0%nat)) by reflexivity.
  assert (H4 : store milestone_open !! 0%nat = Some milestone_object)
    by (vm_compute; reflexivity).
  assert (H5 : SRObject.objectTypeName milestone_object
               = he_objectTypeName milestone_element)
    by reflexivity.
  repeat (split; [assumption|]).
  destruct (handleElementEnd_pads_to_minimum tokenize_ws lower_ascii
              milestone_open (u "milestone") milestone_element [0%nat] [] 0%nat
              milestone_object H1 H2 H3 H4 H5)
    as [(h' & obj' & Hend & _ & _ & Hst & HL & _ & Hv & _) _].
  exists h', obj'. repeat split; assumption.
Defined.


(** ** Path names *)

Lemma split_on_nonempty sep s : split_on sep s <> [].
Proof.
  destruct s as [|c s]; simpl; [discriminate|].
  destruct (c =? sep)%N; [discriminate|].
  destruct (split_on sep s); discriminate.
Qed.

Lemma split_on_no_sep sep s : sep ∉ s -> split_on sep s = [s].
Proof.
  induction s as [|c s IH]; intros H; [reflexivity|].
  simpl. apply not_elem_of_cons in H. destruct H as [Hc Hs].
  destruct (N.eqb_spec c sep) as [->|_]; [congruence|].
  rewrite (IH Hs). reflexivity.
Qed.

Lemma split_on_app sep a b :
  sep ∉ a -> split_on sep (a ++ sep :: b) = a :: split_on sep b.
Proof.
  induction a as [|c a IH]; intros H; simpl.
  - rewrite N.eqb_refl. reflexivity.
  - apply not_elem_of_cons in H. destruct H as [Hc Ha].
    destruct (N.eqb_spec c sep) as [->|_]; [congruence|].
    rewrite (IH Ha). reflexivity.
Qed.

(** The pieces have no separator in them. *)
Lemma split_on_pieces sep s : Forall (fun w => sep ∉ w) (split_on sep s).
Proof.
  induction s as [|c s IH]; simpl.
  - constructor; [apply not_elem_of_nil | constructor].
  - destruct (N.eqb_spec c sep) as [->|Hne].
    + constructor; [apply not_elem_of_nil | exact IH].
    + destruct (split_on sep s) as [|w ws]; [repeat constructor|].
      * intros H. apply list_elem_of_singleton in H. congruence.
      * inversion IH as [|? ? Hw Hws]; subst. constructor; [|exact Hws].
        apply not_elem_of_cons. split; [congruence | exact Hw].
Qed.

Lemma join_split_on sep s : join [sep] (split_on sep s) = s.
Proof.
  induction s as [|c s IH]; [reflexivity|].
  simpl. destruct (N.eqb_spec c sep) as [->|Hne].
  - pose proof (split_on_nonempty sep s) as Hne.
    destruct (split_on sep s) as [|w ws] eqn:E; [congruence|].
    simpl. simpl in IH. rewrite IH. reflexivity.
  - destruct (split_on sep s) as [|w ws] eqn:E; simpl in *.
    + congruence.
    + destruct ws as [|w' ws]; simpl in *; congruence.
Qed.

Lemma split_on_app_sep sep a b :
  split_on sep (a ++ sep :: b) = split_on sep a ++ split_on sep b.
Proof.
  induction a as [|c a IH]; simpl.
  - rewrite N.eqb_refl. reflexivity.
  - rewrite IH. destruct (c =? sep)%N; [reflexivity|].
    pose proof (split_on_nonempty sep a) as Hne.
    destruct (split_on sep a) as [|w ws]; [congruence | reflexivity].
Qed.

Lemma last_split_on_app sep a b :
  last (split_on sep (a ++ sep :: b)) = last (split_on sep b).
Proof.
  rewrite split_on_app_sep, last_app.
  pose proof (split_on_nonempty sep b) as Hne.
  destruct (split_on sep b) as [|w ws] using rev_ind; [congruence|].
  rewrite last_snoc. reflexivity.
Qed.

Lemma removelast_split_on sep a b :
  sep ∉ b -> removelast (split_on sep (a ++ sep :: b)) = split_on sep a.
Proof.
  intros Hb. rewrite split_on_app_sep, (split_on_no_sep _ _ Hb).
  apply removelast_last.
Qed.

Lemma contains_single a s : contains [a] s = true <-> a ∈ s.
Proof.
  induction s as [|c s IH]; simpl.
  - split; [discriminate | intros H; inversion H].
  - rewrite andb_true_r, orb_true_iff, IH, elem_of_cons, N.eqb_eq. tauto.
Qed.

Lemma contains_dot s : contains (u ".") s = true <-> 46%N ∈ s.
Proof. apply (contains_single 46). Qed.

Lemma last_split_on_no_sep sep s : sep ∉ default [] (last (split_on sep s)).
Proof.
  pose proof (split_on_pieces sep s) as H.
  destruct (last (split_on sep s)) as [w|] eqn:E; simpl; [|apply not_elem_of_nil].
  rewrite Forall_forall in H. apply H.
  apply last_Some in E. destruct E as [l' ->].
  apply elem_of_app. right. apply list_elem_of_singleton. reflexivity.
Qed.

Lemma elem_of_join sep c (l : list pystr) :
  c ∈ join sep l -> c ∈ sep \/ exists w, w ∈ l /\ c ∈ w.
Proof.
  induction l as [|w ws IH]; simpl; [intros H; inversion H|].
  destruct ws as [|w' ws].
  - intros H. right. exists w. split; [left | exact H].
  - intros H. apply elem_of_app in H. destruct H as [H|H].
    + right. exists w. split; [left | exact H].
    + apply elem_of_app in H. destruct H as [H|H]; [auto|].
      destruct (IH H) as [?|(w0 & Hw0 & Hc)]; [auto|].
      right. exists w0. split; [right; exact Hw0 | exact Hc].
Qed.

Lemma elem_of_removelast {A : Type} (x : A) (l : list A) :
  x ∈ removelast l -> x ∈ l.
Proof.
  induction l as [|y l IH]; simpl; [auto|].
  destruct l as [|z l]; [intros H; inversion H|].
  intros H. apply elem_of_cons in H. destruct H as [->|H]; [left|right; auto].
Qed.

Lemma getBasename_no_slash (pathname : pystr) :
  47%N ∉ getBasename pathname.
Proof.
  unfold getBasename. cbv zeta.
  pose proof (last_split_on_no_sep 47 pathname) as Hfile.
  destruct (contains (u ".") _); [|exact Hfile].
  intros H. apply elem_of_join in H. destruct H as [H|(w & Hw & Hc)].
  - apply list_elem_of_singleton in H. discriminate H.
  - apply elem_of_removelast in Hw.
    assert (Hsub : forall w0 s, w0 ∈ split_on 46 s -> forall c, c ∈ w0 -> c ∈ s).
    { intros w0 s Hw0 c Hc0. rewrite <- (join_split_on 46 s).
      clear -Hw0 Hc0. induction (split_on 46 s) as [|w1 ws IH]; [inversion Hw0|].
      simpl. destruct ws as [|w2 ws].
      - apply list_elem_of_singleton in Hw0. subst. exact Hc0.
      - apply elem_of_cons in Hw0. destruct Hw0 as [->|Hw0].
        + apply elem_of_app. left. exact Hc0.
        + apply elem_of_app. right. apply elem_of_cons. right. auto. }
    exact (Hfile (Hsub _ _ Hw _ Hc)).
Qed.

(** X1: [getBasename] never returns a text with a slash in it. *)
Theorem getBasename_has_no_slash (pathname : pystr) :
  Forall (fun c => c <> 47%N) (getBasename pathname).
Proof.
  apply Forall_forall. intros c Hc ->. exact (getBasename_no_slash pathname Hc).
Qed.

(** X2: [getBasename] drops the directories and the last extension: of a
    path that ends in a name, a dot and an extension (neither with a slash,
    the extension without a dot) it returns the name, whatever precedes; a
    last component without a dot is returned as it is. *)
Theorem getBasename_strips_directory_and_extension (dir stem ext name : pystr) :
  47%N ∉ stem -> 47%N ∉ ext -> 46%N ∉ ext ->
  47%N ∉ name -> 46%N ∉ name ->
  getBasename (dir ++ 47%N :: stem ++ 46%N :: ext) = stem
  /\ getBasename (stem ++ 46%N :: ext) = stem
  /\ getBasename (dir ++ 47%N :: name) = name
  /\ getBasename name = name.
Proof.
  intros Hs He Hd Hn Hnd.
  assert (Hfile : 47%N ∉ stem ++ 46%N :: ext).
  { intros H. apply elem_of_app in H. destruct H as [H|H]; [auto|].
    apply elem_of_cons in H. destruct H as [H|H]; [discriminate H | auto]. }
  assert (Hdot : contains (u ".") (stem ++ 46%N :: ext) = true).
  { apply contains_dot. apply elem_of_app. right. left. }
  assert (Hnodot : contains (u ".") name = false).
  { destruct (contains (u ".") name) eqn:E; [|reflexivity].
    apply contains_dot in E. contradiction. }
  assert (Hjoin : join (u ".") (removelast (split_on 46 (stem ++ 46%N :: ext))) = stem).
  { rewrite (removelast_split_on _ _ _ Hd). apply (join_split_on 46). }
  unfold getBasename. cbv zeta.
  rewrite !last_split_on_app, (split_on_no_sep _ _ Hfile), (split_on_no_sep _ _ Hn).
  simpl last. simpl default. rewrite Hdot, Hnodot. auto.
Qed.

(** The theorem at [corpus/vol.1/text.tar.gz] and [corpus/README]. *)
Lemma getBasename_strips_directory_and_extension_witness :
  (47%N ∉ u "text.tar") /\ (47%N ∉ u "gz") /\ (46%N ∉ u "gz")
  /\ (47%N ∉ u "README") /\ (46%N ∉ u "README")
  /\ getBasename (u "corpus/vol.1/text.tar.gz") = u "text.tar"
  /\ getBasename (u "corpus/README") = u "README".
Proof.
  assert (H1 : 47%N ∉ u "text.tar") by (apply (bool_decide_unpack _); vm_compute; exact I).
  assert (H2 : 47%N ∉ u "gz") by (apply (bool_decide_unpack _); vm_compute; exact I).
  assert (H3 : 46%N ∉ u "gz") by (apply (bool_decide_unpack _); vm_compute; exact I).
  assert (H4 : 47%N ∉ u "README") by (apply (bool_decide_unpack _); vm_compute; exact I).
  assert (H5 : 46%N ∉ u "README") by (apply (bool_decide_unpack _); vm_compute; exact I).
  repeat (split; [assumption|]).
  pose proof (getBasename_strips_directory_and_extension
                (u "corpus/vol.1") (u "text.tar") (u "gz") (u "README") H1 H2 H3 H4 H5)
    as (K1 & _).
  pose proof (getBasename_strips_directory_and_extension
                (u "corpus") (u "text.tar") (u "gz") (u "README") H1 H2 H3 H4 H5)
    as (_ & _ & K3 & _).
  split; [exact K1 | exact K3].
Defined.

(** ** XML entities *)

Lemma replace_char_app old new s1 s2 :
  replace_char old new (s1 ++ s2) = replace_char old new s1 ++ replace_char old new s2.
Proof. unfold replace_char. apply flat_map_app. Qed.

Lemma mangle_XML_entities_app s1 s2 :
  mangle_XML_entities (s1 ++ s2) = mangle_XML_entities s1 ++ mangle_XML_entities s2.
Proof. unfold mangle_XML_entities. cbv zeta. now rewrite !replace_char_app. Qed.

Lemma mangle_XML_entities_single c : mangle_XML_entities [c] = xml_entity c.
Proof.
  unfold mangle_XML_entities, xml_entity, replace_char. cbv zeta. simpl flat_map at 4.
  destruct (N.eqb_spec c 38) as [->|H1]; [reflexivity|].
  simpl flat_map at 3.
  destruct (N.eqb_spec c 60) as [->|H2]; [reflexivity|].
  simpl flat_map at 2.
  destruct (N.eqb_spec c 62) as [->|H3]; [reflexivity|].
  simpl.
  destruct (N.eqb_spec c 34) as [->|H4]; reflexivity.
Qed.

Lemma mangle_XML_entities_cons c s :
  mangle_XML_entities (c :: s) = xml_entity c ++ mangle_XML_entities s.
Proof.
  change (c :: s) with ([c] ++ s).
  now rewrite mangle_XML_entities_app, mangle_XML_entities_single.
Qed.

Lemma xml_entity_cases c :
  (c = 38%N /\ xml_entity c = u "&amp;")
  \/ (c = 60%N /\ xml_entity c = u "&lt;")
  \/ (c = 62%N /\ xml_entity c = u "&gt;")
  \/ (c = 34%N /\ xml_entity c = u "&quot;")
  \/ (c <> 38%N /\ c <> 60%N /\ c <> 62%N /\ c <> 34%N /\ xml_entity c = [c]).
Proof.
  unfold xml_entity.
  destruct (N.eqb_spec c 38) as [->|H1]; [auto|].
  destruct (N.eqb_spec c 60) as [->|H2]; [auto|].
  destruct (N.eqb_spec c 62) as [->|H3]; [auto 6|].
  destruct (N.eqb_spec c 34) as [->|H4]; [auto 6|].
  auto 10.
Qed.

(** The entities form a prefix code. *)
Lemma xml_entity_prefix_free c1 c2 r1 r2 :
  xml_entity c1 ++ r1 = xml_entity c2 ++ r2 -> c1 = c2 /\ r1 = r2.
Proof.
  destruct (xml_entity_cases c1)
    as [[-> ->]|[[-> ->]|[[-> ->]|[[-> ->]|(A1 & A2 & A3 & A4 & ->)]]]];
  destruct (xml_entity_cases c2)
    as [[-> ->]|[[-> ->]|[[-> ->]|[[-> ->]|(B1 & B2 & B3 & B4 & ->)]]]];
  intros K; vm_compute in K; simplify_eq; auto.
Qed.

(** X3: [mangle_XML_entities] writes the ampersand, the angle brackets and
    the double quote as their entities and copies every other character (the
    four passes do not touch each other's output); its result has no angle
    bracket and no double quote; and different texts give different
    results. *)
Theorem mangle_XML_entities_escapes :
  (forall s, mangle_XML_entities s = flat_map xml_entity s)
  /\ (forall s c, c ∈ mangle_XML_entities s -> c <> 60%N /\ c <> 62%N /\ c <> 34%N)
  /\ (forall s1 s2, mangle_XML_entities s1 = mangle_XML_entities s2 -> s1 = s2).
Proof.
  split; [|split].
  - induction s as [|c s IH]; [reflexivity|].
    rewrite mangle_XML_entities_cons, IH. reflexivity.
  - induction s as [|c0 s IH]; intros c Hc; [inversion Hc|].
    rewrite mangle_XML_entities_cons in Hc. apply elem_of_app in Hc.
    destruct Hc as [Hc|Hc]; [|auto].
    destruct (xml_entity_cases c0)
      as [[-> E]|[[-> E]|[[-> E]|[[-> E]|(?&?&?&?& E)]]]]; rewrite E in Hc.
    1-4: vm_compute in Hc;
         repeat (apply elem_of_cons in Hc; destruct Hc as [->|Hc];
                 [repeat split; discriminate|]);
         inversion Hc.
    apply list_elem_of_singleton in Hc. subst c. auto.
  - induction s1 as [|c1 s1 IH]; intros [|c2 s2] H.
    + reflexivity.
    + rewrite mangle_XML_entities_cons in H. exfalso.
      destruct (xml_entity_cases c2)
        as [[-> E]|[[-> E]|[[-> E]|[[-> E]|(?&?&?&?& E)]]]];
        rewrite E in H; discriminate H.
    + rewrite mangle_XML_entities_cons in H. exfalso.
      destruct (xml_entity_cases c1)
        as [[-> E]|[[-> E]|[[-> E]|[[-> E]|(?&?&?&?& E)]]]];
        rewrite E in H; discriminate H.
    + rewrite !mangle_XML_entities_cons in H.
      apply xml_entity_prefix_free in H. destruct H as [-> H].
      f_equal. apply IH. exact H.
Qed.

(** ** The alphabet of mangled strings *)

Lemma escape_byte_alphabet c :
  Forall (fun b => (Byte.to_N b < 128)%N /\ b <> x0a /\ b <> x09) (escape_byte c).
Proof.
  destruct c; vm_compute; repeat constructor; discriminate.
Qed.

Lemma escape_byte_quote c i :
  escape_byte c !! i = Some x22 ->
  exists j, i = S j /\ escape_byte c !! j = Some x5c.
Proof.
  destruct c; destruct i as [|[|[|[|i]]]]; vm_compute; intros H;
    try discriminate H; exists 0%nat; split; reflexivity.
Qed.

Lemma escape_byte_length c : (1 <= length (escape_byte c))%nat.
Proof. destruct c; vm_compute; lia. Qed.

(** X4: a mangled string is plain ASCII without a raw newline or tab, and
    every double quote in it comes right after a backslash. *)
Theorem mangleMQLString_alphabet (ustr : pystr) (m : list byte) :
  mangleMQLString ustr = Ok m ->
  Forall (fun b => (Byte.to_N b < 128)%N /\ b <> x0a /\ b <> x09) m
  /\ forall i, m !! i = Some x22 -> exists j, i = S j /\ m !! j = Some x5c.
Proof.
  unfold mangleMQLString. intros H. inv_ok H. subst m.
  rewrite mangle_bytes_flat_map. clear Hr. induction r as [|c b IH]; cbn [flat_map].
  - split; [constructor | intros i Hi; discriminate Hi].
  - destruct IH as [IH1 IH2]. split.
    + apply Forall_app. split; [apply escape_byte_alphabet | exact IH1].
    + intros i Hi.
      destruct (decide (i < length (escape_byte c))%nat) as [Hlt|Hge].
      * rewrite lookup_app_l in Hi by exact Hlt.
        destruct (escape_byte_quote _ _ Hi) as (j & -> & Hj).
        exists j. split; [reflexivity|].
        rewrite lookup_app_l by lia. exact Hj.
      * rewrite lookup_app_r in Hi by lia.
        destruct (IH2 _ Hi) as (j & Hij & Hj).
        exists (length (escape_byte c) + j)%nat. split; [lia|].
        rewrite lookup_app_r by lia.
        replace (length (escape_byte c) + j - length (escape_byte c))%nat with j by lia.
        exact Hj.
Qed.

(** The theorem at a text with a quote, a newline and a letter with an
    accent. *)
Lemma mangleMQLString_alphabet_witness :
  mangleMQLString [34; 10; 233]%N
  = Ok [x5c; x22; x5c; x6e; x5c; x78; x63; x33; x5c; x78; x61; x39]
  /\ Forall (fun b => (Byte.to_N b < 128)%N /\ b <> x0a /\ b <> x09)
       [x5c; x22; x5c; x6e; x5c; x78; x63; x33; x5c; x78; x61; x39].
Proof.
  assert (H : mangleMQLString [34; 10; 233]%N
              = Ok [x5c; x22; x5c; x6e; x5c; x78; x63; x33; x5c; x78; x61; x39])
    by reflexivity.
  split; [exact H|].
  pose proof (mangleMQLString_alphabet _ _ H) as [K _]. exact K.
Defined.

(** ** The handler: classification of the elements *)

Lemma static_eq_refl h : static_eq h h.
Proof. unfold static_eq. tauto. Qed.

Lemma static_eq_trans h1 h2 h3 :
  static_eq h1 h2 -> static_eq h2 h3 -> static_eq h1 h3.
Proof. unfold static_eq. intuition congruence. Qed.

Lemma createToken_static_eq h ty p s x h' :
  createToken h ty p s x = Ok h' -> static_eq h h'.
Proof.
  unfold createToken. cbv zeta. simpl. intros H. inv_ok H. subst h'.
  unfold static_eq. simpl. tauto.
Qed.

Lemma createObject_static_eq h ty : static_eq h (fst (createObject h ty)).
Proof. unfold static_eq. simpl. tauto. Qed.

Lemma endObject_static_eq h ty h' a :
  endObject h ty = Ok (h', a) -> static_eq h h'.
Proof.
  unfold endObject, deref. intros H. inv_ok H. simpl in Hr1.
  case_decide; [|discriminate H]. inv_ok H. injection H as <- <-.
  unfold static_eq. simpl. tauto.
Qed.

Lemma handleElementEnd_static_eq h tag h' :
  handleElementEnd h tag = Ok h' -> static_eq h h'.
Proof.
  unfold handleElementEnd. intros H.
  destruct (dict_get tag (handled h)) as [he|].
  - inv_ok H. destruct r as [h1 a]. cbn [fst snd] in *.
    apply endObject_static_eq in Hr.
    destruct (pad_to_minimum _ _ _ _) as [[obj' c']|]; [|discriminate H].
    inv_ok H. subst h'. unfold static_eq in *. simpl. tauto.
  - inv_ok H. subst h'. apply static_eq_refl.
Qed.

Lemma fold_union_elem_of (l : list pystr) : forall (s : gset pystr) (x : pystr),
  x ∈ fold_left (fun s e => s ∪ {[e]}) l s <-> x ∈ s \/ x ∈ l.
Proof.
  induction l as [|e l IH]; intros s x; simpl.
  - rewrite elem_of_nil. tauto.
  - rewrite IH, elem_of_union, elem_of_singleton, elem_of_cons. tauto.
Qed.

Lemma fold_setdefault_nil_lookup (l : list pystr) :
  forall (d : gmap pystr (list Token.t)) (ty : pystr),
    is_Some (fold_left (fun d k => setdefault_nil k d) l d !! ty)
    <-> is_Some (d !! ty) \/ ty ∈ l.
Proof.
  induction l as [|k l IH]; intros d ty; simpl.
  - rewrite elem_of_nil. tauto.
  - rewrite IH, elem_of_cons. unfold setdefault_nil.
    destruct (d !! k) eqn:E.
    + split; [tauto|]. intros [H|[Hk|H]]; auto. subst. left. eauto.
    + destruct (decide (k = ty)) as [->|Hne].
      * rewrite lookup_insert_eq. split; [auto|]. intros _. left. eauto.
      * rewrite lookup_insert_ne by exact Hne. split; [tauto|].
        intros [H|[Hk|H]]; auto. congruence.
Qed.



Lemma makeSchema_token_empty st key :
  makeSchema_token [] st key = Error AssertionError.
Proof. reflexivity. Qed.






(** In a new handler the three classification sets hold exactly the
    elements that the script lists as nixed, ignored and handled, a token
    collection exists exactly for the listed token types, and the name of the
    document index feature is the script's. *)
Lemma init_classification
    (scr : Script) (first_monad first_id_d : Z) (h : Handler) :
  init scr first_monad first_id_d = Ok h ->
  (forall tag, tag ∈ nixed_elements h <-> tag ∈ script_nixed_elements scr)
  /\ (forall tag, tag ∈ ignored_elements h <-> tag ∈ script_ignored_elements scr)
  /\ (forall tag, tag ∈ handled_elements h
                  <-> is_Some (dict_get tag (script_handled_elements scr)))
  /\ token_types_inv h
  /\ docIndexFeatureName h = gp_docIndexFeatureName (global_parameters scr).
Proof.
  unfold init. intros H. apply makeSchema_Ok in H. destruct H as [s ->].
  unfold token_types_inv. simpl.
  split; [|split; [|split; [|split]]].
  - intros tag. rewrite fold_union_elem_of, elem_of_empty. tauto.
  - intros tag. rewrite fold_union_elem_of, elem_of_empty. tauto.
  - intros tag. rewrite fold_union_elem_of, elem_of_empty.
    unfold handled, dict_keys. simpl.
    induction (script_handled_elements scr) as [|[k v] l IH]; simpl.
    + rewrite elem_of_nil. split; [tauto|]. intros [? H]. discriminate H.
    + rewrite elem_of_cons. case_decide.
      * split; [eauto|]. intros _. right. left. assumption.
      * rewrite <- IH. tauto.
  - intros ty. rewrite fold_setdefault_nil_lookup, lookup_empty.
    split; [|auto]. intros [[? H]|H]; [discriminate H|exact H].
  - reflexivity.
Qed.

(** X6: in a new handler the three classification sets hold exactly the
    elements that the script lists as nixed, ignored and handled, a token
    collection exists exactly for the listed token types, and the name of the
    document index feature is the script's. *)
Theorem init_classifies_as_the_script_says
    (scr : Script) (first_monad first_id_d : Z) (h : Handler) :
  init scr first_monad first_id_d = Ok h ->
  (forall tag, tag ∈ nixed_elements h <-> tag ∈ script_nixed_elements scr)
  /\ (forall tag, tag ∈ ignored_elements h <-> tag ∈ script_ignored_elements scr)
  /\ (forall tag, tag ∈ handled_elements h
                  <-> is_Some (dict_get tag (script_handled_elements scr)))
  /\ token_types_inv h
  /\ docIndexFeatureName h = gp_docIndexFeatureName (global_parameters scr).
Proof. apply init_classification. Qed.

Lemma init_classifies_as_the_script_says_witness :
  (forall tag, tag ∈ nixed_elements fresh_handler
               <-> tag ∈ script_nixed_elements script_p_note)
  /\ token_types_inv fresh_handler.
Proof.
  pose proof (init_classifies_as_the_script_says script_p_note 1 0 fresh_handler)
    as K.
  destruct K as (K1 & _ & _ & K4 & _); [vm_compute; reflexivity|].
  split; [exact K1|exact K4].
Defined.

(** ** The handler: tags *)

Implicit Types (tokenize_string : pystr -> list (pystr * pystr * pystr)).
Implicit Types (lower : pystr -> pystr).

Lemma handleChars_static_eq tokenize_string h chars tag b h' :
  handleChars tokenize_string h chars tag b = Ok h' -> static_eq h h'.
Proof.
  unfold handleChars. intros H.
  match type of H with (if ?c then _ else _) = _ => destruct c end.
  - inv_ok H. revert H.
    apply (for_each_preserves static_eq);
      eauto using static_eq_refl, static_eq_trans, createToken_static_eq.
  - inv_ok H. subst h'. apply static_eq_refl.
Qed.

Lemma handleElementStart_attribute_static_eq lower tag attributes a h entry h' :
  handleElementStart_attribute lower tag attributes a h entry = Ok h' ->
  static_eq h h'.
Proof.
  unfold handleElementStart_attribute. intros H.
  destruct (dict_get (fst entry) attributes).
  - inv_ok H. subst h'. unfold static_eq. simpl. tauto.
  - inv_ok H. subst h'. apply static_eq_refl.
Qed.

Lemma handleElementStart_static_eq lower h tag attributes h' :
  handleElementStart lower h tag attributes = Ok h' -> static_eq h h'.
Proof.
  unfold handleElementStart. intros H.
  destruct (dict_get tag (handled h)) as [he|].
  - destruct (he_attributes he) as [attrs|].
    + apply static_eq_trans with (fst (createObject h (he_objectTypeName he)));
        [apply createObject_static_eq|].
      revert H. apply for_each_preserves;
        eauto using static_eq_refl, static_eq_trans,
          handleElementStart_attribute_static_eq.
    + inv_ok H. subst h'. apply createObject_static_eq.
  - inv_ok H. subst h'. apply static_eq_refl.
Qed.

(** What a start tag does to the two stacks. *)
Lemma startElement_stacks tokenize_string lower h tag attributes h' :
  startElement tokenize_string lower h tag attributes = Ok h' ->
  static_eq h h'
  /\ elemstack h' = elemstack h ++ [tag]
  /\ nixing_stack h'
     = (if decide (tag ∈ nixed_elements h) then nixing_stack h ++ [tag]
        else nixing_stack h).
Proof.
  unfold startElement. cbv zeta. rewrite handleChars_start. simpl.
  intros H.
  repeat case_decide; try discriminate H;
    try (inv_ok H; subst h'; unfold static_eq; simpl; tauto).
  pose proof (handleElementStart_static_eq _ _ _ _ _ H) as Hs.
  apply (handleElementStart_same_text_state tokenize_string) in H.
  destruct H as (_ & _ & _ & _ & _ & He & Hn & _). simpl in *.
  unfold static_eq in *. simpl in *. tauto.
Qed.

(** What an end tag does to the two stacks: it pops the element stack,
    whatever is on top of it. *)
Lemma endElement_stacks tokenize_string h tag h' :
  endElement tokenize_string h tag = Ok h' ->
  static_eq h h'
  /\ (exists top, elemstack h = elemstack h' ++ [top])
  /\ nixing_stack h'
     = (if decide (list_top (nixing_stack h) = Some tag)
        then default [] (fst <$> list_pop (nixing_stack h))
        else nixing_stack h).
Proof.
  unfold endElement. cbv zeta. intros H. inv_ok H. subst h'.
  pose proof (handleChars_static_eq _ _ _ _ _ _ Hr) as Hs.
  pose proof (handleChars_frame _ id _ _ _ _ _ Hr) as (_ & _ & _ & _ & He & Hn & _).
  simpl in He, Hn. destruct r1 as [stack' top]. apply list_pop_Some in Hr1.
  assert (Hstat : static_eq h r0 /\ elemstack r0 = elemstack h
                  /\ nixing_stack r0
                     = (if decide (list_top (nixing_stack h) = Some tag)
                        then default [] (fst <$> list_pop (nixing_stack h))
                        else nixing_stack h)).
  { rewrite <- Hn.
    assert (Hlen : forall l : list pystr, list_top l = Some tag -> length l <> 0%nat)
      by (intros [|? ?]; simpl; [discriminate|lia]).
    repeat case_decide; try (exfalso; tauto);
      try (exfalso; eapply Hlen; eauto; fail);
      try (inv_ok Hr0; subst r0; unfold static_eq in *; simpl in *; tauto).
    - pose proof (handleElementEnd_static_eq _ _ _ Hr0) as Hs'.
      apply (handleElementEnd_frame tokenize_string id) in Hr0.
      destruct Hr0 as (_ & _ & _ & _ & _ & He' & Hn' & _).
      split; [eapply static_eq_trans; eauto|]. split; congruence.
    - discriminate Hr0. }
  destruct Hstat as (S1 & S2 & S3). simpl.
  split; [unfold static_eq in *; simpl; tauto|]. split; [|exact S3].
  exists top. congruence.
Qed.

(** *** Unknown tags *)

Lemma handleChars_KeyError tokenize_string h chars tag b e :
  handleChars tokenize_string h chars tag b = Error e -> exists k, e = KeyError k.
Proof.
  unfold handleChars. intros H.
  match type of H with (if ?c then _ else _) = _ => destruct c end;
    [|discriminate H].
  apply bind_Error in H. destruct H as [H|(he & _ & H)].
  { apply of_option_Error in H. destruct H as [_ ->]. eauto. }
  apply bind_Error in H. destruct H as [H|(ty & _ & H)].
  { apply of_option_Error in H. destruct H as [_ ->]. eauto. }
  revert H.
  apply (for_each_Error (fun _ => True) (fun e => exists k, e = KeyError k)); auto.
  intros s t e' _ Hbody. apply (createToken_Error tokenize_string id) in Hbody. eauto.
Qed.

Lemma getFeatureType_not_unknown h tag attribute e :
  getFeatureType h tag attribute = Error e -> ~ unknown_tag_exn e.
Proof.
  unfold getFeatureType. intros H.
  repeat (apply bind_Error in H;
          destruct H as [H|(? & _ & H)];
          [apply of_option_Error in H; destruct H as [_ ->]; simpl; tauto|]).
  discriminate H.
Qed.

Lemma handleElementStart_not_unknown lower h tag attributes e :
  handleElementStart lower h tag attributes = Error e -> ~ unknown_tag_exn e.
Proof.
  unfold handleElementStart. intros H.
  destruct (dict_get tag (handled h)) as [he|]; [|discriminate H].
  destruct (he_attributes he) as [attrs|]; [|discriminate H].
  revert H.
  apply (for_each_Error (fun _ => True) (fun e => ~ unknown_tag_exn e)); auto.
  intros s entry e' _ Hbody. unfold handleElementStart_attribute in Hbody.
  destruct (dict_get (fst entry) attributes) as [value|]; [|discriminate Hbody].
  apply bind_Error in Hbody. destruct Hbody as [H|(name & _ & H)].
  { apply of_option_Error in H. destruct H as [_ ->]. simpl. tauto. }
  apply bind_Error in H. destruct H as [H|(ft & _ & H)].
  { eapply getFeatureType_not_unknown; eauto. }
  apply bind_Error in H. destruct H as [H|(obj & _ & H)]; [|discriminate H].
  apply of_option_Error in H. destruct H as [_ ->]. simpl. tauto.
Qed.

Lemma endObject_not_unknown h ty e :
  endObject h ty = Error e -> ~ unknown_tag_exn e.
Proof.
  unfold endObject, deref. intros H.
  apply bind_Error in H. destruct H as [H|(stack & _ & H)].
  { apply of_option_Error in H. destruct H as [_ ->]. simpl. tauto. }
  apply bind_Error in H. destruct H as [H|(popped & _ & H)].
  { apply of_option_Error in H. destruct H as [_ ->]. simpl. tauto. }
  apply bind_Error in H. destruct H as [H|(obj & _ & H)].
  { apply of_option_Error in H. destruct H as [_ ->]. simpl. tauto. }
  case_decide; [discriminate H|]. injection H as <-. simpl. tauto.
Qed.

Lemma handleElementEnd_not_unknown h tag e :
  handleElementEnd h tag = Error e -> ~ unknown_tag_exn e.
Proof.
  unfold handleElementEnd, deref. intros H.
  destruct (dict_get tag (handled h)) as [he|]; [|discriminate H].
  apply bind_Error in H. destruct H as [H|(ended & _ & H)].
  { eapply endObject_not_unknown; eauto. }
  apply bind_Error in H. destruct H as [H|(obj & _ & H)].
  { apply of_option_Error in H. destruct H as [_ ->]. simpl. tauto. }
  destruct (pad_to_minimum _ _ _ _) as [[obj' c']|]; [discriminate H|].
  injection H as <-. simpl. tauto.
Qed.

(** X7: a start tag raises the unknown-start-tag error exactly when the
    element is classified neither as nixed, handled nor ignored and no nixed
    element is open; the error names the tag.  Inside a nixed element every tag
    is accepted. *)
Theorem startElement_raises_unknown_start_tag_iff
    tokenize_string lower (h : Handler) (tag : pystr) (attributes : dict pystr)
    (tag' : pystr) :
  startElement tokenize_string lower h tag attributes = Error (UnknownStartTag tag')
  <-> (tag' = tag /\ (tag ∉ nixed_elements h) /\ nixing_stack h = []
       /\ (tag ∉ handled_elements h) /\ (tag ∉ ignored_elements h)).
Proof.
  unfold startElement. cbv zeta. rewrite handleChars_start. simpl.
  split.
  - intros H.
    repeat case_decide; try discriminate H;
      try (apply handleElementStart_not_unknown in H; simpl in H; tauto).
    injection H as <-. repeat split; auto.
    destruct (nixing_stack h); [reflexivity|]. simpl in *. lia.
  - intros (-> & H1 & H2 & H3 & H4). rewrite H2. simpl.
    repeat case_decide; try reflexivity; try tauto; simpl in *; lia.
Qed.

(** X8: an end tag never compares its name with the element stack: when
    it returns it has popped whatever element was on top, so with an empty
    element stack it cannot return.  It raises the unknown-end-tag error only
    for its own tag, and only when no nixed element is open and the element is
    neither handled nor ignored; for an element that the script does not
    describe these conditions are also sufficient. *)
Theorem endElement_pops_or_raises tokenize_string (h : Handler) (tag : pystr) :
  (forall h', endElement tokenize_string h tag = Ok h' ->
     exists top, elemstack h = elemstack h' ++ [top])
  /\ (elemstack h = [] -> exists e, endElement tokenize_string h tag = Error e)
  /\ (forall tag', endElement tokenize_string h tag = Error (UnknownEndTag tag') ->
        tag' = tag /\ nixing_stack h = []
        /\ (tag ∉ handled_elements h) /\ (tag ∉ ignored_elements h))
  /\ (dict_get tag (handled h) = None -> nixing_stack h = [] ->
      (tag ∉ handled_elements h) -> (tag ∉ ignored_elements h) ->
      endElement tokenize_string h tag = Error (UnknownEndTag tag)).
Proof.
  split; [|split; [|split]].
  - intros h' H. apply endElement_stacks in H. tauto.
  - intros He. destruct (endElement tokenize_string h tag) as [h'|e] eqn:E; [|eauto].
    apply endElement_stacks in E. destruct E as (_ & [top E] & _).
    rewrite He in E. destruct (elemstack h'); discriminate E.
  - intros tag' H. unfold endElement in H. cbv zeta in H.
    apply bind_Error in H. destruct H as [H|(h1 & H1 & H)].
    { apply handleChars_KeyError in H. destruct H as [k H]. discriminate H. }
    pose proof (handleChars_static_eq _ _ _ _ _ _ H1) as (_ & Hi & Hh & _).
    pose proof (handleChars_frame _ id _ _ _ _ _ H1) as (_ & _ & _ & _ & _ & Hn & _).
    simpl in Hi, Hh, Hn.
    apply bind_Error in H. destruct H as [H|(h2 & _ & H)].
    + repeat case_decide; try discriminate H;
        try (apply handleElementEnd_not_unknown in H; simpl in H; tauto).
      injection H as <-. rewrite <- Hn, <- Hh, <- Hi. repeat split; auto.
      destruct (nixing_stack h1); [reflexivity|]. simpl in *. lia.
    + apply bind_Error in H. destruct H as [H|(? & _ & H)]; [|discriminate H].
      apply of_option_Error in H. destruct H as [_ H]. discriminate H.
  - intros Hd Hn Hh Hi. unfold endElement, handleChars. cbv zeta. simpl.
    unfold handled in *. simpl. rewrite Hd. simpl. rewrite Hn. simpl.
    repeat case_decide; try reflexivity; try tauto; simpl in *; lia.
Qed.

(** *** Well-nested events *)

Lemma nesting_cons (st : list pystr) (ev : event) (rest : list event) :
  nesting st (ev :: rest)
  = match nesting st [ev] with
    | Some st' => nesting st' rest
    | None => None
    end.
Proof.
  destruct ev as [tag attributes|data|tag]; simpl; try reflexivity.
  destruct (list_pop st) as [[st' top]|]; [|reflexivity].
  case_decide; reflexivity.
Qed.

Lemma list_pop_app {A : Type} (base l l' : list A) (x : A) :
  list_pop l = Some (l', x) -> list_pop (base ++ l) = Some (base ++ l', x).
Proof.
  intros H. apply list_pop_Some in H. subst l.
  rewrite app_assoc. apply list_pop_snoc.
Qed.

Lemma nesting_app (base : list pystr) (events : list event) :
  forall rel rel', nesting rel events = Some rel' ->
                   nesting (base ++ rel) events = Some (base ++ rel').
Proof.
  induction events as [|ev rest IH]; intros rel rel' H; simpl in *.
  - congruence.
  - destruct ev as [tag attributes|data|tag].
    + rewrite <- app_assoc. apply IH, H.
    + apply IH, H.
    + destruct (list_pop rel) as [[st' top]|] eqn:Hpop; [|discriminate H].
      rewrite (list_pop_app base _ _ _ Hpop).
      case_decide; [apply IH, H|discriminate H].
Qed.

Lemma list_top_snoc {A : Type} (l : list A) (x : A) : list_top (l ++ [x]) = Some x.
Proof. unfold list_top. rewrite list_pop_snoc. reflexivity. Qed.

Lemma list_top_elem_of {A : Type} (l : list A) (x : A) :
  list_top l = Some x -> x ∈ l.
Proof.
  unfold list_top. destruct (list_pop l) as [[l' y]|] eqn:E; [|discriminate].
  simpl. intros [= ->]. apply list_pop_Some in E. subst l.
  apply elem_of_app. right. apply list_elem_of_singleton. reflexivity.
Qed.

(** One event of a well-nested document. *)
Lemma handle_event_nesting tokenize_string lower h ev h' st' :
  nesting (elemstack h) [ev] = Some st' ->
  nixing_stack h = filter (.∈ nixed_elements h) (elemstack h) ->
  handle_event tokenize_string lower h ev = Ok h' ->
  static_eq h h' /\ elemstack h' = st'
  /\ nixing_stack h' = filter (.∈ nixed_elements h) st'.
Proof.
  intros Hnest Hnix Hev.
  destruct ev as [tag attributes|data|tag]; simpl in Hnest, Hev.
  - injection Hnest as <-. apply startElement_stacks in Hev.
    destruct Hev as (Hs & He & Hn). split; [exact Hs|]. split; [exact He|].
    rewrite Hn, filter_app, Hnix. case_decide.
    + rewrite filter_cons_True by assumption. reflexivity.
    + rewrite filter_cons_False by assumption. rewrite filter_nil, app_nil_r.
      reflexivity.
  - injection Hnest as <-. injection Hev as <-.
    split; [unfold static_eq; simpl; tauto|]. split; [reflexivity|exact Hnix].
  - destruct (list_pop (elemstack h)) as [[st top]|] eqn:Hpop; [|discriminate Hnest].
    case_decide; [|discriminate Hnest]. injection Hnest as <-. subst top.
    apply list_pop_Some in Hpop. apply endElement_stacks in Hev.
    destruct Hev as (Hs & [top Htop] & Hn). split; [exact Hs|].
    rewrite Hpop in Htop. apply app_inj_tail in Htop. destruct Htop as [Hst _].
    split; [congruence|].
    rewrite Hn, Hnix, Hpop, filter_app.
    destruct (decide (tag ∈ nixed_elements h)) as [Hin|Hout].
    + rewrite filter_cons_True by assumption. rewrite filter_nil.
      rewrite list_top_snoc. rewrite decide_True by reflexivity.
      rewrite list_pop_snoc. reflexivity.
    + rewrite filter_cons_False by assumption. rewrite filter_nil, app_nil_r.
      rewrite decide_False; [reflexivity|].
      intros Htop. apply list_top_elem_of in Htop.
      apply list_elem_of_filter in Htop. tauto.
Qed.

Lemma for_each_nesting tokenize_string lower (events : list event) :
  forall h h' st,
    nesting (elemstack h) events = Some st ->
    nixing_stack h = filter (.∈ nixed_elements h) (elemstack h) ->
    for_each (handle_event tokenize_string lower) events h = Ok h' ->
    static_eq h h' /\ elemstack h' = st
    /\ nixing_stack h' = filter (.∈ nixed_elements h) st.
Proof.
  induction events as [|ev rest IH]; intros h h' st Hnest Hnix Hrun.
  - simpl in *. injection Hnest as <-. injection Hrun as <-.
    split; [apply static_eq_refl|]. split; [reflexivity|exact Hnix].
  - rewrite nesting_cons in Hnest.
    destruct (nesting (elemstack h) [ev]) as [st1|] eqn:H1; [|discriminate Hnest].
    simpl in Hrun. inv_ok Hrun.
    destruct (handle_event_nesting _ _ _ _ _ _ H1 Hnix Hr) as (Hs & He & Hn).
    assert (Hnixed : nixed_elements r = nixed_elements h) by apply Hs.
    destruct (IH r h' st) as (Hs' & He' & Hn').
    + rewrite He. exact Hnest.
    + rewrite Hnixed, He. exact Hn.
    + exact Hrun.
    + split; [eapply static_eq_trans; eauto|]. split; [exact He'|].
      rewrite Hn', Hnixed. reflexivity.
Qed.

(** X9: over the events of a well-formed document, in which every end
    tag closes the innermost open element, the element stack of the handler is
    the list of the open elements and the nixing stack is its sublist of nixed
    elements: suppression is active exactly while a nixed element is open, and
    after a balanced document both stacks are empty. *)
Theorem nixing_stack_is_nixed_part_of_elemstack
    tokenize_string lower (scr : Script) (first_monad first_id_d : Z)
    (h0 h : Handler) (events : list event) (open : list pystr) :
  init scr first_monad first_id_d = Ok h0 ->
  parse tokenize_string lower h0 events = Ok h ->
  nesting [] events = Some open ->
  elemstack h = open
  /\ nixing_stack h = filter (.∈ script_nixed_elements scr) open
  /\ getCurElement h = default [] (last open)
  /\ (open = [] -> elemstack h = [] /\ nixing_stack h = []).
Proof.
  intros Hinit Hrun Hnest.
  pose proof (init_classification _ _ _ _ Hinit) as (Hnixed & _).
  apply init_Ok in Hinit.
  destruct Hinit as (_ & _ & _ & _ & _ & _ & _ & _ & He0 & _ & Hn0).
  unfold parse, startDocument, endDocument in Hrun. simpl in Hrun. inv_ok Hrun.
  subst r.
  destruct (for_each_nesting tokenize_string lower events h0 h open)
    as (_ & He & Hn).
  { rewrite He0. exact Hnest. }
  { rewrite He0, Hn0. reflexivity. }
  { exact Hr. }
  assert (Hfilter : nixing_stack h = filter (.∈ script_nixed_elements scr) open).
  { rewrite Hn. apply list_filter_iff. intros x. apply Hnixed. }
  split; [exact He|]. split; [exact Hfilter|]. split.
  - unfold getCurElement. rewrite He. clear. case_decide as Hlen.
    + destruct open; [reflexivity|discriminate Hlen].
    + destruct (list_pop open) as [[l x]|] eqn:Hpop.
      * unfold list_top. rewrite Hpop. apply list_pop_Some in Hpop. subst open.
        rewrite last_snoc. reflexivity.
      * apply list_pop_None in Hpop. subst open. simpl in Hlen. congruence.
  - intros ->. rewrite He, Hfilter. auto.
Qed.

Lemma nixing_stack_is_nixed_part_of_elemstack_witness :
  elemstack nixing_after_note = [u "p"; u "note"]
  /\ nixing_stack nixing_after_note
     = filter (.∈ script_nixed_elements script_p_note) [u "p"; u "note"].
Proof.
  pose proof (nixing_stack_is_nixed_part_of_elemstack tokenize_ws lower_ascii
                script_p_note 1 0 fresh_handler nixing_after_note
                [StartElement (u "p") []; Characters (u "A");
                 StartElement (u "note") []]
                [u "p"; u "note"]) as K.
  destruct K as (K1 & K2 & _).
  - vm_compute. reflexivity.
  - vm_compute. reflexivity.
  - vm_compute. reflexivity.
  - split; [exact K1|exact K2].
Defined.

(** *** Nixed subtrees *)

Lemma filter_app_nonempty {A : Type} (P : A -> Prop) `{!forall x, Decision (P x)}
    (l1 l2 : list A) :
  filter P l1 <> [] -> filter P (l1 ++ l2) <> [].
Proof.
  rewrite filter_app. destruct (filter P l1); [congruence|discriminate].
Qed.

Lemma startElement_nixed_Ok tokenize_string lower h tag attributes :
  nixing_stack h <> [] ->
  exists h', startElement tokenize_string lower h tag attributes = Ok h'.
Proof.
  intros Hnix. unfold startElement. cbv zeta. rewrite handleChars_start. simpl.
  repeat case_decide; eauto.
  all: exfalso; destruct (nixing_stack h); [congruence|simpl in *; lia].
Qed.

Lemma endElement_nixed_Error tokenize_string h tag e :
  nixing_stack h <> [] ->
  endElement tokenize_string h tag = Error e -> ~ unknown_tag_exn e.
Proof.
  intros Hnix H. unfold endElement in H. cbv zeta in H.
  apply bind_Error in H. destruct H as [H|(h1 & H1 & H)].
  { apply handleChars_KeyError in H. destruct H as [k ->]. simpl. tauto. }
  pose proof (handleChars_frame _ id _ _ _ _ _ H1) as (_ & _ & _ & _ & _ & Hn & _).
  simpl in Hn.
  assert (Hlen : length (nixing_stack h1) <> 0%nat).
  { rewrite Hn. destruct (nixing_stack h); [congruence|]. simpl. lia. }
  apply bind_Error in H. destruct H as [H|(h2 & _ & H)].
  - repeat case_decide; try discriminate H; exfalso; tauto.
  - apply bind_Error in H. destruct H as [H|(? & _ & H)]; [|discriminate H].
    apply of_option_Error in H. destruct H as [_ ->]. simpl. tauto.
Qed.

Lemma nixed_run tokenize_string lower (events : list event) :
  forall h base rel0 rel,
    elemstack h = base ++ rel0 ->
    nixing_stack h = filter (.∈ nixed_elements h) (elemstack h) ->
    filter (.∈ nixed_elements h) base <> [] ->
    nesting rel0 events = Some rel ->
    match for_each (handle_event tokenize_string lower) events h with
    | Ok h' =>
        store h' = store h /\ objstacks h' = objstacks h /\ objects h' = objects h
        /\ elemstack h' = base ++ rel /\ nixing_stack h' <> []
    | Error e => ~ unknown_tag_exn e
    end.
Proof.
  induction events as [|ev rest IH]; intros h base rel0 rel He Hn Hbase Hnest.
  - simpl in *. injection Hnest as <-. repeat split; auto.
    rewrite Hn, He. apply filter_app_nonempty, Hbase.
  - assert (Hnix : nixing_stack h <> []).
    { rewrite Hn, He. apply filter_app_nonempty, Hbase. }
    rewrite nesting_cons in Hnest.
    destruct (nesting rel0 [ev]) as [rel1|] eqn:H1; [|discriminate Hnest].
    pose proof (nesting_app base [ev] _ _ H1) as H1'. rewrite <- He in H1'.
    simpl for_each.
    destruct (handle_event tokenize_string lower h ev) as [h1|e] eqn:Hev; simpl.
    + destruct (handle_event_nesting _ _ _ _ _ _ H1' Hn Hev) as (Hs & He1 & Hn1).
      assert (Hnixed : nixed_elements h1 = nixed_elements h) by apply Hs.
      assert (Hframe : store h1 = store h /\ objstacks h1 = objstacks h
                       /\ objects h1 = objects h).
      { destruct ev as [tag attributes|data|tag]; simpl in Hev.
        - apply startElement_nixed in Hev; [tauto|exact Hnix].
        - injection Hev as <-. simpl. tauto.
        - apply (endElement_nixed tokenize_string lower) in Hev; [tauto|exact Hnix]. }
      destruct Hframe as (F1 & F2 & F3).
      specialize (IH h1 base rel1 rel He1).
      rewrite Hnixed, He1 in IH. specialize (IH Hn1 Hbase Hnest).
      destruct (for_each (handle_event tokenize_string lower) rest h1) as [h'|e];
        [|exact IH].
      destruct IH as (I1 & I2 & I3 & I4 & I5).
      repeat split; try congruence.
    + destruct ev as [tag attributes|data|tag]; simpl in Hev.
      * destruct (startElement_nixed_Ok tokenize_string lower h tag attributes Hnix)
          as [h' E].
        congruence.
      * discriminate Hev.
      * eapply endElement_nixed_Error; eauto.
Qed.

(** X10: a well-formed piece of document inside a nixed element, such as
    the content of the nixed element, opens no object and closes none: the
    object store, the stacks of open objects and the finished objects are what
    they were, whatever the piece holds, and suppression is still active after
    it.  Tags that the script does not know are accepted there: no
    unknown-tag error can be raised. *)
Theorem nixed_subtree_opens_and_closes_no_object
    tokenize_string lower (h : Handler) (events : list event) (open : list pystr) :
  nixing_stack h = filter (.∈ nixed_elements h) (elemstack h) ->
  nixing_stack h <> [] ->
  nesting [] events = Some open ->
  (forall h', for_each (handle_event tokenize_string lower) events h = Ok h' ->
     store h' = store h /\ objstacks h' = objstacks h /\ objects h' = objects h
     /\ elemstack h' = elemstack h ++ open /\ nixing_stack h' <> [])
  /\ (forall e, for_each (handle_event tokenize_string lower) events h = Error e ->
        ~ unknown_tag_exn e).
Proof.
  intros Hn Hnix Hnest.
  pose proof (nixed_run tokenize_string lower events h (elemstack h) [] open) as K.
  rewrite app_nil_r in K. specialize (K eq_refl Hn).
  rewrite <- Hn in K. specialize (K Hnix Hnest).
  split.
  - intros h' E. rewrite E in K. exact K.
  - intros e E. rewrite E in K. exact K.
Qed.

Lemma nixed_subtree_opens_and_closes_no_object_witness :
  store (state_after script_p_note (firstn 7 doc_nixing)) = store nixing_after_note
  /\ objstacks (state_after script_p_note (firstn 7 doc_nixing))
     = objstacks nixing_after_note.
Proof.
  pose proof (nixed_subtree_opens_and_closes_no_object tokenize_ws lower_ascii
                nixing_after_note
                [Characters (u "B"); StartElement (u "p") []; Characters (u "C");
                 EndElement (u "p")] []) as K.
  destruct K as (K & _).
  - vm_compute. reflexivity.
  - vm_compute. discriminate.
  - vm_compute. reflexivity.
  - destruct (K (state_after script_p_note (firstn 7 doc_nixing)))
      as (K1 & K2 & _); [vm_compute; reflexivity|].
    split; assumption.
Defined.

(** *** Text chunks *)

Lemma same_buffer_refl h : same_buffer h h.
Proof. split; reflexivity. Qed.

Lemma same_outcome_refl r : same_outcome r r.
Proof. destruct r; simpl; [apply same_buffer_refl|reflexivity]. Qed.

Lemma startElement_buffer tokenize_string lower h1 h2 tag attributes :
  same_buffer h1 h2 ->
  startElement tokenize_string lower h1 tag attributes
  = startElement tokenize_string lower h2 tag attributes.
Proof.
  intros [_ Hs].
  assert (E : forall h,
             startElement tokenize_string lower h tag attributes
             = startElement tokenize_string lower (set_charstack [] h) tag attributes)
    by reflexivity.
  rewrite (E h1), (E h2), Hs. reflexivity.
Qed.

Lemma endElement_buffer tokenize_string h1 h2 tag :
  same_buffer h1 h2 ->
  endElement tokenize_string h1 tag = endElement tokenize_string h2 tag.
Proof.
  intros [Hc Hs]. unfold endElement. cbv zeta. rewrite Hc, Hs. reflexivity.
Qed.

Lemma characters_buffer h1 h2 data :
  same_buffer h1 h2 -> same_buffer (characters h1 data) (characters h2 data).
Proof.
  intros [Hc Hs]. split.
  - simpl. rewrite !concat_app, Hc. reflexivity.
  - exact Hs.
Qed.

Lemma handle_event_buffer tokenize_string lower h1 h2 ev :
  same_buffer h1 h2 ->
  same_outcome (handle_event tokenize_string lower h1 ev)
    (handle_event tokenize_string lower h2 ev).
Proof.
  intros H. destruct ev as [tag attributes|data|tag]; simpl.
  - rewrite (startElement_buffer _ _ _ _ _ _ H). apply same_outcome_refl.
  - apply characters_buffer, H.
  - rewrite (endElement_buffer _ _ _ _ H). apply same_outcome_refl.
Qed.

Lemma for_each_buffer tokenize_string lower (events : list event) :
  forall h1 h2,
    same_buffer h1 h2 ->
    same_outcome (for_each (handle_event tokenize_string lower) events h1)
      (for_each (handle_event tokenize_string lower) events h2).
Proof.
  induction events as [|ev rest IH]; intros h1 h2 H; simpl; [exact H|].
  pose proof (handle_event_buffer tokenize_string lower h1 h2 ev H) as K.
  destruct (handle_event tokenize_string lower h1 ev) as [h1'|e1],
           (handle_event tokenize_string lower h2 ev) as [h2'|e2];
    simpl in *; try tauto.
  apply IH, K.
Qed.

Lemma for_each_app {A S : Type} (body : S -> A -> result S) (l1 l2 : list A) :
  forall s, for_each body (l1 ++ l2) s = for_each body l1 s ≫= for_each body l2.
Proof.
  induction l1 as [|a l1 IH]; intros s; simpl; [reflexivity|].
  destruct (body s a) as [s'|e]; simpl; [apply IH|reflexivity].
Qed.

Lemma parse_for_each tokenize_string lower h events :
  parse tokenize_string lower h events
  = for_each (handle_event tokenize_string lower) events h.
Proof.
  unfold parse, startDocument, endDocument. simpl.
  destruct (for_each _ events h); reflexivity.
Qed.

(** X11: how the parser cuts the text into chunks does not matter.  A
    document in which a piece of text arrives as two [characters] calls, or
    with an additional empty call, has the same outcome as the document with
    the one call: the same exception, or final states that differ at most in
    how the text still in the buffer is cut (so with the same tokens, objects
    and counters). *)
Theorem text_chunking_does_not_matter
    tokenize_string lower (h : Handler) (before after : list event)
    (data1 data2 : pystr) :
  same_outcome
    (parse tokenize_string lower h
       (before ++ Characters data1 :: Characters data2 :: after))
    (parse tokenize_string lower h (before ++ Characters (data1 ++ data2) :: after))
  /\ same_outcome
       (parse tokenize_string lower h (before ++ Characters [] :: after))
       (parse tokenize_string lower h (before ++ after))
  /\ (forall h1 h2, same_buffer h1 h2 ->
        tokens h1 = tokens h2 /\ store h1 = store h2 /\ objects h1 = objects h2
        /\ objstacks h1 = objstacks h2 /\ elemstack h1 = elemstack h2
        /\ curmonad h1 = curmonad h2 /\ curid_d h1 = curid_d h2
        /\ curdocindex h1 = curdocindex h2).
Proof.
  rewrite !parse_for_each, !for_each_app.
  split; [|split].
  - destruct (for_each (handle_event tokenize_string lower) before h) as [h0|e];
      simpl; [|reflexivity].
    apply for_each_buffer. split.
    + simpl. rewrite !concat_app. simpl. rewrite !app_nil_r, app_assoc. reflexivity.
    + reflexivity.
  - destruct (for_each (handle_event tokenize_string lower) before h) as [h0|e];
      simpl; [|reflexivity].
    apply for_each_buffer. split.
    + simpl. rewrite concat_app. simpl. rewrite app_nil_r. reflexivity.
    + reflexivity.
  - intros h1 h2 [_ Hs].
    pose proof (f_equal tokens Hs). pose proof (f_equal store Hs).
    pose proof (f_equal objects Hs). pose proof (f_equal objstacks Hs).
    pose proof (f_equal elemstack Hs). pose proof (f_equal curmonad Hs).
    pose proof (f_equal curid_d Hs). pose proof (f_equal curdocindex Hs).
    simpl in *. tauto.
Qed.

(** ** The handler: tokens *)

(** An end tag first flushes the text; what follows mints nothing. *)
Lemma endElement_flush tokenize_string h tag h' :
  endElement tokenize_string h tag = Ok h' ->
  exists h1,
    handleChars tokenize_string (set_charstack [] h) (concat (charstack h)) tag true
    = Ok h1
    /\ tokens h' = tokens h1 /\ curid_d h' = curid_d h1
    /\ curmonad h1 <= curmonad h' /\ script h' = script h1
    /\ curdocindex h' = curdocindex h1.
Proof.
  unfold endElement. cbv zeta. intros H. inv_ok H. subst h'. simpl.
  exists r. split; [exact Hr|].
  repeat case_decide; try discriminate Hr0;
    try (inv_ok Hr0; subst r0; simpl; repeat split; auto; lia).
  apply (handleElementEnd_frame tokenize_string id) in Hr0. tauto.
Qed.

Lemma handleChars_token_invariant tokenize_string (I : Handler -> Prop) :
  (forall h ty p s x h', I h -> createToken h ty p s x = Ok h' -> I h') ->
  forall h chars tag b h',
    I h -> handleChars tokenize_string h chars tag b = Ok h' -> I h'.
Proof.
  intros Hmint h chars tag b h' H0. unfold handleChars.
  match goal with |- (if ?c then _ else _) = _ -> _ => destruct c end;
    intros H1.
  - inv_ok H1. revert H1. apply (for_each_invariant I); [|exact H0].
    intros s t s' Hs' Hbody. eapply Hmint; eauto.
  - inv_ok H1. subst h'. exact H0.
Qed.

(** A property of the tokens and the counters that minting keeps, and
    that depends on nothing but the tokens, the script and the two counters,
    holds throughout a run. *)
Lemma for_each_token_invariant tokenize_string lower (I : Handler -> Prop) :
  (forall h ty p s x h', I h -> createToken h ty p s x = Ok h' -> I h') ->
  (forall h h', I h -> tokens h' = tokens h -> curid_d h' = curid_d h ->
                curmonad h <= curmonad h' -> script h' = script h -> I h') ->
  forall events h h',
    I h -> for_each (handle_event tokenize_string lower) events h = Ok h' -> I h'.
Proof.
  intros Hmint Hframe events. apply for_each_invariant.
  intros h ev h' Hh Hev. destruct ev as [tag attributes|data|tag]; simpl in Hev.
  - pose proof (startElement_stacks _ _ _ _ _ _ Hev) as (Hs & _).
    apply startElement_discards_text in Hev. destruct Hev as (_ & Ht & Hm & Hi).
    apply (Hframe h); auto; [lia|apply Hs].
  - injection Hev as <-. apply (Hframe h); auto. simpl. lia.
  - apply endElement_flush in Hev.
    destruct Hev as (h1 & H1 & Ht & Hi & Hm & Hs & _).
    apply (Hframe h1); auto.
    assert (H0 : I (set_charstack [] h)) by (apply (Hframe h); simpl; auto; lia).
    eapply handleChars_token_invariant; eauto.
Qed.

Lemma lookup_insert_snoc (toks : gmap pystr (list Token.t)) ty l n ty1 l1 i t :
  toks !! ty = Some l ->
  <[ty := l ++ [n]]> toks !! ty1 = Some l1 -> l1 !! i = Some t ->
  (exists l1', toks !! ty1 = Some l1' /\ l1' !! i = Some t
               /\ (ty1 = ty -> l1' = l /\ (i < length l)%nat))
  \/ (ty1 = ty /\ i = length l /\ t = n).
Proof.
  intros Hl H1 Ht. destruct (decide (ty = ty1)) as [<-|Hne].
  - rewrite lookup_insert_eq in H1. injection H1 as <-.
    apply lookup_snoc_inv in Ht. destruct Ht as [[? ?]|[? ?]]; [left|right; auto].
    exists l. auto.
  - rewrite lookup_insert_ne in H1 by exact Hne. left. exists l1.
    repeat split; auto; congruence.
Qed.

Lemma createToken_tokens_ordered h ty p s x h' :
  tokens_ordered h -> createToken h ty p s x = Ok h' -> tokens_ordered h'.
Proof.
  intros (Hbound & Hagree & Hsorted) H.
  apply (createToken_Ok (fun _ => []) id) in H.
  destruct H as (l & Hl & Ht & Hm & Hi & _).
  assert (Hnew : Token.monad (minted h ty p s x) = curmonad h
                 /\ Token.id_d (minted h ty p s x) = curid_d h)
    by (split; reflexivity).
  destruct Hnew as [Nm Ni].
  unfold tokens_ordered. rewrite Ht, Hm, Hi. split; [|split].
  - intros ty1 l1 i t H1 H2.
    destruct (lookup_insert_snoc _ _ _ _ _ _ _ _ Hl H1 H2)
      as [(l1' & A1 & A2 & _)|(-> & -> & ->)].
    + specialize (Hbound _ _ _ _ A1 A2). lia.
    + lia.
  - intros ty1 ty2 l1 l2 i j t1 t2 H1 H2 H3 H4.
    destruct (lookup_insert_snoc _ _ _ _ _ _ _ _ Hl H1 H2)
      as [(l1' & A1 & A2 & _)|(-> & -> & ->)];
    destruct (lookup_insert_snoc _ _ _ _ _ _ _ _ Hl H3 H4)
      as [(l2' & B1 & B2 & _)|(-> & -> & ->)].
    + exact (Hagree _ _ _ _ _ _ _ _ A1 A2 B1 B2).
    + specialize (Hbound _ _ _ _ A1 A2). lia.
    + specialize (Hbound _ _ _ _ B1 B2). lia.
    + lia.
  - intros ty1 l1 i j ti tj H1 H2 H3 Hlt.
    destruct (lookup_insert_snoc _ _ _ _ _ _ _ _ Hl H1 H2)
      as [(l1' & A1 & A2 & A3)|(-> & -> & ->)];
    destruct (lookup_insert_snoc _ _ _ _ _ _ _ _ Hl H1 H3)
      as [(l2' & B1 & B2 & B3)|(E & -> & ->)].
    + assert (l2' = l1') by congruence. subst l2'.
      exact (Hsorted _ _ _ _ _ _ A1 A2 B2 Hlt).
    + specialize (Hbound _ _ _ _ A1 A2). lia.
    + destruct (B3 eq_refl) as [_ B4]. lia.
    + lia.
Qed.

Lemma tokens_ordered_frame h h' :
  tokens_ordered h -> tokens h' = tokens h -> curid_d h' = curid_d h ->
  curmonad h <= curmonad h' -> tokens_ordered h'.
Proof.
  intros (Hbound & Hagree & Hsorted) Ht Hi Hm.
  unfold tokens_ordered. rewrite Ht, Hi. split; [|split]; auto.
  intros ty l i t H1 H2. specialize (Hbound _ _ _ _ H1 H2). lia.
Qed.

Lemma createToken_minted_since c0 n0 h ty p s x h' :
  minted_since c0 n0 h -> createToken h ty p s x = Ok h' -> minted_since c0 n0 h'.
Proof.
  intros (Hle & Hsince) H.
  apply (createToken_Ok (fun _ => []) id) in H.
  destruct H as (l & Hl & Ht & Hm & Hi & _).
  unfold minted_since. rewrite Ht, Hm. split; [lia|].
  intros ty1 l1 i t H1 H2 Hid.
  destruct (lookup_insert_snoc _ _ _ _ _ _ _ _ Hl H1 H2)
    as [(l1' & A1 & A2 & _)|(-> & -> & ->)].
  - specialize (Hsince _ _ _ _ A1 A2 Hid). lia.
  - unfold minted. simpl. lia.
Qed.

Lemma minted_since_frame c0 n0 h h' :
  minted_since c0 n0 h -> tokens h' = tokens h ->
  curmonad h <= curmonad h' -> minted_since c0 n0 h'.
Proof.
  intros (Hle & Hsince) Ht Hm. unfold minted_since. rewrite Ht.
  split; [lia|]. intros ty l i t H1 H2 Hid.
  specialize (Hsince _ _ _ _ H1 H2 Hid). lia.
Qed.

Lemma createToken_token_types_inv h ty p s x h' :
  token_types_inv h -> createToken h ty p s x = Ok h' -> token_types_inv h'.
Proof.
  intros Hinv H. apply (createToken_Ok (fun _ => []) id) in H.
  destruct H as (l & Hl & Ht & _ & _ & _ & Hs & _).
  unfold token_types_inv. rewrite Ht, Hs. intros ty1. rewrite <- (Hinv ty1).
  destruct (decide (ty = ty1)) as [<-|Hne].
  - rewrite lookup_insert_eq, Hl. split; eauto.
  - rewrite lookup_insert_ne by exact Hne. reflexivity.
Qed.

Lemma run_token_types_inv tokenize_string lower scr first_monad first_id_d h0 events h :
  init scr first_monad first_id_d = Ok h0 ->
  parse tokenize_string lower h0 events = Ok h ->
  token_types_inv h /\ script h = scr.
Proof.
  intros Hinit Hrun.
  pose proof (init_classification _ _ _ _ Hinit)
    as (_ & _ & _ & Hinv & _).
  apply init_Ok in Hinit. destruct Hinit as (_ & _ & _ & Hscr & _).
  rewrite parse_for_each in Hrun.
  revert Hrun.
  apply (for_each_token_invariant tokenize_string lower
           (fun h => token_types_inv h /\ script h = scr)); [| |auto].
  - intros s ty p t x s' [Hs1 Hs2] Hbody. split.
    + eapply createToken_token_types_inv; eauto.
    + apply (createToken_Ok (fun _ => []) id) in Hbody.
      destruct Hbody as (l & _ & _ & _ & _ & _ & E & _). congruence.
  - intros s s' [Hs1 Hs2] Ht _ _ Hs. split; [|congruence].
    unfold token_types_inv in *. rewrite Ht, Hs. exact Hs1.
Qed.

Lemma mint_all ty (triples : list (pystr * pystr * pystr)) :
  forall h l,
    tokens h !! ty = Some l ->
    exists h' new,
      for_each
        (fun h (t : pystr * pystr * pystr) =>
           createToken h ty (fst (fst t)) (snd (fst t)) (snd t))
        triples h = Ok h'
      /\ tokens h' = <[ty := l ++ new]> (tokens h)
      /\ map triple_of new = triples
      /\ (forall k t, new !! k = Some t ->
            Token.monad t = curmonad h + Z.of_nat k
            /\ Token.id_d t = curid_d h + Z.of_nat k
            /\ Token.wholesurface t
               = Token.prefix t ++ Token.surface t ++ Token.suffix t)
      /\ curmonad h' = curmonad h + Z.of_nat (length triples)
      /\ curid_d h' = curid_d h + Z.of_nat (length triples).
Proof.
  induction triples as [|t rest IH]; intros h l Hl.
  - exists h, []. simpl. rewrite app_nil_r, insert_id by exact Hl.
    split; [reflexivity|]. split; [reflexivity|]. split; [reflexivity|].
    split; [|lia]. intros k t Hk. discriminate Hk.
  - destruct (createToken_total h ty (fst (fst t)) (snd (fst t)) (snd t) l Hl)
      as [h1 H1].
    pose proof (createToken_Ok (fun _ => []) id _ _ _ _ _ _ H1)
      as (l0 & Hl0 & Ht1 & Hm1 & Hi1 & _).
    assert (l0 = l) by congruence. subst l0.
    destruct (IH h1 (l ++ [minted h ty (fst (fst t)) (snd (fst t)) (snd t)]))
      as (h' & new & Hrun & Ht & Hmap & Hnew & Hm & Hi).
    { rewrite Ht1. apply lookup_insert_eq. }
    exists h', (minted h ty (fst (fst t)) (snd (fst t)) (snd t) :: new).
    split; [simpl; rewrite H1; exact Hrun|].
    split; [rewrite Ht, Ht1, insert_insert_eq, <- app_assoc; reflexivity|].
    split; [simpl; rewrite Hmap; destruct t as [[p s] x]; reflexivity|].
    split; [|simpl length; lia].
    intros [|k] t' Hk; simpl in Hk.
    + injection Hk as <-. simpl. repeat split; lia.
    + destruct (Hnew k t' Hk) as (A1 & A2 & A3). repeat split; auto; lia.
Qed.

Lemma handleChars_end tokenize_string h chars tag he ty :
  dict_get tag (handled h) = Some he ->
  he_tokenObjectTypeName he = Some ty ->
  handleChars tokenize_string h chars tag true
  = for_each
      (fun h (t : pystr * pystr * pystr) =>
         createToken h ty (fst (fst t)) (snd (fst t)) (snd t))
      (tokenize_string chars) h.
Proof.
  intros Hhe Hty. unfold handleChars. rewrite Hhe. simpl. rewrite Hty. reflexivity.
Qed.

(** X12: a run mints tokens of the token types listed in the script and
    of no other: minting a token of a listed type always succeeds, and minting
    one of any other type raises [KeyError] with the name of the type.  So an
    element whose token type is not listed raises that error at its end tag as
    soon as the tokenizer finds a token in its text, and passes when it finds
    none. *)
Theorem tokens_are_minted_for_listed_types_only
    tokenize_string lower (scr : Script) (first_monad first_id_d : Z)
    (h0 h : Handler) (events : list event) :
  init scr first_monad first_id_d = Ok h0 ->
  parse tokenize_string lower h0 events = Ok h ->
  (forall ty p s x,
     ty ∈ gp_tokenObjectTypeNameList (global_parameters scr) ->
     exists h', createToken h ty p s x = Ok h')
  /\ (forall ty p s x,
        ty ∉ gp_tokenObjectTypeNameList (global_parameters scr) ->
        createToken h ty p s x = Error (KeyError ty))
  /\ (forall tag he ty chars,
        dict_get tag (script_handled_elements scr) = Some he ->
        he_tokenObjectTypeName he = Some ty ->
        ty ∉ gp_tokenObjectTypeNameList (global_parameters scr) ->
        (tokenize_string chars <> [] ->
           handleChars tokenize_string h chars tag true = Error (KeyError ty))
        /\ (tokenize_string chars = [] ->
              handleChars tokenize_string h chars tag true = Ok h)).
Proof.
  intros Hinit Hrun.
  destruct (run_token_types_inv _ _ _ _ _ _ _ _ Hinit Hrun) as [Hinv Hscr].
  unfold token_types_inv in Hinv. rewrite Hscr in Hinv.
  assert (Hno : forall ty p s x,
             ty ∉ gp_tokenObjectTypeNameList (global_parameters scr) ->
             createToken h ty p s x = Error (KeyError ty)).
  { intros ty p s x Hty. unfold createToken. cbv zeta. simpl.
    destruct (tokens h !! ty) as [l|] eqn:E; [|reflexivity].
    exfalso. apply Hty, Hinv. eauto. }
  split; [|split; [exact Hno|]].
  - intros ty p s x Hty. apply Hinv in Hty. destruct Hty as [l Hl].
    eapply createToken_total; eauto.
  - intros tag he ty chars Hhe Hty Hout.
    assert (Hhe' : dict_get tag (handled h) = Some he)
      by (unfold handled; rewrite Hscr; exact Hhe).
    rewrite (handleChars_end _ _ _ _ _ _ Hhe' Hty).
    split.
    + intros Hne. destruct (tokenize_string chars) as [|t rest]; [congruence|].
      cbn [for_each]. rewrite Hno by exact Hout. reflexivity.
    + intros ->. reflexivity.
Qed.

Lemma tokens_are_minted_for_listed_types_only_witness :
  createToken after_hi_there (u "w") [] (u "x") [] = Error (KeyError (u "w")).
Proof.
  pose proof (tokens_are_minted_for_listed_types_only tokenize_ws lower_ascii
                script_p_note 1 0 fresh_handler after_hi_there doc_hi_there) as K.
  destruct K as (_ & K & _).
  - vm_compute. reflexivity.
  - vm_compute. reflexivity.
  - apply K. apply (bool_decide_unpack _). vm_compute. exact I.
Defined.

Lemma init_tokens_ordered scr first_monad first_id_d h :
  init scr first_monad first_id_d = Ok h ->
  tokens_ordered h /\ minted_since first_monad first_id_d h.
Proof.
  intros H. apply init_Ok in H.
  destruct H as (Hm & _ & _ & _ & Hempty & _).
  split; [split; [|split]|split].
  - intros ty l i t Hl Ht. rewrite (Hempty _ _ Hl) in Ht. discriminate Ht.
  - intros ty1 ty2 l1 l2 i j t1 t2 Hl1 Ht1.
    rewrite (Hempty _ _ Hl1) in Ht1. discriminate Ht1.
  - intros ty l i j ti tj Hl Ht. rewrite (Hempty _ _ Hl) in Ht. discriminate Ht.
  - lia.
  - intros ty l i t Hl Ht. rewrite (Hempty _ _ Hl) in Ht. discriminate Ht.
Qed.

(** X13: the tokens of a run are in document order.  Along every token
    collection the monads and the identifiers grow strictly; two tokens at
    different places, in the same collection or not, never share a monad; and
    every monad lies between the first monad of the run and the monad
    counter. *)
Theorem tokens_are_in_document_order
    tokenize_string lower (scr : Script) (first_monad first_id_d : Z)
    (h0 h : Handler) (events : list event) :
  init scr first_monad first_id_d = Ok h0 ->
  parse tokenize_string lower h0 events = Ok h ->
  (forall ty l i j ti tj,
     tokens h !! ty = Some l -> l !! i = Some ti -> l !! j = Some tj ->
     (i < j)%nat ->
     Token.monad ti < Token.monad tj /\ Token.id_d ti < Token.id_d tj)
  /\ (forall ty1 ty2 l1 l2 i j t1 t2,
        tokens h !! ty1 = Some l1 -> l1 !! i = Some t1 ->
        tokens h !! ty2 = Some l2 -> l2 !! j = Some t2 ->
        Token.monad t1 = Token.monad t2 -> ty1 = ty2 /\ i = j)
  /\ (forall ty l i t,
        tokens h !! ty = Some l -> l !! i = Some t ->
        first_monad <= Token.monad t < curmonad h).
Proof.
  intros Hinit Hrun.
  pose proof (init_ids_inv _ _ _ _ Hinit) as Hids.
  apply (parse_ids_inv _ _ _ _ _ _ Hrun) in Hids.
  destruct Hids as (_ & Hrange & Huniq & _).
  apply init_tokens_ordered in Hinit. rewrite parse_for_each in Hrun.
  assert (Hord : tokens_ordered h /\ minted_since first_monad first_id_d h).
  { revert Hrun.
    apply (for_each_token_invariant tokenize_string lower
             (fun h => tokens_ordered h /\ minted_since first_monad first_id_d h));
      [| |exact Hinit].
    - intros s ty p t x s' [Hs1 Hs2] Hbody. split.
      + eapply createToken_tokens_ordered; eauto.
      + eapply createToken_minted_since; eauto.
    - intros s s' [Hs1 Hs2] Ht Hi Hm _. split.
      + eapply tokens_ordered_frame; eauto.
      + eapply minted_since_frame; eauto. }
  destruct Hord as [(Hbound & Hagree & Hsorted) (_ & Hsince)].
  split; [|split].
  - intros ty l i j ti tj Hl Hi Hj Hlt.
    pose proof (Hsorted _ _ _ _ _ _ Hl Hi Hj Hlt) as Hid.
    split; [|exact Hid]. apply (Hagree _ _ _ _ _ _ _ _ Hl Hi Hl Hj), Hid.
  - intros ty1 ty2 l1 l2 i j t1 t2 Hl1 Ht1 Hl2 Ht2 Heq.
    apply (Huniq _ _ _ _ _ _ _ _ Hl1 Ht1 Hl2 Ht2).
    pose proof (Hagree _ _ _ _ _ _ _ _ Hl1 Ht1 Hl2 Ht2) as A1.
    pose proof (Hagree _ _ _ _ _ _ _ _ Hl2 Ht2 Hl1 Ht1) as A2.
    lia.
  - intros ty l i t Hl Ht. apply (Hsince _ _ _ _ Hl Ht).
    apply (Hrange _ _ _ _ Hl Ht).
Qed.

Lemma tokens_are_in_document_order_witness :
  exists t,
    tokens_of after_hi_there (u "word") !! 1%nat = Some t
    /\ 1 <= Token.monad t < curmonad after_hi_there.
Proof.
  pose proof (tokens_are_in_document_order tokenize_ws lower_ascii
                script_p_note 1 0 fresh_handler after_hi_there doc_hi_there) as K.
  destruct K as (_ & _ & K).
  - vm_compute. reflexivity.
  - vm_compute. reflexivity.
  - assert (E : tokens after_hi_there !! u "word"
                = Some (tokens_of after_hi_there (u "word")))
      by (vm_compute; reflexivity).
    destruct (tokens_of after_hi_there (u "word") !! 1%nat) as [t|] eqn:Et;
      [|vm_compute in Et; discriminate Et].
    exists t. split; [reflexivity|]. exact (K _ _ _ _ E Et).
Defined.

(** X14: the flush at the end tag of a token-bearing element mints one
    token per triple of the tokenizer, in the tokenizer's order, appended to
    the collection of the element's token type: the tokens carry the triples,
    the k-th of them has the monad and the identifier that are k above the
    counters, its whole surface is prefix, surface and suffix concatenated, and
    both counters advance by the number of triples. *)
Theorem handleChars_mints_consecutive_tokens
    tokenize_string (h : Handler) (chars tag : pystr) (he : HandledElement)
    (ty : pystr) (l : list Token.t) :
  dict_get tag (handled h) = Some he ->
  he_tokenObjectTypeName he = Some ty ->
  tokens h !! ty = Some l ->
  exists h' new,
    handleChars tokenize_string h chars tag true = Ok h'
    /\ tokens h' = <[ty := l ++ new]> (tokens h)
    /\ map triple_of new = tokenize_string chars
    /\ (forall k t, new !! k = Some t ->
          Token.monad t = curmonad h + Z.of_nat k
          /\ Token.id_d t = curid_d h + Z.of_nat k
          /\ Token.wholesurface t
             = Token.prefix t ++ Token.surface t ++ Token.suffix t)
    /\ curmonad h' = curmonad h + Z.of_nat (length (tokenize_string chars))
    /\ curid_d h' = curid_d h + Z.of_nat (length (tokenize_string chars)).
Proof.
  intros Hhe Hty Hl.
  destruct (mint_all ty (tokenize_string chars) h l Hl) as (h' & new & Hrun & K).
  exists h', new. split; [|exact K].
  rewrite (handleChars_end _ _ _ _ _ _ Hhe Hty). exact Hrun.
Qed.

Lemma handleChars_mints_consecutive_tokens_witness :
  exists h' new,
    handleChars tokenize_ws fresh_handler (u "Hi there") (u "p") true = Ok h'
    /\ tokens h' = <[u "word" := [] ++ new]> (tokens fresh_handler)
    /\ map triple_of new = tokenize_ws (u "Hi there").
Proof.
  pose proof (handleChars_mints_consecutive_tokens tokenize_ws fresh_handler
                (u "Hi there") (u "p")
                {| he_objectTypeName := u "p";
                   he_tokenObjectTypeName := Some (u "word");
                   he_minimumMonadLength := Some 1;
                   he_attributes := None;
                   he_objectRangeType := None |}
                (u "word") []) as K.
  destruct K as (h' & new & K1 & K2 & K3 & _).
  - vm_compute. reflexivity.
  - reflexivity.
  - vm_compute. reflexivity.
  - exists h', new. split; [exact K1|]. split; [exact K2|exact K3].
Defined.

(** ** The handler: objects *)

Lemma store_le_refl h : store_le h h.
Proof. intros a o Ho. eauto. Qed.

Lemma store_le_trans h1 h2 h3 : store_le h1 h2 -> store_le h2 h3 -> store_le h1 h3.
Proof.
  intros H12 H23 a o Ho. destruct (H12 a o Ho) as (o2 & Ho2 & F2 & T2).
  destruct (H23 a o2 Ho2) as (o3 & Ho3 & F3 & T3).
  exists o3. repeat split; congruence.
Qed.

Lemma store_le_same h h' : store h' = store h -> store_le h h'.
Proof. intros E a o Ho. rewrite E. eauto. Qed.

Lemma store_le_insert h h' a obj obj' :
  store h !! a = Some obj ->
  SRObject.fm obj' = SRObject.fm obj ->
  SRObject.objectTypeName obj' = SRObject.objectTypeName obj ->
  store h' = <[a := obj']> (store h) ->
  store_le h h'.
Proof.
  intros Ha Hfm Hty E b o Ho. rewrite E.
  destruct (decide (a = b)) as [<-|Hne].
  - rewrite list_lookup_insert_eq by (eapply lookup_lt_Some; eauto).
    exists obj'. repeat split; congruence.
  - rewrite list_lookup_insert_ne by exact Hne. eauto.
Qed.

Lemma createObject_store_le h ty : store_le h (fst (createObject h ty)).
Proof.
  intros a o Ho. simpl. exists o.
  rewrite lookup_app_l by (eapply lookup_lt_Some; eauto). auto.
Qed.

Lemma handleElementStart_attribute_store_le lower tag attributes a h entry h' :
  handleElementStart_attribute lower tag attributes a h entry = Ok h' ->
  store_le h h'.
Proof.
  unfold handleElementStart_attribute, deref. intros H.
  destruct (dict_get (fst entry) attributes) as [value|].
  - inv_ok H. subst h'.
    apply (store_le_insert _ _ a r1
             (if featureTypeIsSTRING lower r0
              then SRObject.setStringFeature r1 r value
              else SRObject.setNonStringFeature r1 r (PyStr value)));
      auto; destruct (featureTypeIsSTRING lower r0); reflexivity.
  - inv_ok H. subst h'. apply store_le_refl.
Qed.

Lemma handleElementStart_store_le lower h tag attributes h' :
  handleElementStart lower h tag attributes = Ok h' -> store_le h h'.
Proof.
  unfold handleElementStart. intros H.
  destruct (dict_get tag (handled h)) as [he|].
  - destruct (he_attributes he) as [attrs|].
    + apply store_le_trans with (fst (createObject h (he_objectTypeName he)));
        [apply createObject_store_le|].
      revert H. apply for_each_preserves;
        eauto using store_le_refl, store_le_trans,
          handleElementStart_attribute_store_le.
    + inv_ok H. subst h'. apply createObject_store_le.
  - inv_ok H. subst h'. apply store_le_refl.
Qed.

Lemma handleElementEnd_store_le h tag h' :
  handleElementEnd h tag = Ok h' -> store_le h h'.
Proof.
  unfold handleElementEnd. intros H.
  destruct (dict_get tag (handled h)) as [he|].
  - inv_ok H. destruct r as [h1 a]. cbn [fst snd] in *.
    apply (endObject_Ok (fun _ => []) id) in Hr.
    destruct Hr as (stack & stack' & obj & _ & _ & Hobj & Hty & Hst & _).
    assert (Hlt : (a < length (store h))%nat) by (eapply lookup_lt_Some; eauto).
    rewrite Hst, list_lookup_insert_eq in Hr0 by exact Hlt.
    injection Hr0 as <-.
    destruct (pad_to_minimum _ _ _ _) as [[obj' c']|] eqn:Hpad; [|discriminate H].
    inv_ok H. subst h'.
    apply pad_to_minimum_Some in Hpad.
    destruct Hpad as (_ & _ & Hfm & Hty' & _).
    apply (store_le_insert _ _ a obj obj'); auto.
    simpl. rewrite Hst, list_insert_insert_eq. reflexivity.
  - inv_ok H. subst h'. apply store_le_refl.
Qed.

Lemma handle_event_store_le tokenize_string lower h ev h' :
  handle_event tokenize_string lower h ev = Ok h' -> store_le h h'.
Proof.
  destruct ev as [tag attributes|data|tag]; simpl; intros H.
  - unfold startElement in H. cbv zeta in H. rewrite handleChars_start in H.
    simpl in H.
    repeat case_decide; try discriminate H;
      try (inv_ok H; subst h'; apply store_le_same; reflexivity).
    apply handleElementStart_store_le in H.
    intros a o Ho. apply (H a o Ho).
  - injection H as <-. apply store_le_same. reflexivity.
  - unfold endElement in H. cbv zeta in H. inv_ok H. subst h'.
    pose proof (handleChars_frame _ id _ _ _ _ _ Hr) as (_ & Hst & _).
    simpl in Hst.
    apply store_le_trans with r; [apply store_le_same; exact Hst|].
    apply store_le_trans with r0; [|apply store_le_same; reflexivity].
    repeat case_decide; try discriminate Hr0;
      try (inv_ok Hr0; subst r0; apply store_le_same; reflexivity).
    eapply handleElementEnd_store_le, Hr0.
Qed.

Lemma for_each_store_le tokenize_string lower events h h' :
  for_each (handle_event tokenize_string lower) events h = Ok h' -> store_le h h'.
Proof.
  apply for_each_preserves;
    eauto using store_le_refl, store_le_trans, handle_event_store_le.
Qed.

Lemma handle_event_static_eq tokenize_string lower h ev h' :
  handle_event tokenize_string lower h ev = Ok h' -> static_eq h h'.
Proof.
  destruct ev as [tag attributes|data|tag]; simpl; intros H.
  - apply startElement_stacks in H. tauto.
  - injection H as <-. unfold static_eq. simpl. tauto.
  - apply endElement_stacks in H. tauto.
Qed.

Lemma for_each_static_eq tokenize_string lower events h h' :
  for_each (handle_event tokenize_string lower) events h = Ok h' -> static_eq h h'.
Proof.
  apply for_each_preserves;
    eauto using static_eq_refl, static_eq_trans, handle_event_static_eq.
Qed.

(** What opening the object of a handled element does. *)
Lemma handleElementStart_opens lower h tag attributes he h' :
  dict_get tag (handled h) = Some he ->
  handleElementStart lower h tag attributes = Ok h' ->
  objstacks h' !! he_objectTypeName he
  = Some (default [] (objstacks h !! he_objectTypeName he) ++ [length (store h)])
  /\ (exists o,
        store h' !! length (store h) = Some o
        /\ SRObject.fm o = curmonad h /\ SRObject.lm o = curmonad h
        /\ SRObject.objectTypeName o = he_objectTypeName he)
  /\ objects h' = objects h /\ curmonad h' = curmonad h.
Proof.
  intros Hhe H.
  pose proof (handleElementStart_same_text_state (fun _ => []) _ _ _ _ _ H)
    as (_ & Hm & _ & _ & _ & _ & _ & Hob).
  unfold handleElementStart in H. rewrite Hhe in H.
  set (ty := he_objectTypeName he) in *.
  set (P := fun s : Handler =>
              objstacks s !! ty
              = Some (default [] (objstacks h !! ty) ++ [length (store h)])
              /\ exists o,
                   store s !! length (store h) = Some o
                   /\ SRObject.fm o = curmonad h /\ SRObject.lm o = curmonad h
                   /\ SRObject.objectTypeName o = ty).
  assert (H0 : P (fst (createObject h ty))).
  { split; [simpl; apply lookup_insert_eq|].
    eexists. split; [simpl; apply list_lookup_middle; reflexivity|].
    simpl. auto. }
  assert (HP : P h'); [|destruct HP; auto].
  destruct (he_attributes he) as [attrs|].
  - revert H. apply (for_each_invariant P); [|exact H0].
    intros s entry s' [Hs1 (o & Ho & Hf & Hl & Ht)] Hbody.
    unfold handleElementStart_attribute, deref in Hbody. simpl in Hbody.
    destruct (dict_get (fst entry) attributes) as [value|].
    + inv_ok Hbody. subst s'. split; [exact Hs1|]. simpl.
      rewrite list_lookup_insert_eq by (eapply lookup_lt_Some; eauto).
      assert (r1 = o) by congruence. subst r1.
      eexists. split; [reflexivity|].
      destruct (featureTypeIsSTRING lower r0); simpl; auto.
    + inv_ok Hbody. subst s'. split; eauto.
  - inv_ok H. subst h'. exact H0.
Qed.

(** X15: an element that is closed right after it was opened gets an
    object that starts at the monad counter and spans the minimum length of the
    element, but never less than one monad; its address goes from the stack of
    open objects of its type to the finished objects, and the stack is what it
    was before.  The monad counter advances by the minimum length when that
    exceeds 1; otherwise it stays, so that the next token is minted at the
    monad that the object occupies. *)
Theorem element_without_content_spans_its_minimum
    lower (h h1 : Handler) (tag : pystr) (attributes : dict pystr)
    (he : HandledElement) :
  dict_get tag (handled h) = Some he ->
  handleElementStart lower h tag attributes = Ok h1 ->
  exists h2 o,
    handleElementEnd h1 tag = Ok h2
    /\ objstacks h2 !! he_objectTypeName he
       = Some (default [] (objstacks h !! he_objectTypeName he))
    /\ objects h2 !! he_objectTypeName he
       = Some (default [] (objects h !! he_objectTypeName he) ++ [length (store h)])
    /\ store h2 !! length (store h) = Some o
    /\ SRObject.fm o = curmonad h
    /\ SRObject.lm o
       = curmonad h + Z.max 1 (default 1 (he_minimumMonadLength he)) - 1
    /\ curmonad h2
       = (if decide (default 1 (he_minimumMonadLength he) <= 1) then curmonad h
          else curmonad h + default 1 (he_minimumMonadLength he)).
Proof.
  intros Hhe H.
  pose proof (handleElementStart_same_text_state (fun _ => []) _ _ _ _ _ H)
    as (_ & _ & _ & Hscr & _).
  destruct (handleElementStart_opens _ _ _ _ _ _ Hhe H)
    as (Hstack & (o1 & Ho1 & Hfm & Hlm & Hty) & Hob & Hm).
  assert (Hhe1 : dict_get tag (handled h1) = Some he)
    by (unfold handled in *; rewrite Hscr; exact Hhe).
  destruct (handleElementEnd_closes h1 tag he _ _ _ o1 Hhe1 Hstack
              (list_pop_snoc _ _) Ho1 Hty)
    as (h2 & o & Hend & Hs2 & Hob2 & Ho & HL & Hfm' & Hvalid & _ & Hsame & Hpad).
  exists h2, o. rewrite Hob in Hob2.
  split; [exact Hend|]. split; [exact Hs2|]. split; [exact Hob2|].
  split; [exact Ho|]. split; [congruence|].
  assert (Hlen : SRObject.getMonadLength (SRObject.setLastMonad o1 (curmonad h1 - 1)) = 1).
  { unfold SRObject.getMonadLength. rewrite setLastMonad_lm. simpl. lia. }
  rewrite Hlen in Hsame, Hpad.
  destruct (decide (default 1 (he_minimumMonadLength he) <= 1)) as [Hle|Hgt].
  - destruct (Hsame Hle) as [-> ->]. rewrite setLastMonad_lm. split; lia.
  - destruct Hpad as [Hpad1 Hpad2]; [lia|].
    unfold SRObject.getMonadLength in Hpad1. split; lia.
Qed.

Lemma element_without_content_spans_its_minimum_witness :
  exists h2 o,
    handleElementEnd
      (the_state (handleElementStart lower_ascii fresh_handler (u "p") [])) (u "p")
    = Ok h2
    /\ store h2 !! 0%nat = Some o
    /\ SRObject.fm o = 1 /\ SRObject.lm o = 1 /\ curmonad h2 = 1.
Proof.
  pose proof (element_without_content_spans_its_minimum lower_ascii fresh_handler
                (the_state (handleElementStart lower_ascii fresh_handler (u "p") []))
                (u "p") []
                {| he_objectTypeName := u "p";
                   he_tokenObjectTypeName := Some (u "word");
                   he_minimumMonadLength := Some 1;
                   he_attributes := None;
                   he_objectRangeType := None |}) as K.
  destruct K as (h2 & o & K1 & _ & _ & K4 & K5 & K6 & K7).
  - vm_compute. reflexivity.
  - vm_compute. reflexivity.
  - exists h2, o. split; [exact K1|]. split; [exact K4|].
    split; [exact K5|]. split; [exact K6|exact K7].
Defined.

(** A start tag of a handled element outside nixed subtrees. *)
Lemma startElement_handled tokenize_string lower h tag attributes :
  nixing_stack h = [] ->
  tag ∉ nixed_elements h ->
  tag ∈ handled_elements h ->
  startElement tokenize_string lower h tag attributes
  = handleElementStart lower
      (set_charstack [] (set_elemstack (elemstack h ++ [tag]) h)) tag attributes.
Proof.
  intros Hnix Hout Hin. unfold startElement. cbv zeta.
  rewrite handleChars_start. simpl. rewrite Hnix. simpl.
  repeat case_decide; try reflexivity; try tauto; congruence.
Qed.

(** An end tag of a handled element outside nixed subtrees: the flush,
    then the closing of the object. *)
Lemma endElement_handled tokenize_string h tag h' :
  nixing_stack h = [] ->
  tag ∈ handled_elements h ->
  endElement tokenize_string h tag = Ok h' ->
  exists h1 h2,
    handleChars tokenize_string (set_charstack [] h) (concat (charstack h)) tag true
    = Ok h1
    /\ handleElementEnd h1 tag = Ok h2
    /\ store h' = store h2 /\ objects h' = objects h2
    /\ objstacks h' = objstacks h2 /\ tokens h' = tokens h2
    /\ curmonad h' = curmonad h2.
Proof.
  intros Hnix Hin H. unfold endElement in H. cbv zeta in H. inv_ok H. subst h'.
  pose proof (handleChars_frame _ id _ _ _ _ _ Hr) as (_ & _ & _ & _ & _ & Hn & _).
  pose proof (handleChars_static_eq _ _ _ _ _ _ Hr) as (_ & _ & Hh & _).
  simpl in Hn, Hh. rewrite Hnix in Hn.
  exists r, r0. split; [exact Hr|]. simpl.
  rewrite Hn in Hr0. simpl in Hr0.
  repeat case_decide; try (exfalso; simpl in *; tauto); try (exfalso; congruence).
  tauto.
Qed.

(** X16: the span of an object covers the tokens of its element.  When a
    handled element is opened outside nixed subtrees, whatever follows leaves
    the stack of open objects of its type as it was after the start tag, and
    the element is closed, then its object is finished, it starts at the monad
    at which the counter stood at the start tag, and every token minted since
    the start tag, including those of the text before the end tag, has its
    monad within the span of the object. *)
Theorem object_span_covers_its_tokens
    tokenize_string lower (scr : Script) (first_monad first_id_d : Z)
    (hinit h0 h1 h2 h3 : Handler) (before inner : list event)
    (tag : pystr) (attributes : dict pystr) (he : HandledElement) :
  init scr first_monad first_id_d = Ok hinit ->
  parse tokenize_string lower hinit before = Ok h0 ->
  dict_get tag (script_handled_elements scr) = Some he ->
  tag ∉ script_nixed_elements scr ->
  nixing_stack h0 = [] ->
  startElement tokenize_string lower h0 tag attributes = Ok h1 ->
  for_each (handle_event tokenize_string lower) inner h1 = Ok h2 ->
  objstacks h2 !! he_objectTypeName he = objstacks h1 !! he_objectTypeName he ->
  nixing_stack h2 = [] ->
  endElement tokenize_string h2 tag = Ok h3 ->
  exists o,
    store h3 !! length (store h0) = Some o
    /\ objects h3 !! he_objectTypeName he
       = Some (default [] (objects h2 !! he_objectTypeName he) ++ [length (store h0)])
    /\ SRObject.objectTypeName o = he_objectTypeName he
    /\ SRObject.fm o = curmonad h0
    /\ SRObject.fm o <= SRObject.lm o
    /\ (forall ty l k t,
          tokens h3 !! ty = Some l -> l !! k = Some t ->
          curid_d h0 <= Token.id_d t ->
          SRObject.fm o <= Token.monad t <= SRObject.lm o).
Proof.
  intros Hinit Hbefore Hhe Hnotnixed Hnix0 Hstart Hinner Hstack Hnix2 Hend.
  pose proof (init_classification _ _ _ _ Hinit) as (Cn & _ & Ch & _).
  pose proof (init_ids_inv _ _ _ _ Hinit) as Hids.
  apply (parse_ids_inv _ _ _ _ _ _ Hbefore) in Hids.
  destruct Hids as (_ & Hrange & _).
  apply init_Ok in Hinit. destruct Hinit as (_ & _ & _ & Hscr & _).
  rewrite parse_for_each in Hbefore.
  pose proof (for_each_static_eq _ _ _ _ _ Hbefore) as (S1 & _ & S3 & S4 & _).
  pose proof (startElement_stacks _ _ _ _ _ _ Hstart) as ((T1 & _ & T3 & T4 & _) & _).
  pose proof (for_each_static_eq _ _ _ _ _ Hinner) as (U1 & _ & U3 & U4 & _).
  assert (Hscr0 : script h0 = scr) by congruence.
  assert (Hin0 : tag ∈ handled_elements h0) by (rewrite S3; apply Ch; eauto).
  assert (Hout0 : tag ∉ nixed_elements h0) by (rewrite S1, Cn; exact Hnotnixed).
  (* the start tag opens the object *)
  pose proof (startElement_discards_text _ _ _ _ _ _ Hstart) as (_ & Dt & Dm & Di).
  rewrite (startElement_handled _ _ _ _ _ Hnix0 Hout0 Hin0) in Hstart.
  assert (Hhe0 : dict_get tag
                   (handled (set_charstack [] (set_elemstack (elemstack h0 ++ [tag]) h0)))
                 = Some he) by (unfold handled; simpl; rewrite Hscr0; exact Hhe).
  destruct (handleElementStart_opens _ _ _ _ _ _ Hhe0 Hstart)
    as (Hopen & (o1 & Ho1 & Hfm1 & _ & Hty1) & _).
  simpl in Hopen, Ho1, Hfm1.
  (* the events in between keep the object and its first monad *)
  destruct (for_each_store_le _ _ _ _ _ Hinner _ _ Ho1) as (o2 & Ho2 & Hfm2 & Hty2).
  (* the end tag *)
  assert (Hin2 : tag ∈ handled_elements h2) by congruence.
  destruct (endElement_handled _ _ _ _ Hnix2 Hin2 Hend)
    as (f & c & Hflush & Hclose & E1 & E2 & E3 & E4 & E5).
  pose proof (handleChars_frame _ id _ _ _ _ _ Hflush)
    as (Fs & Fst & Fos & Fob & _).
  simpl in Fs, Fst, Fos, Fob.
  assert (Hhef : dict_get tag (handled f) = Some he)
    by (unfold handled; rewrite Fs; congruence).
  assert (Hstackf : objstacks f !! he_objectTypeName he
                    = Some (default [] (objstacks h0 !! he_objectTypeName he)
                            ++ [length (store h0)])) by congruence.
  assert (Hof : store f !! length (store h0) = Some o2) by congruence.
  assert (Htyf : SRObject.objectTypeName o2 = he_objectTypeName he) by congruence.
  destruct (handleElementEnd_closes f tag he _ _ _ o2 Hhef Hstackf
              (list_pop_snoc _ _) Hof Htyf)
    as (c' & o & Hclose' & _ & Hob & Ho & HL & Hfm & Hvalid & _ & Hsame & Hpad).
  assert (c' = c) by congruence. subst c'.
  exists o. rewrite E1, E2, E4.
  split; [exact Ho|]. split; [rewrite Hob, Fob; reflexivity|].
  assert (Hty : SRObject.objectTypeName o = he_objectTypeName he).
  { destruct (handleElementEnd_store_le _ _ _ Hclose _ _ Hof) as (o' & Ho' & _ & Hty').
    congruence. }
  split; [exact Hty|]. split; [congruence|]. split; [exact Hvalid|].
  (* the last monad is not below the last monad handed out *)
  assert (Hlm : curmonad f - 1 <= SRObject.lm o).
  { destruct (Z.le_gt_cases (default 1 (he_minimumMonadLength he))
                (SRObject.getMonadLength (SRObject.setLastMonad o2 (curmonad f - 1))))
      as [Hle|Hgt].
    - destruct (Hsame Hle) as [-> _]. rewrite setLastMonad_lm. lia.
    - destruct (Hpad Hgt) as [Hlen _].
      unfold SRObject.getMonadLength in Hlen, Hgt.
      rewrite setLastMonad_lm in Hgt. simpl in Hgt. lia. }
  (* the tokens minted since the start tag *)
  assert (M0 : minted_since (curmonad h0) (curid_d h0) h0).
  { split; [lia|]. intros ty l k t Hl Ht Hid.
    specialize (Hrange _ _ _ _ Hl Ht). lia. }
  assert (M1 : minted_since (curmonad h0) (curid_d h0) h1).
  { eapply minted_since_frame; eauto. lia. }
  assert (M2 : minted_since (curmonad h0) (curid_d h0) h2).
  { revert Hinner.
    apply (for_each_token_invariant tokenize_string lower
             (minted_since (curmonad h0) (curid_d h0))); [| |exact M1].
    - intros s ty p t x s' Hs Hbody. eapply createToken_minted_since; eauto.
    - intros s s' Hs Ht _ Hm _. eapply minted_since_frame; eauto. }
  assert (Mf : minted_since (curmonad h0) (curid_d h0) f).
  { revert Hflush.
    apply (handleChars_token_invariant tokenize_string
             (minted_since (curmonad h0) (curid_d h0))).
    - intros s ty p t x s' Hs Hbody. eapply createToken_minted_since; eauto.
    - apply (minted_since_frame _ _ h2); [exact M2|reflexivity|simpl; lia]. }
  pose proof (handleElementEnd_frame (fun _ => []) id _ _ _ Hclose) as (Gt & _).
  intros ty l k t Hl Ht Hid. rewrite Gt in Hl.
  destruct Mf as (_ & Mf). specialize (Mf _ _ _ _ Hl Ht Hid).
  rewrite Hfm, Hfm2, Hfm1. lia.
Qed.

Lemma object_span_covers_its_tokens_witness :
  exists o,
    store after_hi_there !! 0%nat = Some o
    /\ SRObject.fm o = 1
    /\ (forall ty l k t,
          tokens after_hi_there !! ty = Some l -> l !! k = Some t ->
          0 <= Token.id_d t ->
          SRObject.fm o <= Token.monad t <= SRObject.lm o).
Proof.
  pose proof (object_span_covers_its_tokens tokenize_ws lower_ascii
                script_p_note 1 0 fresh_handler fresh_handler
                (state_after script_p_note [StartElement (u "p") []])
                (state_after script_p_note
                   [StartElement (u "p") []; Characters (u "Hi there")])
                after_hi_there [] [Characters (u "Hi there")]
                (u "p") []
                {| he_objectTypeName := u "p";
                   he_tokenObjectTypeName := Some (u "word");
                   he_minimumMonadLength := Some 1;
                   he_attributes := None;
                   he_objectRangeType := None |}) as K.
  destruct K as (o & K1 & _ & _ & K4 & _ & K6).
  - vm_compute. reflexivity.
  - vm_compute. reflexivity.
  - vm_compute. reflexivity.
  - apply (bool_decide_unpack _). vm_compute. exact I.
  - vm_compute. reflexivity.
  - vm_compute. reflexivity.
  - vm_compute. reflexivity.
  - vm_compute. reflexivity.
  - vm_compute. reflexivity.
  - vm_compute. reflexivity.
  - exists o. split; [exact K1|]. split; [exact K4|exact K6].
Defined.

Lemma for_each_ext {A S : Type} (f g : S -> A -> result S) (l : list A) :
  (forall s a, a ∈ l -> f s a = g s a) ->
  forall s, for_each f l s = for_each g l s.
Proof.
  induction l as [|a l IH]; intros H s; simpl; [reflexivity|].
  rewrite (H s a) by (apply elem_of_cons; auto).
  destruct (g s a) as [s'|e]; simpl; [|reflexivity].
  apply IH. intros s0 a0 Ha0. apply H. apply elem_of_cons. auto.
Qed.

(** X17: opening the object of an element reads the attributes that the
    script declares for the element and no others: two start tags of the same
    element whose attribute lists agree on every declared attribute have the
    same effect (the same new state or the same exception), whatever else the
    lists hold and in whatever order; for an element without declared
    attributes the attribute list is not looked at. *)
Theorem handleElementStart_reads_declared_attributes_only
    lower (h : Handler) (tag : pystr) (attributes1 attributes2 : dict pystr) :
  (forall he declared key,
     dict_get tag (handled h) = Some he ->
     he_attributes he = Some declared ->
     key ∈ dict_keys declared ->
     dict_get key attributes1 = dict_get key attributes2) ->
  handleElementStart lower h tag attributes1
  = handleElementStart lower h tag attributes2.
Proof.
  intros H. unfold handleElementStart.
  destruct (dict_get tag (handled h)) as [he|] eqn:Hhe; [|reflexivity].
  destruct (he_attributes he) as [declared|] eqn:Hattrs; [|reflexivity].
  apply for_each_ext. intros s entry Hentry.
  unfold handleElementStart_attribute.
  rewrite (H he declared (fst entry) eq_refl Hattrs); [reflexivity|].
  unfold dict_keys. apply list_elem_of_fmap. eauto.
Qed.

Lemma handleElementStart_reads_declared_attributes_only_witness :
  handleElementStart lower_ascii attribute_handler (u "p")
    [(u "class", u "c"); (u "id", u "x")]
  = handleElementStart lower_ascii attribute_handler (u "p")
      [(u "id", u "x"); (u "lang", u "la")].
Proof.
  apply handleElementStart_reads_declared_attributes_only.
  intros he declared key Hhe Hattrs Hkey.
  vm_compute in Hhe. injection Hhe as <-.
  vm_compute in Hattrs. injection Hattrs as <-.
  apply list_elem_of_singleton in Hkey. subst key. reflexivity.
Defined.

(** ** Writing the MQL *)

Lemma mod_succ (k m : Z) :
  0 < m -> 0 <= k ->
  (k + 1) mod m = (if k mod m + 1 =? m then 0 else k mod m + 1).
Proof.
  intros Hm Hk. pose proof (Z.mod_pos_bound k m Hm) as Hb.
  pose proof (Z.div_mod k m ltac:(lia)) as Hdm.
  destruct (Z.eqb_spec (k mod m + 1) m) as [E|E].
  - symmetry. apply (Z.mod_unique _ _ (k / m + 1)); lia.
  - symmetry. apply (Z.mod_unique _ _ (k / m)); lia.
Qed.

Lemma dumpMQLObjectType_loop_blocks {A : Type} (dump : A -> output * option exn)
    (max : Z) (objectTypeName : pystr) (object_list : list A) :
  0 < max ->
  (forall obj, obj ∈ object_list -> snd (dump obj) = None) ->
  forall (k : nat) (count : Z),
    count = Z.of_nat k mod max ->
    dumpMQLObjectType_loop dump max objectTypeName count object_list
    = (concat (imap (fun i => statement_block dump max objectTypeName (k + i))
                 object_list),
       None).
Proof.
  intros Hmax. induction object_list as [|obj rest IH]; intros Hok k count Hcount.
  - reflexivity.
  - cbn [dumpMQLObjectType_loop]. rewrite imap_cons. cbn [concat].
    assert (Hobj : snd (dump obj) = None) by (apply Hok, elem_of_cons; auto).
    destruct (dump obj) as [out e] eqn:Hdump. simpl in Hobj. subst e.
    assert (Hmod : Z.of_nat (S k) mod max
                   = (if count + 1 =? max then 0 else count + 1)).
    { rewrite Nat2Z.inj_succ, <- Z.add_1_r, Hcount. apply mod_succ; lia. }
    unfold statement_block at 1. rewrite Nat.add_0_r, Hmod, Hdump. cbn [fst].
    rewrite (IH (fun o Ho => Hok o (proj2 (elem_of_cons _ _ _) (or_intror Ho)))
               (S k) (if count + 1 =? max then 0 else count + 1)
               (eq_sym Hmod)).
    assert (Hsep : ((if count + 1 =? max then 0 else count + 1) =? 0)
                   = (count + 1 =? max)).
    { pose proof (Z.mod_pos_bound (Z.of_nat k) max Hmax).
      destruct (Z.eqb_spec (count + 1) max); [reflexivity|].
      apply Z.eqb_neq. lia. }
    rewrite Hsep. rewrite <- app_assoc. do 4 f_equal.
    apply imap_ext. intros i o _. simpl. f_equal. lia.
Qed.

(** X18: the statements of [dumpMQLObjectType].  When no object fails to
    be written, the output is the header, the objects in the order of the list
    and a final GO without a line break; a statement is ended, and a new one
    begun with the same header, right before every object whose place in the
    list, counted from 1, is a multiple of 50000.  So the first statement holds
    49999 objects, every later one at most 50000, and a list of fewer than
    50000 objects is written as one statement. *)
Theorem dumpMQLObjectType_statements {A : Type} (dump : A -> output * option exn)
    (objectTypeName : pystr) (object_list : list A) :
  (forall obj, obj ∈ object_list -> snd (dump obj) = None) ->
  dumpMQLObjectType dump objectTypeName object_list
  = (statement_header objectTypeName
       :: concat (imap (statement_block dump max_in_statement objectTypeName)
                    object_list)
       ++ [u "GO"],
     None)
  /\ (Z.of_nat (length object_list) < max_in_statement ->
      dumpMQLObjectType dump objectTypeName object_list
      = (statement_header objectTypeName
           :: flat_map (fun obj => fst (dump obj)) object_list ++ [u "GO"],
         None)).
Proof.
  intros Hok.
  assert (E : dumpMQLObjectType dump objectTypeName object_list
              = (statement_header objectTypeName
                   :: concat (imap (statement_block dump max_in_statement
                                      objectTypeName) object_list)
                   ++ [u "GO"], None)).
  { unfold dumpMQLObjectType.
    rewrite (dumpMQLObjectType_loop_blocks dump max_in_statement objectTypeName
               object_list ltac:(reflexivity) Hok 0 0 ltac:(reflexivity)).
    reflexivity. }
  split; [exact E|].
  intros Hlen. rewrite E. f_equal. f_equal. f_equal.
  assert (G : forall (l : list A) (k : nat),
             Z.of_nat (k + length l) < 50000 ->
             concat (imap (fun i => statement_block dump max_in_statement
                                      objectTypeName (k + i)) l)
             = flat_map (fun obj => fst (dump obj)) l).
  { induction l as [|obj rest IH]; intros k Hk; [reflexivity|].
    rewrite imap_cons. cbn [concat flat_map]. f_equal.
    - unfold statement_block, max_in_statement.
      rewrite Z.mod_small by (simpl length in Hk; lia).
      destruct (Z.eqb_spec (Z.of_nat (S (k + 0))) 0); [lia|reflexivity].
    - rewrite <- (IH (S k)) by (simpl length in Hk; lia).
      f_equal. apply imap_ext. intros i o _. simpl. f_equal. lia. }
  apply (G object_list 0%nat). unfold max_in_statement in Hlen. simpl. lia.
Qed.

Lemma dumpMQLObjectType_statements_witness :
  dumpMQLObjectType (Token.dumpMQL lower_ascii) (u "word")
    (tokens_of after_hi_there (u "word"))
  = (statement_header (u "word")
       :: flat_map (fun t => fst (Token.dumpMQL lower_ascii t))
            (tokens_of after_hi_there (u "word"))
       ++ [u "GO"],
     None).
Proof.
  pose proof (dumpMQLObjectType_statements (Token.dumpMQL lower_ascii) (u "word")
                (tokens_of after_hi_there (u "word"))) as K.
  destruct K as (_ & K).
  - intros t Ht. vm_compute in Ht.
    apply elem_of_cons in Ht. destruct Ht as [->|Ht]; [vm_compute; reflexivity|].
    apply list_elem_of_singleton in Ht. subst t. vm_compute. reflexivity.
  - apply K. vm_compute. reflexivity.
Defined.

Lemma dumpMQLObjectType_loop_ext {A : Type} (dump1 dump2 : A -> output * option exn)
    (max : Z) (objectTypeName : pystr) (object_list : list A) :
  (forall obj, obj ∈ object_list -> dump1 obj = dump2 obj) ->
  forall count,
    dumpMQLObjectType_loop dump1 max objectTypeName count object_list
    = dumpMQLObjectType_loop dump2 max objectTypeName count object_list.
Proof.
  induction object_list as [|obj rest IH]; intros H count; [reflexivity|].
  cbn [dumpMQLObjectType_loop].
  rewrite (H obj) by (apply elem_of_cons; auto).
  rewrite IH by (intros o Ho; apply H, elem_of_cons; auto). reflexivity.
Qed.

Lemma dumpMQLObjectType_ext {A : Type} (dump1 dump2 : A -> output * option exn)
    (objectTypeName : pystr) (object_list : list A) :
  (forall obj, obj ∈ object_list -> dump1 obj = dump2 obj) ->
  dumpMQLObjectType dump1 objectTypeName object_list
  = dumpMQLObjectType dump2 objectTypeName object_list.
Proof.
  intros H. unfold dumpMQLObjectType.
  rewrite (dumpMQLObjectType_loop_ext dump1 dump2 _ _ _ H). reflexivity.
Qed.

Lemma write_all_ext {A : Type} (write1 write2 : A -> output * option exn)
    (l : list A) :
  (forall a, write1 a = write2 a) -> write_all write1 l = write_all write2 l.
Proof.
  intros H. induction l as [|a l IH]; [reflexivity|].
  simpl. rewrite H, IH. reflexivity.
Qed.

(** In a run, the address of an open object is in no collection of
    finished objects. *)
Lemma open_address_not_finished h ty l a ty' l' :
  handler_inv h ->
  objstacks h !! ty = Some l -> a ∈ l ->
  objects h !! ty' = Some l' -> a ∉ l'.
Proof.
  intros (I1 & I2 & _ & I4) Hl Ha Hl' Ha'.
  destruct (I1 _ _ _ Hl Ha) as (o & Ho & Hty & _).
  destruct (I2 _ _ _ Hl' Ha') as (o' & Ho' & Hty' & _).
  assert (E : ty' = ty) by congruence. rewrite E in Hl'.
  exact (I4 _ _ _ _ Hl Hl' Ha Ha').
Qed.

(** X19: what is written does not depend on the objects that are still
    open.  In every state of a run, the address of an open object is in no
    collection of finished objects, and replacing the open object by any other
    changes neither the output of [dumpMQLObjects] nor that of [doCommand]: an
    element that is never closed leaves no trace in the MQL. *)
Theorem open_objects_are_not_written
    tokenize_string lower (scr : Script) (first_monad first_id_d : Z)
    (h0 h : Handler) (events : list event)
    (ty : pystr) (l : list nat) (a : nat) (o' : SRObject.t) :
  init scr first_monad first_id_d = Ok h0 ->
  parse tokenize_string lower h0 events = Ok h ->
  objstacks h !! ty = Some l -> a ∈ l ->
  (forall ty' l', objects h !! ty' = Some l' -> a ∉ l')
  /\ dumpMQLObjects lower (set_store (<[a := o']> (store h)) h)
     = dumpMQLObjects lower h
  /\ doCommand lower (set_store (<[a := o']> (store h)) h) = doCommand lower h.
Proof.
  intros Hinit Hrun Hl Ha.
  assert (Hinv : handler_inv h).
  { eapply parse_handler_inv; eauto. eapply init_handler_inv; eauto. }
  assert (Hout : forall ty' l', objects h !! ty' = Some l' -> a ∉ l')
    by (intros ty' l'; eapply open_address_not_finished; eauto).
  assert (E : dumpMQLObjects lower (set_store (<[a := o']> (store h)) h)
              = dumpMQLObjects lower h).
  { unfold dumpMQLObjects. cbn [objects tokens set_store].
    rewrite (write_all_ext
               (fun name =>
                  dumpMQLObjectType (dump_at (set_store (<[a := o']> (store h)) h))
                    name (default [] (objects h !! name)))
               (fun name =>
                  dumpMQLObjectType (dump_at h) name (default [] (objects h !! name))));
      [reflexivity|].
    intros name. apply dumpMQLObjectType_ext. intros b Hb.
    unfold dump_at. cbn [store set_store].
    destruct (objects h !! name) as [l'|] eqn:Hl'; simpl in Hb.
    - rewrite list_lookup_insert_ne; [reflexivity|].
      intros ->. exact (Hout _ _ Hl' Hb).
    - apply elem_of_nil in Hb. contradiction. }
  split; [exact Hout|]. split; [exact E|].
  unfold doCommand. rewrite E. reflexivity.
Qed.

Lemma open_objects_are_not_written_witness :
  doCommand lower_ascii
    (set_store (<[0%nat := SRObject.init (u "x") 7]>
                  (store (state_after script_p_note [StartElement (u "p") []])))
       (state_after script_p_note [StartElement (u "p") []]))
  = doCommand lower_ascii (state_after script_p_note [StartElement (u "p") []]).
Proof.
  pose proof (open_objects_are_not_written tokenize_ws lower_ascii
                script_p_note 1 0 fresh_handler
                (state_after script_p_note [StartElement (u "p") []])
                [StartElement (u "p") []] (u "p") [0%nat] 0%nat
                (SRObject.init (u "x") 7)) as K.
  destruct K as (_ & _ & K).
  - vm_compute. reflexivity.
  - vm_compute. reflexivity.
  - vm_compute. reflexivity.
  - apply list_elem_of_singleton. reflexivity.
  - exact K.
Defined.

(** ** JSONGeneratorHandler: names *)

Lemma dict_get_set_eq {V : Type} (k : pystr) (v : V) (d : dict V) :
  dict_get k (dict_set k v d) = Some v.
Proof.
  induction d as [|[k' v'] d IH]; simpl.
  - rewrite decide_True by reflexivity. reflexivity.
  - destruct (decide (k = k')) as [E|E]; simpl.
    + rewrite decide_True by reflexivity. reflexivity.
    + rewrite decide_False by exact E. exact IH.
Qed.

Lemma dict_get_set_ne {V : Type} (k k' : pystr) (v : V) (d : dict V) :
  k' <> k -> dict_get k' (dict_set k v d) = dict_get k' d.
Proof.
  intros Hne. induction d as [|[k0 v0] d IH]; simpl.
  - rewrite decide_False by exact Hne. reflexivity.
  - destruct (decide (k = k0)) as [E|E]; simpl.
    + subst k0. rewrite !decide_False by exact Hne. reflexivity.
    + destruct (decide (k' = k0)); [reflexivity|exact IH].
Qed.

Lemma dict_get_Some_keys {V : Type} (k : pystr) (v : V) (d : dict V) :
  dict_get k d = Some v -> k ∈ dict_keys d.
Proof.
  induction d as [|[k' v'] d IH]; simpl; [discriminate|].
  destruct (decide (k = k')) as [->|E]; intros H.
  - apply elem_of_cons. auto.
  - apply elem_of_cons. right. apply IH, H.
Qed.

Lemma identifier_char_lower_cases (c : N) :
  ((97 <= identifier_char_lower c <= 122)%N
   \/ (48 <= identifier_char_lower c <= 57)%N
   \/ identifier_char_lower c = 95%N)
  /\ ((48 <= identifier_char_lower c <= 57)%N
      <-> (48 <= JSONGeneratorHandler.identifier_char c <= 57)%N).
Proof.
  unfold identifier_char_lower, JSONGeneratorHandler.identifier_char.
  cbv zeta.
  destruct (N.leb_spec 97 c), (N.leb_spec c 122), (N.leb_spec 65 c),
    (N.leb_spec c 90), (N.leb_spec 48 c), (N.leb_spec c 57);
    cbn [andb];
    repeat match goal with
           | |- context [(?a <=? ?b)%N] => destruct (N.leb_spec a b)
           end; cbn [andb]; try lia.
Qed.

Lemma identifier_char_lower_fix (c : N) :
  (97 <= c <= 122)%N \/ (48 <= c <= 57)%N \/ c = 95%N ->
  identifier_char_lower c = c /\ JSONGeneratorHandler.identifier_char c = c.
Proof.
  unfold identifier_char_lower, JSONGeneratorHandler.identifier_char.
  cbv zeta. intros H.
  destruct (N.leb_spec 97 c), (N.leb_spec c 122), (N.leb_spec 65 c),
    (N.leb_spec c 90), (N.leb_spec 48 c), (N.leb_spec c 57);
    cbn [andb];
    repeat match goal with
           | |- context [(?a <=? ?b)%N] => destruct (N.leb_spec a b)
           end; cbn [andb]; try lia.
Qed.

Lemma makeIdentifier_eq (s : pystr) :
  JSONGeneratorHandler.makeIdentifier s
  = match s with
    | [] => [95%N]
    | c :: _ =>
        (if ((48 <=? JSONGeneratorHandler.identifier_char c)
             && (JSONGeneratorHandler.identifier_char c <=? 57))%N
         then [95%N] else [])
        ++ map identifier_char_lower s
    end.
Proof.
  unfold JSONGeneratorHandler.makeIdentifier, lower_ascii, identifier_char_lower.
  destruct s as [|c r]; [reflexivity|]. cbn [map].
  destruct ((48 <=? JSONGeneratorHandler.identifier_char c)
            && (JSONGeneratorHandler.identifier_char c <=? 57))%N;
    cbn [map app]; rewrite map_map; reflexivity.
Qed.

(** X20: [makeIdentifier] always returns an identifier in lower case: a
    string that is not empty, consists of lower-case ASCII letters, digits and
    underscores, and does not start with a digit.  A string that already is
    such an identifier is returned unchanged; so the function is idempotent. *)
Theorem makeIdentifier_makes_identifiers (instring : pystr) :
  identifier_ok (JSONGeneratorHandler.makeIdentifier instring)
  /\ (identifier_ok instring -> JSONGeneratorHandler.makeIdentifier instring = instring)
  /\ JSONGeneratorHandler.makeIdentifier (JSONGeneratorHandler.makeIdentifier instring)
     = JSONGeneratorHandler.makeIdentifier instring.
Proof.
  assert (Hok : forall s, identifier_ok (JSONGeneratorHandler.makeIdentifier s)).
  { intros s. rewrite makeIdentifier_eq. destruct s as [|c r].
    - split; [discriminate|]. split.
      + constructor; [auto|constructor].
      + intros c [= <-]. lia.
    - assert (Hall : Forall (fun c => (97 <= c <= 122)%N \/ (48 <= c <= 57)%N
                                      \/ c = 95%N)
                       (map identifier_char_lower (c :: r))).
      { apply Forall_forall. intros x Hx. apply list_elem_of_fmap in Hx.
        destruct Hx as (y & -> & _). apply identifier_char_lower_cases. }
      destruct (N.leb_spec 48 (JSONGeneratorHandler.identifier_char c)) as [H1|H1];
        destruct (N.leb_spec (JSONGeneratorHandler.identifier_char c) 57) as [H2|H2];
        cbn [andb app].
      + split; [discriminate|]. split; [constructor; auto|].
        intros x [= <-]. lia.
      + split; [discriminate|]. split; [exact Hall|].
        intros x [= <-]. rewrite (proj2 (identifier_char_lower_cases c)). lia.
      + split; [discriminate|]. split; [exact Hall|].
        intros x [= <-]. rewrite (proj2 (identifier_char_lower_cases c)). lia.
      + split; [discriminate|]. split; [exact Hall|].
        intros x [= <-]. rewrite (proj2 (identifier_char_lower_cases c)). lia. }
  assert (Hfix : forall s, identifier_ok s -> JSONGeneratorHandler.makeIdentifier s = s).
  { intros s (Hne & Hall & Hhead). rewrite makeIdentifier_eq.
    destruct s as [|c r]; [congruence|].
    assert (Hmap : map identifier_char_lower (c :: r) = c :: r).
    { clear Hne Hhead. induction Hall as [|x l Hx Hl IH]; [reflexivity|].
      cbn [map]. rewrite IH. f_equal. apply identifier_char_lower_fix, Hx. }
    rewrite Hmap.
    pose proof (Forall_inv Hall) as Hc. simpl in Hc.
    rewrite (proj2 (identifier_char_lower_fix c Hc)).
    specialize (Hhead c eq_refl).
    destruct (N.leb_spec 48 c), (N.leb_spec c 57); cbn [andb app];
      try reflexivity. lia. }
  split; [apply Hok|]. split; [apply Hfix|]. apply Hfix, Hok.
Qed.

Lemma extend_suggestion_spec (o2e : dict pystr) (e : pystr) (fuel : nat) :
  forall s n,
    JSONGeneratorHandler.extend_suggestion fuel o2e e s = Some n ->
    (exists k, n = s ++ replicate k 95%N)
    /\ (dict_get n o2e = None \/ dict_get n o2e = Some e).
Proof.
  induction fuel as [|fuel IH]; intros s n H; simpl in H.
  - destruct (dict_get s o2e) as [e'|] eqn:E.
    + case_decide as Hne; [discriminate H|]. injection H as <-.
      split; [exists 0%nat; simpl; rewrite app_nil_r; reflexivity|].
      right. rewrite E. f_equal. destruct (decide (e' = e)); tauto.
    + injection H as <-.
      split; [exists 0%nat; simpl; rewrite app_nil_r; reflexivity|auto].
  - destruct (dict_get s o2e) as [e'|] eqn:E.
    + case_decide as Hne.
      * apply IH in H. destruct H as [[k ->] H]. split; [|exact H].
        exists (S k). rewrite <- app_assoc. reflexivity.
      * injection H as <-.
        split; [exists 0%nat; simpl; rewrite app_nil_r; reflexivity|].
        right. rewrite E. f_equal. destruct (decide (e' = e)); tauto.
    + injection H as <-.
      split; [exists 0%nat; simpl; rewrite app_nil_r; reflexivity|auto].
Qed.

Lemma length_filter_le_mono {A : Type} (P Q : A -> Prop)
    `{!forall a, Decision (P a)} `{!forall a, Decision (Q a)} (l : list A) :
  (forall a, Q a -> P a) -> (length (filter Q l) <= length (filter P l))%nat.
Proof.
  intros HQP. induction l as [|a l IH]; [reflexivity|].
  rewrite !filter_cons.
  destruct (decide (Q a)) as [Hq|Hq], (decide (P a)) as [Hp|Hp]; simpl; try lia.
  exfalso. auto.
Qed.

Lemma length_filter_lt_mono {A : Type} (P Q : A -> Prop)
    `{!forall a, Decision (P a)} `{!forall a, Decision (Q a)} (l : list A) (x : A) :
  (forall a, Q a -> P a) -> x ∈ l -> P x -> ~ Q x ->
  (length (filter Q l) < length (filter P l))%nat.
Proof.
  intros HQP Hx HPx HQx. induction l as [|a l IH]; [inversion Hx|].
  rewrite !filter_cons.
  pose proof (length_filter_le_mono P Q l HQP) as Hle.
  apply elem_of_cons in Hx. destruct Hx as [<-|Hx].
  - rewrite decide_False by exact HQx. rewrite decide_True by exact HPx.
    simpl. lia.
  - specialize (IH Hx).
    destruct (decide (Q a)) as [Hq|Hq], (decide (P a)) as [Hp|Hp]; simpl; try lia.
    exfalso. auto.
Qed.

Lemma long_keys_shrink (o2e : dict pystr) (s : pystr) (e : pystr) :
  dict_get s o2e = Some e ->
  (length (long_keys o2e (s ++ u "_")) < length (long_keys o2e s))%nat.
Proof.
  intros H. apply dict_get_Some_keys in H. unfold long_keys.
  apply (length_filter_lt_mono _ _ _ s).
  - intros k. rewrite length_app. simpl. lia.
  - exact H.
  - lia.
  - rewrite length_app. simpl. lia.
Qed.

Lemma extend_suggestion_terminates (o2e : dict pystr) (e : pystr) (fuel : nat) :
  forall s,
    (length (long_keys o2e s) <= fuel)%nat ->
    is_Some (JSONGeneratorHandler.extend_suggestion fuel o2e e s).
Proof.
  induction fuel as [|fuel IH]; intros s Hfuel; simpl.
  - destruct (dict_get s o2e) as [e'|] eqn:E; [|eauto].
    case_decide; [|eauto].
    pose proof (long_keys_shrink _ _ _ E). lia.
  - destruct (dict_get s o2e) as [e'|] eqn:E; [|eauto].
    case_decide; [|eauto].
    apply IH. pose proof (long_keys_shrink _ _ _ E). lia.
Qed.

(** What [makeObjectTypeName] does in a state in which the dictionaries
    of names are inverse to each other. *)
Lemma makeObjectTypeName_Ok (j : JSONGeneratorHandler.t) (e : pystr) :
  names_inv j ->
  exists j' n,
    JSONGeneratorHandler.makeObjectTypeName j e = Ok (j', n)
    /\ names_inv j'
    /\ dict_get e (JSONGeneratorHandler.element2ObjectTypeName j') = Some n
    /\ (e <> [] -> n <> JSONGeneratorHandler.default_token_name j)
    /\ (forall e' n',
          dict_get e' (JSONGeneratorHandler.element2ObjectTypeName j) = Some n' ->
          dict_get e' (JSONGeneratorHandler.element2ObjectTypeName j') = Some n'
          /\ (e' <> e -> n' <> n))
    /\ JSONGeneratorHandler.script j' = JSONGeneratorHandler.script j
    /\ same_stacks j j'.
Proof.
  intros (Hinv & Hdef & Hform). unfold JSONGeneratorHandler.makeObjectTypeName.
  destruct (dict_get e (JSONGeneratorHandler.element2ObjectTypeName j))
    as [n|] eqn:He.
  - exists j, n. split; [reflexivity|]. split; [repeat split; assumption|].
    split; [exact He|].
    pose proof (Hinv _ _ He) as Hn.
    split; [|split; [|split; [reflexivity|unfold same_stacks; tauto]]].
    + intros Hne ->. congruence.
    + intros e' n' He'. split; [exact He'|]. intros Hne ->.
      pose proof (Hinv _ _ He'). congruence.
  - destruct (extend_suggestion_terminates
                (JSONGeneratorHandler.objectTypeName2Element j) e
                (length (JSONGeneratorHandler.objectTypeName2Element j))
                (JSONGeneratorHandler.makeIdentifier e)) as [n Hn].
    { unfold long_keys, dict_keys.
      etransitivity; [apply length_filter|]. rewrite length_map. reflexivity. }
    rewrite Hn. destruct (extend_suggestion_spec _ _ _ _ _ Hn) as [Hk Hfree].
    assert (Hfresh : forall e' n',
               dict_get e' (JSONGeneratorHandler.element2ObjectTypeName j) = Some n' ->
               n' <> n).
    { intros e' n' He' ->. pose proof (Hinv _ _ He') as Ho.
      destruct Hfree as [Hf|Hf]; [congruence|].
      assert (e' = e) by congruence. subst e'. congruence. }
    assert (Hnd : e <> [] -> n <> JSONGeneratorHandler.default_token_name j).
    { intros Hne ->. destruct Hfree as [Hf|Hf]; congruence. }
    eexists _, n. split; [reflexivity|].
    split; [|split; [|split; [|split; [|split]]]].
    + split; [|split]; simpl.
      * intros e1 n1 H1. destruct (decide (e1 = e)) as [->|Hne].
        -- rewrite dict_get_set_eq in H1. injection H1 as <-.
           apply dict_get_set_eq.
        -- rewrite dict_get_set_ne in H1 by exact Hne.
           rewrite dict_get_set_ne by (eapply Hfresh; eauto). auto.
      * destruct (decide (JSONGeneratorHandler.default_token_name j = n)) as [E|E].
        -- rewrite E, dict_get_set_eq. f_equal.
           destruct (decide (e = [])) as [->|Hne]; [reflexivity|].
           exfalso. apply (Hnd Hne). auto.
        -- rewrite dict_get_set_ne by exact E. exact Hdef.
      * intros e1 n1 H1. destruct (decide (e1 = e)) as [->|Hne].
        -- rewrite dict_get_set_eq in H1. injection H1 as <-. exact Hk.
        -- rewrite dict_get_set_ne in H1 by exact Hne. eauto.
    + simpl. apply dict_get_set_eq.
    + exact Hnd.
    + intros e' n' He'. simpl.
      assert (e' <> e) by congruence.
      rewrite dict_get_set_ne by assumption. split; [exact He'|].
      intros _. eapply Hfresh; eauto.
    + reflexivity.
    + unfold same_stacks. simpl. tauto.
Qed.

Lemma names_inv_init (default_token_name : pystr) :
  names_inv (JSONGeneratorHandler.init default_token_name).
Proof.
  split; [|split]; simpl.
  - discriminate.
  - rewrite decide_True by reflexivity. reflexivity.
  - discriminate.
Qed.

(** X21: [makeObjectTypeName] always returns (its loop ends), and it
    keeps the elements apart.  In a state in which the two dictionaries of
    names are inverse to each other, as they are in a new handler, the call
    returns a name that is the identifier of the element followed by zero or
    more underscores, leaves the dictionaries inverse to each other, and
    returns the same name, without changing anything, when it is called again
    for the same element.  The names of the other elements stay what they were
    and differ from the new one, and the name of an element with a non-empty
    name is never the default token name. *)
Theorem makeObjectTypeName_keeps_elements_apart
    (j : JSONGeneratorHandler.t) (element_name : pystr) :
  names_inv j ->
  exists j' name,
    JSONGeneratorHandler.makeObjectTypeName j element_name = Ok (j', name)
    /\ names_inv j'
    /\ JSONGeneratorHandler.makeObjectTypeName j' element_name = Ok (j', name)
    /\ (exists k,
          name = JSONGeneratorHandler.makeIdentifier element_name ++ replicate k 95%N)
    /\ (element_name <> [] -> name <> JSONGeneratorHandler.default_token_name j)
    /\ (forall e' n',
          dict_get e' (JSONGeneratorHandler.element2ObjectTypeName j) = Some n' ->
          dict_get e' (JSONGeneratorHandler.element2ObjectTypeName j') = Some n'
          /\ (e' <> element_name -> n' <> name)).
Proof.
  intros Hinv.
  destruct (makeObjectTypeName_Ok j element_name Hinv)
    as (j' & n & Hcall & Hinv' & Hget & Hdef & Hothers & _).
  exists j', n. split; [exact Hcall|]. split; [exact Hinv'|].
  split; [|split; [|split; [exact Hdef|exact Hothers]]].
  - unfold JSONGeneratorHandler.makeObjectTypeName. rewrite Hget. reflexivity.
  - destruct Hinv' as (_ & _ & Hform). eauto.
Qed.

Lemma makeObjectTypeName_keeps_elements_apart_witness :
  exists j' name,
    JSONGeneratorHandler.makeObjectTypeName (JSONGeneratorHandler.init (u "word"))
      (u "Word") = Ok (j', name)
    /\ names_inv j'.
Proof.
  destruct (makeObjectTypeName_keeps_elements_apart
              (JSONGeneratorHandler.init (u "word")) (u "Word"))
    as (j' & name & K1 & K2 & _).
  - split; [|split]; simpl.
    + discriminate.
    + vm_compute. reflexivity.
    + discriminate.
  - exists j', name. split; assumption.
Defined.

(** ** JSONGeneratorHandler: the generated script *)

Lemma script_grows_refl j : script_grows j j.
Proof. intros tag he H. exists he. auto. Qed.

Lemma script_grows_trans j1 j2 j3 :
  script_grows j1 j2 -> script_grows j2 j3 -> script_grows j1 j3.
Proof.
  intros H12 H23 tag he H.
  destruct (H12 tag he H) as (he2 & H2 & N2 & D2 & T2).
  destruct (H23 tag he2 H2) as (he3 & H3 & N3 & D3 & T3).
  exists he3. repeat split; auto. congruence.
Qed.

Lemma declare_attributes_lookup (keys : list pystr) :
  forall (declared : dict AttributeSpec) (key : pystr),
    dict_get key
      (fold_left
         (fun declared key =>
            dict_set key
              [ (u "featureName", JSONGeneratorHandler.makeIdentifier key);
                (u "featureType", u "STRING") ] declared)
         keys declared)
    = if decide (key ∈ keys) then Some (standard_spec key)
      else dict_get key declared.
Proof.
  induction keys as [|k keys IH]; intros declared key; cbn [fold_left].
  - destruct (decide (key ∈ [])) as [H|H]; [inversion H|reflexivity].
  - rewrite IH.
    destruct (decide (key ∈ keys)) as [Hin|Hout],
             (decide (key ∈ k :: keys)) as [Hin'|Hout'];
      try reflexivity.
    + exfalso. apply Hout', elem_of_cons. auto.
    + apply elem_of_cons in Hin'. destruct Hin' as [->|Hin']; [|contradiction].
      apply dict_get_set_eq.
    + apply dict_get_set_ne. intros ->. apply Hout', elem_of_cons. auto.
Qed.

Lemma updateTokenObjectTypeName_inv j element_name :
  json_inv j ->
  json_inv (JSONGeneratorHandler.updateTokenObjectTypeName j element_name)
  /\ script_grows j (JSONGeneratorHandler.updateTokenObjectTypeName j element_name)
  /\ same_stacks j (JSONGeneratorHandler.updateTokenObjectTypeName j element_name)
  /\ (forall tag,
        is_Some (dict_get tag (JSONGeneratorHandler.handled j))
        <-> is_Some (dict_get tag
                       (JSONGeneratorHandler.handled
                          (JSONGeneratorHandler.updateTokenObjectTypeName j
                             element_name)))).
Proof.
  intros Hinv. unfold JSONGeneratorHandler.updateTokenObjectTypeName.
  destruct (dict_get element_name (JSONGeneratorHandler.handled j)) as [he|] eqn:Hhe.
  - destruct Hinv as (Hn & H1 & H2 & H3 & H4 & H5 & Hel).
    split; [|split; [|split]].
    + split; [exact Hn|]. do 5 (split; [assumption|]).
      intros tag he' Hget. unfold JSONGeneratorHandler.handled in Hget.
      simpl in Hget. unfold element_ok. simpl.
      destruct (decide (tag = element_name)) as [->|Hne].
      * rewrite dict_get_set_eq in Hget. injection Hget as <-. simpl.
        destruct (Hel _ _ Hhe) as (E1 & E2 & E3 & E4 & E5). auto.
      * rewrite dict_get_set_ne in Hget by exact Hne. apply (Hel _ _ Hget).
    + intros tag he' Hget. unfold JSONGeneratorHandler.handled. simpl.
      destruct (decide (tag = element_name)) as [->|Hne].
      * rewrite dict_get_set_eq. eexists. split; [reflexivity|].
        assert (he' = he) by (unfold JSONGeneratorHandler.handled in *; congruence).
        subst he'. simpl. split; [reflexivity|]. split; [|eauto].
        intros key (declared & D1 & D2). exists declared. auto.
      * rewrite dict_get_set_ne by exact Hne. exists he'. auto.
    + unfold same_stacks. simpl. tauto.
    + intros t. unfold JSONGeneratorHandler.handled. simpl.
      destruct (decide (t = element_name)) as [->|Hne].
      * rewrite dict_get_set_eq. unfold JSONGeneratorHandler.handled in Hhe.
        rewrite Hhe. split; eauto.
      * rewrite dict_get_set_ne by exact Hne. reflexivity.
  - split; [exact Hinv|]. split; [apply script_grows_refl|].
    split; [unfold same_stacks; tauto|]. reflexivity.
Qed.

Lemma handleChars_inv isspace j chars tag b :
  json_inv j ->
  json_inv (JSONGeneratorHandler.handleChars isspace j chars tag b)
  /\ script_grows j (JSONGeneratorHandler.handleChars isspace j chars tag b)
  /\ same_stacks j (JSONGeneratorHandler.handleChars isspace j chars tag b)
  /\ (forall t,
        is_Some (dict_get t (JSONGeneratorHandler.handled j))
        <-> is_Some (dict_get t
                       (JSONGeneratorHandler.handled
                          (JSONGeneratorHandler.handleChars isspace j chars tag b)))).
Proof.
  intros Hinv. unfold JSONGeneratorHandler.handleChars. cbv zeta.
  assert (Hsame : json_inv j /\ script_grows j j /\ same_stacks j j
                  /\ (forall t,
                        is_Some (dict_get t (JSONGeneratorHandler.handled j))
                        <-> is_Some (dict_get t (JSONGeneratorHandler.handled j)))).
  { split; [exact Hinv|]. split; [apply script_grows_refl|].
    split; [unfold same_stacks; tauto|]. reflexivity. }
  case_decide; [|exact Hsame].
  destruct b; [apply updateTokenObjectTypeName_inv, Hinv|].
  case_decide; [|exact Hsame].
  destruct (list_second_top (JSONGeneratorHandler.elemstack j)); [|exact Hsame].
  apply updateTokenObjectTypeName_inv, Hinv.
Qed.

Lemma declare_attributes_declares attributes declared key :
  key ∈ dict_keys attributes ->
  dict_get key (JSONGeneratorHandler.declare_attributes attributes declared)
  = Some (standard_spec key).
Proof.
  intros Hkey. unfold JSONGeneratorHandler.declare_attributes.
  rewrite declare_attributes_lookup. rewrite decide_True by exact Hkey.
  reflexivity.
Qed.

Lemma declare_attributes_standard attributes declared :
  (forall key spec, dict_get key declared = Some spec -> spec = standard_spec key) ->
  forall key spec,
    dict_get key (JSONGeneratorHandler.declare_attributes attributes declared)
    = Some spec ->
    spec = standard_spec key.
Proof.
  intros Hstd key spec. unfold JSONGeneratorHandler.declare_attributes.
  rewrite declare_attributes_lookup. case_decide; [congruence|apply Hstd].
Qed.

Lemma declare_attributes_keeps attributes declared key :
  dict_get key declared = Some (standard_spec key) ->
  dict_get key (JSONGeneratorHandler.declare_attributes attributes declared)
  = Some (standard_spec key).
Proof.
  intros H. unfold JSONGeneratorHandler.declare_attributes.
  rewrite declare_attributes_lookup. case_decide; [reflexivity|exact H].
Qed.

Lemma createOrUpdateElement_Ok j tag attributes :
  json_inv j ->
  exists j',
    JSONGeneratorHandler.createOrUpdateElement j tag attributes = Ok j'
    /\ json_inv j' /\ script_grows j j' /\ same_stacks j j'
    /\ exists he,
         dict_get tag (JSONGeneratorHandler.handled j') = Some he
         /\ forall key, key ∈ dict_keys attributes -> declares he key.
Proof.
  intros Hinv. pose proof Hinv as (Hn & H1 & H2 & H3 & H4 & H5 & Hel).
  unfold JSONGeneratorHandler.createOrUpdateElement.
  destruct (dict_get tag (JSONGeneratorHandler.handled j)) as [he|] eqn:Hhe.
  - unfold JSONGeneratorHandler.updateElement. rewrite Hhe. simpl.
    destruct (Hel _ _ Hhe) as (E1 & E2 & E3 & E4 & E5).
    set (he' := if decide (0 < length attributes)%nat then _ else he).
    assert (Hhe' : he_objectTypeName he' = he_objectTypeName he
                   /\ he_minimumMonadLength he' = he_minimumMonadLength he
                   /\ he_tokenObjectTypeName he' = he_tokenObjectTypeName he
                   /\ he_objectRangeType he' = he_objectRangeType he
                   /\ (forall declared key spec,
                         he_attributes he' = Some declared ->
                         dict_get key declared = Some spec ->
                         spec = standard_spec key)
                   /\ (forall key, declares he key -> declares he' key)
                   /\ (forall key, key ∈ dict_keys attributes -> declares he' key)).
    { subst he'. case_decide as Hlen.
      - simpl. repeat (split; [reflexivity|]). split; [|split].
        + intros declared key spec [= <-].
          apply declare_attributes_standard.
          destruct (he_attributes he) as [old|] eqn:Hold; simpl; [|discriminate].
          intros k s. apply (E5 old k s eq_refl).
        + intros key (old & Hold & Hkey). eexists. split; [reflexivity|].
          rewrite Hold. simpl. apply declare_attributes_keeps, Hkey.
        + intros key Hkey. eexists. split; [reflexivity|].
          apply declare_attributes_declares, Hkey.
      - repeat (split; [reflexivity|]). split; [exact E5|]. split; [auto|].
        intros key Hkey. destruct attributes; [inversion Hkey|simpl in Hlen; lia]. }
    destruct Hhe' as (A1 & A2 & A3 & A4 & A5 & A6 & A7).
    eexists. split; [reflexivity|].
    split; [|split; [|split]].
    + split; [exact Hn|]. do 5 (split; [assumption|]).
      intros t het Hget. unfold JSONGeneratorHandler.handled in Hget.
      simpl in Hget. unfold element_ok. simpl.
      destruct (decide (t = tag)) as [->|Hne].
      * rewrite dict_get_set_eq in Hget. injection Hget as <-.
        rewrite A1, A2, A3, A4. auto.
      * rewrite dict_get_set_ne in Hget by exact Hne. apply (Hel _ _ Hget).
    + intros t het Hget. unfold JSONGeneratorHandler.handled. simpl.
      destruct (decide (t = tag)) as [->|Hne].
      * rewrite dict_get_set_eq. exists he'.
        assert (het = he) by congruence. subst het.
        split; [reflexivity|]. split; [exact A1|]. split; [exact A6|].
        rewrite A3. auto.
      * rewrite dict_get_set_ne by exact Hne. exists het. auto.
    + unfold same_stacks. simpl. tauto.
    + exists he'. split; [|exact A7].
      unfold JSONGeneratorHandler.handled. simpl. apply dict_get_set_eq.
  - unfold JSONGeneratorHandler.createElement.
    destruct (makeObjectTypeName_Ok j tag Hn)
      as (j1 & n & Hcall & Hn1 & Hget1 & _ & Hothers & Hscr & Hst).
    rewrite Hcall. simpl.
    destruct Hst as (S1 & S2 & S3 & S4 & S5 & S6 & S7).
    set (he' := {| he_objectTypeName := n; he_tokenObjectTypeName := None;
                   he_minimumMonadLength := Some 1;
                   he_attributes := _; he_objectRangeType := None |}).
    assert (Hhandled : JSONGeneratorHandler.handled j1 = JSONGeneratorHandler.handled j)
      by (unfold JSONGeneratorHandler.handled; rewrite Hscr; reflexivity).
    eexists. split; [reflexivity|].
    split; [|split; [|split]].
    + split; [exact Hn1|]. simpl.
      split; [congruence|]. split; [congruence|]. split; [congruence|].
      split; [congruence|]. split; [rewrite Hscr, S1; exact H5|].
      intros t het Hget. unfold JSONGeneratorHandler.handled in Hget.
      simpl in Hget. unfold element_ok. simpl.
      destruct (decide (t = tag)) as [->|Hne].
      * rewrite dict_get_set_eq in Hget. injection Hget as <-. simpl.
        split; [exact Hget1|]. split; [reflexivity|]. split; [auto|].
        split; [reflexivity|].
        intros declared key spec Hd. case_decide; [|discriminate Hd].
        injection Hd as <-. apply declare_attributes_standard.
        intros k s Hk. discriminate Hk.
      * rewrite dict_get_set_ne in Hget by exact Hne.
        fold (JSONGeneratorHandler.handled j1) in Hget. rewrite Hhandled in Hget.
        destruct (Hel _ _ Hget) as (E1 & E2 & E3 & E4 & E5).
        split; [apply Hothers, E1|]. rewrite S1. auto.
    + intros t het Hget. unfold JSONGeneratorHandler.handled. simpl.
      assert (Hne : t <> tag) by congruence.
      rewrite dict_get_set_ne by exact Hne.
      fold (JSONGeneratorHandler.handled j1). rewrite Hhandled.
      exists het. auto.
    + unfold same_stacks. simpl. tauto.
    + exists he'. split.
      * unfold JSONGeneratorHandler.handled. simpl. apply dict_get_set_eq.
      * intros key Hkey. subst he'. unfold declares. simpl.
        rewrite decide_True by (destruct attributes; [inversion Hkey|simpl; lia]).
        eexists. split; [reflexivity|].
        apply declare_attributes_declares, Hkey.
Qed.

Lemma json_startElement_Ok isspace j tag attributes :
  json_inv j ->
  exists j',
    JSONGeneratorHandler.startElement isspace j tag attributes = Ok j'
    /\ json_inv j' /\ script_grows j j'
    /\ JSONGeneratorHandler.elemstack j' = JSONGeneratorHandler.elemstack j ++ [tag]
    /\ JSONGeneratorHandler.default_token_name j'
       = JSONGeneratorHandler.default_token_name j
    /\ (exists he,
          dict_get tag (JSONGeneratorHandler.handled j') = Some he
          /\ forall key, key ∈ dict_keys attributes -> declares he key)
    /\ script_grows
         (JSONGeneratorHandler.handleChars isspace
            (JSONGeneratorHandler.set_charstack []
               (JSONGeneratorHandler.set_elemstack
                  (JSONGeneratorHandler.elemstack j ++ [tag]) j))
            (concat (JSONGeneratorHandler.charstack j)) tag false) j'.
Proof.
  intros Hinv. unfold JSONGeneratorHandler.startElement. cbv zeta.
  set (j1 := JSONGeneratorHandler.set_charstack []
               (JSONGeneratorHandler.set_elemstack
                  (JSONGeneratorHandler.elemstack j ++ [tag]) j)).
  assert (Hinv1 : json_inv j1) by exact Hinv.
  destruct (handleChars_inv isspace j1
              (concat (JSONGeneratorHandler.charstack
                         (JSONGeneratorHandler.set_elemstack
                            (JSONGeneratorHandler.elemstack j ++ [tag]) j)))
              tag false Hinv1) as (Hinv2 & Hg2 & Hs2 & _).
  set (j2 := JSONGeneratorHandler.handleChars isspace j1 _ tag false) in *.
  pose proof Hinv2 as (_ & N1 & N2 & N3 & N4 & _).
  rewrite N2, N1, N4, N3. simpl.
  repeat (rewrite decide_False
            by first [ (intros H; apply elem_of_empty in H; exact H)
                     | (intros H; apply H; reflexivity)
                     | (intros [H _]; apply H; reflexivity) ]).
  unfold JSONGeneratorHandler.handleUnknownElementStart.
  destruct (createOrUpdateElement_Ok j2 tag attributes Hinv2)
    as (j3 & Hcall & Hinv3 & Hg3 & Hs3 & Hhe).
  rewrite Hcall. simpl. exists j3. split; [reflexivity|].
  split; [exact Hinv3|].
  split; [apply script_grows_trans with j2; [exact Hg2|exact Hg3]|].
  destruct Hs2 as (A1 & A2 & _), Hs3 as (B1 & B2 & _).
  split; [rewrite B2, A2; reflexivity|]. split; [rewrite B1, A1; reflexivity|].
  split; [exact Hhe|exact Hg3].
Qed.

Lemma json_endElement_Ok isspace j tag st :
  json_inv j ->
  JSONGeneratorHandler.elemstack j = st ++ [tag] ->
  is_Some (dict_get tag (JSONGeneratorHandler.handled j)) ->
  exists j',
    JSONGeneratorHandler.endElement isspace j tag = Ok j'
    /\ json_inv j' /\ script_grows j j'
    /\ JSONGeneratorHandler.elemstack j' = st
    /\ JSONGeneratorHandler.default_token_name j'
       = JSONGeneratorHandler.default_token_name j
    /\ JSONGeneratorHandler.script j'
       = JSONGeneratorHandler.script
           (JSONGeneratorHandler.handleChars isspace
              (JSONGeneratorHandler.set_charstack [] j)
              (concat (JSONGeneratorHandler.charstack j)) tag true).
Proof.
  intros Hinv Hstack Hhandled. unfold JSONGeneratorHandler.endElement. cbv zeta.
  set (j1 := JSONGeneratorHandler.set_charstack [] j).
  assert (Hinv1 : json_inv j1) by exact Hinv.
  destruct (handleChars_inv isspace j1 (concat (JSONGeneratorHandler.charstack j))
              tag true Hinv1) as (Hinv2 & Hg2 & Hs2 & Hiff).
  set (j2 := JSONGeneratorHandler.handleChars isspace j1 _ tag true) in *.
  pose proof Hinv2 as (_ & N1 & N2 & N3 & N4 & _).
  rewrite N1, N4, N3. simpl.
  repeat (rewrite decide_False
            by first [ (intros H; apply elem_of_empty in H; exact H)
                     | (intros H; apply H; reflexivity)
                     | (intros [H _]; apply H; reflexivity) ]).
  unfold JSONGeneratorHandler.handleUnknownElementEnd.
  apply (Hiff tag) in Hhandled. destruct Hhandled as [he Hhe].
  rewrite Hhe. simpl.
  destruct Hs2 as (A1 & A2 & _). rewrite A2. simpl. rewrite Hstack.
  rewrite list_pop_snoc. simpl.
  eexists. split; [reflexivity|].
  split; [exact Hinv2|]. split; [exact Hg2|]. split; [reflexivity|].
  split; [exact A1|reflexivity].
Qed.

Lemma json_run isspace (events : list event) :
  forall j st,
    json_inv j ->
    (forall t, t ∈ JSONGeneratorHandler.elemstack j ->
               is_Some (dict_get t (JSONGeneratorHandler.handled j))) ->
    nesting (JSONGeneratorHandler.elemstack j) events = Some st ->
    exists j',
      JSONGeneratorHandler.parse isspace j events = Ok j'
      /\ json_inv j' /\ script_grows j j'
      /\ JSONGeneratorHandler.elemstack j' = st
      /\ JSONGeneratorHandler.default_token_name j'
         = JSONGeneratorHandler.default_token_name j
      /\ (forall tag attributes,
            StartElement tag attributes ∈ events ->
            exists he,
              dict_get tag (JSONGeneratorHandler.handled j') = Some he
              /\ forall key, key ∈ dict_keys attributes -> declares he key)
      /\ (forall t, t ∈ st ->
                    is_Some (dict_get t (JSONGeneratorHandler.handled j'))).
Proof.
  unfold JSONGeneratorHandler.parse.
  induction events as [|ev rest IH]; intros j st Hinv Hstack Hnest.
  - simpl in *. injection Hnest as <-. exists j.
    split; [reflexivity|]. split; [exact Hinv|]. split; [apply script_grows_refl|].
    split; [reflexivity|]. split; [reflexivity|].
    split; [|exact Hstack].
    intros tag attributes H. inversion H.
  - rewrite nesting_cons in Hnest.
    destruct (nesting (JSONGeneratorHandler.elemstack j) [ev]) as [st1|] eqn:H1;
      [|discriminate Hnest].
    assert (Hstep : exists j1,
               JSONGeneratorHandler.handle_event isspace j ev = Ok j1
               /\ json_inv j1 /\ script_grows j j1
               /\ JSONGeneratorHandler.elemstack j1 = st1
               /\ JSONGeneratorHandler.default_token_name j1
                  = JSONGeneratorHandler.default_token_name j
               /\ (forall t, t ∈ st1 ->
                     is_Some (dict_get t (JSONGeneratorHandler.handled j1)))
               /\ (forall tag attributes, ev = StartElement tag attributes ->
                     exists he,
                       dict_get tag (JSONGeneratorHandler.handled j1) = Some he
                       /\ forall key, key ∈ dict_keys attributes -> declares he key)).
    { destruct ev as [tag attributes|data|tag]; simpl in H1.
      - injection H1 as <-.
        destruct (json_startElement_Ok isspace j tag attributes Hinv)
          as (j1 & Hcall & Hinv1 & Hg & He & Hd & Hhe & _).
        exists j1. split; [exact Hcall|]. split; [exact Hinv1|].
        split; [exact Hg|]. split; [exact He|]. split; [exact Hd|]. split.
        + intros t Ht. apply elem_of_app in Ht. destruct Ht as [Ht|Ht].
          * destruct (Hstack t Ht) as [het Hhet].
            destruct (Hg t het Hhet) as (het' & Hget & _). eauto.
          * apply list_elem_of_singleton in Ht. subst t.
            destruct Hhe as (he & Hhe & _). eauto.
        + intros tag' attributes' [= <- <-]. exact Hhe.
      - injection H1 as <-. exists (JSONGeneratorHandler.characters j data).
        split; [reflexivity|]. split; [exact Hinv|].
        split; [exact (script_grows_refl j)|]. split; [reflexivity|].
        split; [reflexivity|]. split; [exact Hstack|]. discriminate.
      - destruct (list_pop (JSONGeneratorHandler.elemstack j)) as [[st' top]|] eqn:Hpop;
          [|discriminate H1].
        case_decide; [|discriminate H1]. injection H1 as <-. subst top.
        apply list_pop_Some in Hpop.
        destruct (json_endElement_Ok isspace j tag st' Hinv Hpop) as
          (j1 & Hcall & Hinv1 & Hg & He & Hd & _).
        { apply Hstack. rewrite Hpop. apply elem_of_app. right.
          apply list_elem_of_singleton. reflexivity. }
        exists j1. split; [exact Hcall|]. split; [exact Hinv1|].
        split; [exact Hg|]. split; [exact He|]. split; [exact Hd|]. split.
        + intros t Ht.
          destruct (Hstack t) as [het Hhet].
          { rewrite Hpop. apply elem_of_app. auto. }
          destruct (Hg t het Hhet) as (het' & Hget & _). eauto.
        + discriminate. }
    destruct Hstep as (j1 & Hcall & Hinv1 & Hg1 & He1 & Hd1 & Hstack1 & Hstart).
    destruct (IH j1 st Hinv1)
      as (j' & Hrun & Hinv' & Hg' & He' & Hd' & Hall & Hopen).
    { rewrite He1. exact Hstack1. }
    { rewrite He1. exact Hnest. }
    exists j'. simpl. rewrite Hcall. simpl.
    split; [exact Hrun|]. split; [exact Hinv'|].
    split; [apply script_grows_trans with j1; assumption|].
    split; [exact He'|]. split; [congruence|]. split; [|exact Hopen].
    intros tag attributes Hin. apply elem_of_cons in Hin.
    destruct Hin as [Heq|Hin]; [|apply (Hall _ _ Hin)].
    destruct (Hstart tag attributes (eq_sym Heq)) as (he & Hhe & Hdecl).
    destruct (Hg' tag he Hhe) as (he' & Hhe' & _ & Hkeep & _).
    exists he'. split; [exact Hhe'|]. intros key Hkey. apply Hkeep, Hdecl, Hkey.
Qed.

Lemma json_inv_init (default_token_name : pystr) :
  json_inv (JSONGeneratorHandler.init default_token_name).
Proof.
  split; [apply names_inv_init|]. do 5 (split; [reflexivity|]).
  intros tag he H. discriminate H.
Qed.

(** X22: the generator accepts every well-formed document and describes
    every element of it.  From a new handler, the events of a document in which
    every end tag closes the innermost open element are processed without an
    exception.  In the script that results every element that was opened is a
    handled element, with minimum length 1, with the default token name or
    nothing as its token type, and with each attribute that it ever carried
    declared as a string feature whose name is the identifier made of the
    attribute name.  The object type names are pairwise different, each is the
    identifier of its element followed by underscores, and none of an element
    with a non-empty name is the default token name. *)
Theorem generator_describes_every_element
    (isspace : N -> bool) (default_token_name : pystr) (events : list event)
    (open : list pystr) :
  nesting [] events = Some open ->
  exists j,
    JSONGeneratorHandler.parse isspace
      (JSONGeneratorHandler.init default_token_name) events = Ok j
    /\ JSONGeneratorHandler.elemstack j = open
    /\ (forall tag attributes,
          StartElement tag attributes ∈ events ->
          exists he,
            dict_get tag (JSONGeneratorHandler.handled j) = Some he
            /\ forall key, key ∈ dict_keys attributes -> declares he key)
    /\ (forall tag he,
          dict_get tag (JSONGeneratorHandler.handled j) = Some he ->
          he_minimumMonadLength he = Some 1
          /\ (he_tokenObjectTypeName he = None
              \/ he_tokenObjectTypeName he = Some default_token_name)
          /\ (exists k,
                he_objectTypeName he
                = JSONGeneratorHandler.makeIdentifier tag ++ replicate k 95%N)
          /\ (tag <> [] -> he_objectTypeName he <> default_token_name))
    /\ (forall tag1 tag2 he1 he2,
          dict_get tag1 (JSONGeneratorHandler.handled j) = Some he1 ->
          dict_get tag2 (JSONGeneratorHandler.handled j) = Some he2 ->
          he_objectTypeName he1 = he_objectTypeName he2 -> tag1 = tag2).
Proof.
  intros Hnest.
  destruct (json_run isspace events (JSONGeneratorHandler.init default_token_name)
              open (json_inv_init default_token_name))
    as (j & Hrun & Hinv & _ & He & Hd & Hall & _).
  { intros t Ht. inversion Ht. }
  { exact Hnest. }
  simpl in Hd.
  destruct Hinv as ((Hinverse & Hdef & Hform) & _ & _ & _ & _ & _ & Hel).
  exists j. split; [exact Hrun|]. split; [exact He|]. split; [exact Hall|].
  split.
  - intros tag he Hhe. destruct (Hel _ _ Hhe) as (E1 & E2 & E3 & _).
    rewrite Hd in E3. split; [exact E2|]. split; [exact E3|].
    split; [exact (Hform _ _ E1)|].
    intros Hne Heq. pose proof (Hinverse _ _ E1) as Ho.
    rewrite Heq, <- Hd, Hdef in Ho. congruence.
  - intros tag1 tag2 he1 he2 H1 H2 Heq.
    destruct (Hel _ _ H1) as (E1 & _). destruct (Hel _ _ H2) as (F1 & _).
    pose proof (Hinverse _ _ E1) as O1. pose proof (Hinverse _ _ F1) as O2.
    rewrite Heq in O1. congruence.
Qed.

Lemma generator_describes_every_element_witness :
  exists j,
    JSONGeneratorHandler.parse (fun c => (c =? 32)%N)
      (JSONGeneratorHandler.init (u "word"))
      [StartElement (u "p") [(u "id", u "x")]; Characters (u "Hi there");
       EndElement (u "p")] = Ok j
    /\ JSONGeneratorHandler.elemstack j = [].
Proof.
  destruct (generator_describes_every_element (fun c => (c =? 32)%N) (u "word")
              [StartElement (u "p") [(u "id", u "x")]; Characters (u "Hi there");
               EndElement (u "p")] []) as (j & K1 & K2 & _).
  - vm_compute. reflexivity.
  - exists j. split; assumption.
Defined.

(** ** JSONGeneratorHandler: text *)

Lemma lstrip_nil isspace (s : pystr) :
  lstrip isspace s = [] <-> Forall (fun c => isspace c = true) s.
Proof.
  induction s as [|c r IH]; simpl.
  - split; auto.
  - destruct (isspace c) eqn:E.
    + rewrite IH. split; [intros H; constructor; assumption|].
      intros H. inversion H. assumption.
    + split; [discriminate|]. intros H. inversion H. congruence.
Qed.

Lemma lstrip_Forall isspace (s : pystr) :
  Forall (fun c => isspace c = true) (lstrip isspace s) -> lstrip isspace s = [].
Proof.
  induction s as [|c r IH]; simpl; [reflexivity|].
  destruct (isspace c) eqn:E; [exact IH|].
  intros H. inversion H. congruence.
Qed.

Lemma strip_nil isspace (s : pystr) :
  strip isspace s = [] <-> Forall (fun c => isspace c = true) s.
Proof.
  unfold strip. rewrite <- lstrip_nil. split.
  - intros H. apply (f_equal reverse) in H. rewrite reverse_involutive in H.
    simpl in H. apply lstrip_nil in H. rewrite Forall_reverse in H.
    apply lstrip_Forall, H.
  - intros ->. reflexivity.
Qed.

Lemma strip_nonempty isspace (s : pystr) :
  Exists (fun c => isspace c = false) s -> (0 < length (strip isspace s))%nat.
Proof.
  intros H. destruct (strip isspace s) eqn:E; [|simpl; lia].
  apply strip_nil in E. apply Exists_exists in H. destruct H as (c & Hc & Hs).
  rewrite Forall_forall in E. specialize (E c Hc). congruence.
Qed.

Lemma updateTokenObjectTypeName_marks j element_name he :
  dict_get element_name (JSONGeneratorHandler.handled j) = Some he ->
  exists he',
    dict_get element_name
      (JSONGeneratorHandler.handled
         (JSONGeneratorHandler.updateTokenObjectTypeName j element_name)) = Some he'
    /\ he_tokenObjectTypeName he' = Some (JSONGeneratorHandler.default_token_name j).
Proof.
  intros H. unfold JSONGeneratorHandler.updateTokenObjectTypeName. rewrite H.
  unfold JSONGeneratorHandler.handled. simpl. rewrite dict_get_set_eq.
  eexists. split; reflexivity.
Qed.

(** X23: the generator makes an element token-bearing when it sees text
    in it.  In every state that a well-formed document prefix leads to, text of
    white space only changes nothing.  Text with another character that is
    buffered when the end tag of the innermost open element arrives gives that
    element the default token name as its token type; and so does such text
    that is buffered when the start tag of a child arrives, although the MQL
    generator mints no token from text before a start tag. *)
Theorem text_makes_the_element_token_bearing
    (isspace : N -> bool) (default_token_name : pystr) (events : list event)
    (j : JSONGeneratorHandler.t) (tag : pystr) (st : list pystr) :
  nesting [] events = Some (st ++ [tag]) ->
  JSONGeneratorHandler.parse isspace
    (JSONGeneratorHandler.init default_token_name) events = Ok j ->
  (forall chars t b,
     Forall (fun c => isspace c = true) chars ->
     JSONGeneratorHandler.handleChars isspace j chars t b = j)
  /\ (Exists (fun c => isspace c = false) (concat (JSONGeneratorHandler.charstack j)) ->
      (exists j' he',
         JSONGeneratorHandler.endElement isspace j tag = Ok j'
         /\ dict_get tag (JSONGeneratorHandler.handled j') = Some he'
         /\ he_tokenObjectTypeName he' = Some default_token_name)
      /\ (forall child attributes,
            exists j' he',
              JSONGeneratorHandler.startElement isspace j child attributes = Ok j'
              /\ dict_get tag (JSONGeneratorHandler.handled j') = Some he'
              /\ he_tokenObjectTypeName he' = Some default_token_name)).
Proof.
  intros Hnest Hrun.
  destruct (json_run isspace events (JSONGeneratorHandler.init default_token_name)
              (st ++ [tag]) (json_inv_init default_token_name))
    as (j0 & Hrun0 & Hinv & _ & Hstack & Hdef & _ & Hopen).
  { intros t Ht. inversion Ht. }
  { exact Hnest. }
  assert (j0 = j) by congruence. subst j0. simpl in Hdef.
  destruct (Hopen tag) as [he Hhe].
  { apply elem_of_app. right. apply list_elem_of_singleton. reflexivity. }
  split.
  - intros chars t b Hall. unfold JSONGeneratorHandler.handleChars. cbv zeta.
    apply strip_nil in Hall. rewrite Hall. reflexivity.
  - intros Hex. apply (strip_nonempty isspace) in Hex. rewrite <- Hdef. split.
    + destruct (json_endElement_Ok isspace j tag st Hinv Hstack)
        as (j' & Hcall & _ & _ & _ & _ & Hscr); [eauto|].
      unfold JSONGeneratorHandler.handleChars in Hscr. cbv zeta in Hscr.
      rewrite decide_True in Hscr by exact Hex.
      destruct (updateTokenObjectTypeName_marks
                  (JSONGeneratorHandler.set_charstack [] j) tag he Hhe)
        as (he' & Hhe' & Htok).
      exists j', he'. split; [exact Hcall|].
      unfold JSONGeneratorHandler.handled in *. rewrite Hscr.
      split; [exact Hhe'|exact Htok].
    + intros child attributes.
      destruct (json_startElement_Ok isspace j child attributes Hinv)
        as (j' & Hcall & Hinv' & _ & _ & Hd & _ & Hg).
      unfold JSONGeneratorHandler.handleChars in Hg. cbv zeta in Hg.
      rewrite decide_True in Hg by exact Hex.
      cbn [JSONGeneratorHandler.elemstack JSONGeneratorHandler.set_charstack
             JSONGeneratorHandler.set_elemstack] in Hg.
      rewrite decide_True in Hg by (rewrite length_app, Hstack, length_app; simpl; lia).
      assert (Htop : list_second_top (JSONGeneratorHandler.elemstack j ++ [child])
                     = Some tag).
      { unfold list_second_top. rewrite list_pop_snoc, Hstack. apply list_top_snoc. }
      rewrite Htop in Hg.
      destruct (updateTokenObjectTypeName_marks
                  (JSONGeneratorHandler.set_charstack []
                     (JSONGeneratorHandler.set_elemstack
                        (JSONGeneratorHandler.elemstack j ++ [child]) j))
                  tag he Hhe)
        as (he1 & Hhe1 & Htok1).
      destruct (Hg tag he1 Hhe1) as (he' & Hhe' & _ & _ & Htok').
      exists j', he'. split; [exact Hcall|]. split; [exact Hhe'|].
      destruct Hinv' as (_ & _ & _ & _ & _ & _ & Hel).
      destruct (Hel _ _ Hhe') as (_ & _ & [E|E] & _).
      * rewrite E in Htok'. destruct Htok' as [x Hx]; [rewrite Htok1; eauto|].
        discriminate Hx.
      * rewrite E, Hd. reflexivity.
Qed.

Lemma text_makes_the_element_token_bearing_witness :
  exists j' he',
    JSONGeneratorHandler.endElement (fun c => (c =? 32)%N)
      (the_json_state
         (JSONGeneratorHandler.parse (fun c => (c =? 32)%N)
            (JSONGeneratorHandler.init (u "word"))
            [StartElement (u "p") []; Characters (u "Hi there")]))
      (u "p") = Ok j'
    /\ dict_get (u "p") (JSONGeneratorHandler.handled j') = Some he'
    /\ he_tokenObjectTypeName he' = Some (u "word").
Proof.
  pose proof (text_makes_the_element_token_bearing (fun c => (c =? 32)%N)
                (u "word") [StartElement (u "p") []; Characters (u "Hi there")]
                (the_json_state
                   (JSONGeneratorHandler.parse (fun c => (c =? 32)%N)
                      (JSONGeneratorHandler.init (u "word"))
                      [StartElement (u "p") []; Characters (u "Hi there")]))
                (u "p") []) as K.
  destruct K as (_ & K).
  - vm_compute. reflexivity.
  - vm_compute. reflexivity.
  - destruct K as (K & _).
    + apply Exists_exists. exists 72%N. split; [|reflexivity].
      vm_compute. apply elem_of_cons. auto.
    + exact K.
Defined.

(** ** The handler: attributes *)

Lemma dict_get_elem_of {V : Type} (d : dict V) (k : pystr) (v : V) :
  NoDup (dict_keys d) -> (k, v) ∈ d -> dict_get k d = Some v.
Proof.
  induction d as [|[k' v'] d IH]; simpl; intros Hnd Hin; [inversion Hin|].
  apply NoDup_cons in Hnd. destruct Hnd as [Hk' Hnd].
  apply elem_of_cons in Hin. destruct Hin as [[= <- <-]|Hin].
  - rewrite decide_True by reflexivity. reflexivity.
  - rewrite decide_False; [apply IH; assumption|].
    intros ->. apply Hk'. unfold dict_keys.
    apply list_elem_of_fmap. exists (k', v). auto.
Qed.

Lemma attribute_loop lower h0 tag attributes a he declared (rest : dict AttributeSpec) :
  dict_get tag (script_handled_elements (script h0)) = Some he ->
  he_attributes he = Some declared ->
  NoDup (dict_keys declared) ->
  forall (s : Handler) (o : SRObject.t),
    (forall entry, entry ∈ rest -> entry ∈ declared) ->
    NoDup (map (fun entry => feature_name (snd entry)) rest) ->
    Forall (fun entry => is_Some (feature_name (snd entry))) rest ->
    script s = script h0 ->
    store s !! a = Some o ->
    exists s' o',
      for_each (handleElementStart_attribute lower tag attributes a) rest s = Ok s'
      /\ store s' !! a = Some o'
      /\ (forall name,
            (forall entry, entry ∈ rest -> feature_name (snd entry) <> Some name) ->
            features_at o' name = features_at o name)
      /\ (forall key spec name,
            (key, spec) ∈ rest -> feature_name spec = Some name ->
            match dict_get key attributes with
            | Some value =>
                if featureTypeIsSTRING lower (feature_type spec)
                then dict_get name (SRObject.stringFeatures o') = Some value
                else dict_get name (SRObject.nonStringFeatures o') = Some (PyStr value)
            | None => features_at o' name = features_at o name
            end).
Proof.
  intros Hhe Hattrs Hkeys.
  induction rest as [|[key spec] rest IH]; intros s o Hsub Hnd Hall Hscr Ho.
  - exists s, o. split; [reflexivity|]. split; [exact Ho|].
    split; [reflexivity|]. intros k sp n Hin. inversion Hin.
  - cbn [map] in Hnd. apply NoDup_cons in Hnd. destruct Hnd as [Hfresh Hnd].
    apply Forall_cons in Hall. destruct Hall as [[name Hname] Hall].
    cbn [snd] in Hname, Hfresh.
    assert (Hsub' : forall entry, entry ∈ rest -> entry ∈ declared)
      by (intros e He; apply Hsub, elem_of_cons; auto).
    assert (Hother : forall entry, entry ∈ rest -> feature_name (snd entry) <> Some name).
    { intros e He Heq. apply Hfresh. rewrite Hname, <- Heq.
      apply list_elem_of_fmap. eauto. }
    assert (Hstep : handleElementStart_attribute lower tag attributes a s (key, spec)
                    = match dict_get key attributes with
                      | Some value =>
                          Ok (set_store
                                (<[a := if featureTypeIsSTRING lower (feature_type spec)
                                        then SRObject.setStringFeature o name value
                                        else SRObject.setNonStringFeature o name
                                               (PyStr value)]> (store s)) s)
                      | None => Ok s
                      end).
    { unfold handleElementStart_attribute. cbn [fst snd].
      destruct (dict_get key attributes) as [value|]; [|reflexivity].
      pose proof Hname as Hname'. unfold feature_name in Hname'.
      rewrite Hname'. simpl.
      assert (Hft : getFeatureType s tag key = Ok (feature_type spec)).
      { unfold getFeatureType, handled. rewrite Hscr, Hhe. simpl.
        rewrite Hattrs. simpl.
        rewrite (dict_get_elem_of declared key spec Hkeys)
          by (apply Hsub, elem_of_cons; auto).
        reflexivity. }
      rewrite Hft. simpl. unfold deref. rewrite Ho. reflexivity. }
    cbn [for_each]. rewrite Hstep.
    destruct (dict_get key attributes) as [value|] eqn:Hvalue.
    + simpl.
      set (o1 := if featureTypeIsSTRING lower (feature_type spec)
                 then SRObject.setStringFeature o name value
                 else SRObject.setNonStringFeature o name (PyStr value)).
      destruct (IH (set_store (<[a := o1]> (store s)) s) o1 Hsub' Hnd Hall Hscr)
        as (s' & o' & Hrun & Ho' & Hkeep & Hset).
      { simpl. apply list_lookup_insert_eq. eapply lookup_lt_Some; eauto. }
      exists s', o'. split; [exact Hrun|]. split; [exact Ho'|]. split.
      * intros n Hn. rewrite Hkeep by (intros e He; apply Hn, elem_of_cons; auto).
        assert (n <> name).
        { intros ->. apply (Hn (key, spec)); [apply elem_of_cons; auto|exact Hname]. }
        subst o1. unfold features_at.
        destruct (featureTypeIsSTRING lower (feature_type spec)); simpl;
          rewrite dict_get_set_ne by assumption; reflexivity.
      * intros k sp n Hin Hn. apply elem_of_cons in Hin.
        destruct Hin as [[= -> ->]|Hin].
        -- assert (n = name) by congruence. subst n. rewrite Hvalue.
           pose proof (Hkeep name Hother) as Hk. unfold features_at in Hk.
           injection Hk as Hk1 Hk2. subst o1.
           destruct (featureTypeIsSTRING lower (feature_type spec)); simpl in *.
           ++ rewrite Hk1. apply dict_get_set_eq.
           ++ rewrite Hk2. apply dict_get_set_eq.
        -- specialize (Hset k sp n Hin Hn).
           destruct (dict_get k attributes) as [v|]; [exact Hset|].
           rewrite Hset.
           assert (n <> name).
           { intros ->. apply (Hother (k, sp) Hin). exact Hn. }
           subst o1. unfold features_at.
           destruct (featureTypeIsSTRING lower (feature_type spec)); simpl;
             rewrite dict_get_set_ne by assumption; reflexivity.
    + simpl.
      destruct (IH s o Hsub' Hnd Hall Hscr Ho) as (s' & o' & Hrun & Ho' & Hkeep & Hset).
      exists s', o'. split; [exact Hrun|]. split; [exact Ho'|]. split.
      * intros n Hn. apply Hkeep. intros e He. apply Hn, elem_of_cons. auto.
      * intros k sp n Hin Hn. apply elem_of_cons in Hin.
        destruct Hin as [[= -> ->]|Hin].
        -- rewrite Hvalue. apply Hkeep.
           intros e He. assert (n = name) by congruence. subst n.
           apply Hother, He.
        -- apply (Hset k sp n Hin Hn).
Qed.

(** X24: the declared attributes of a start tag become the features of
    the new object.  For an element whose declared attributes have pairwise
    different feature names, opening the object succeeds, and for every declared
    attribute the new object holds the value that the tag gives to it under the
    feature name: as a string feature when the lower-cased feature type
    contains [string] (the type is STRING when the script gives none), and as a
    non-string feature otherwise.  A declared attribute that the tag does not
    carry leaves no string feature, and no non-string feature other than the
    document index. *)
Theorem declared_attributes_become_features
    lower (h : Handler) (tag : pystr) (attributes : dict pystr)
    (he : HandledElement) (declared : dict AttributeSpec) :
  dict_get tag (handled h) = Some he ->
  he_attributes he = Some declared ->
  well_declared declared ->
  exists h' o,
    handleElementStart lower h tag attributes = Ok h'
    /\ store h' !! length (store h) = Some o
    /\ (forall key spec name,
          (key, spec) ∈ declared -> feature_name spec = Some name ->
          match dict_get key attributes with
          | Some value =>
              if featureTypeIsSTRING lower (feature_type spec)
              then getStringFeature o name = Ok value
              else dict_get name (SRObject.nonStringFeatures o) = Some (PyStr value)
          | None =>
              getStringFeature o name = Error (KeyError name)
              /\ (name <> docIndexFeatureName h ->
                  dict_get name (SRObject.nonStringFeatures o) = None)
          end).
Proof.
  intros Hhe Hattrs (Hkeys & Hnames & Hall).
  unfold handleElementStart. rewrite Hhe, Hattrs.
  destruct (attribute_loop lower h tag attributes (length (store h)) he declared
              declared Hhe Hattrs Hkeys
              (fst (createObject h (he_objectTypeName he)))
              (SRObject.setNonStringFeature
                 (SRObject.init (he_objectTypeName he) (curmonad h))
                 (docIndexFeatureName h) (PyInt (curdocindex h))))
    as (h' & o & Hrun & Ho & _ & Hset); auto.
  { simpl. apply list_lookup_middle. reflexivity. }
  exists h', o. split; [exact Hrun|]. split; [exact Ho|].
  intros key spec name Hin Hname. specialize (Hset key spec name Hin Hname).
  destruct (dict_get key attributes) as [value|].
  - unfold getStringFeature.
    destruct (featureTypeIsSTRING lower (feature_type spec)); [|exact Hset].
    rewrite Hset. reflexivity.
  - unfold features_at in Hset. injection Hset as Hs Hn.
    unfold getStringFeature. rewrite Hs. simpl. split; [reflexivity|].
    intros Hne. rewrite Hn. simpl. rewrite decide_False by exact Hne. reflexivity.
Qed.

Lemma declared_attributes_become_features_witness :
  exists h' o,
    handleElementStart lower_ascii attribute_handler (u "p") [(u "id", u "x")] = Ok h'
    /\ store h' !! 0%nat = Some o
    /\ getStringFeature o (u "ident") = Ok (u "x").
Proof.
  pose proof (declared_attributes_become_features lower_ascii attribute_handler
                (u "p") [(u "id", u "x")]
                {| he_objectTypeName := u "p";
                   he_tokenObjectTypeName := Some (u "word");
                   he_minimumMonadLength := Some 1;
                   he_attributes :=
                     Some [ (u "id", [ (u "featureName", u "ident");
                                       (u "featureType", u "STRING") ]) ];
                   he_objectRangeType := None |}
                [ (u "id", [ (u "featureName", u "ident");
                             (u "featureType", u "STRING") ]) ]) as K.
  destruct K as (h' & o & K1 & K2 & K3).
  - vm_compute. reflexivity.
  - reflexivity.
  - split; [|split].
    + apply NoDup_singleton.
    + apply NoDup_singleton.
    + constructor; [|constructor]. vm_compute. eauto.
  - exists h', o. split; [exact K1|]. split; [exact K2|].
    exact (K3 (u "id") [ (u "featureName", u "ident"); (u "featureType", u "STRING") ]
              (u "ident") ltac:(apply list_elem_of_singleton; reflexivity)
              ltac:(vm_compute; reflexivity)).
Defined.

(** ** The handler: document indexes *)

Lemma docindex_inv_new h h' (w0 : pystr * nat + nat) (z0 : Z) :
  docindex_inv h ->
  docIndexFeatureName h' = docIndexFeatureName h -> script h' = script h ->
  curdocindex h <= z0 < curdocindex h' ->
  (forall w z, docindex_at h' w z -> docindex_at h w z \/ (w = w0 /\ z = z0)) ->
  (forall a o, store h' !! a = Some o ->
               exists z, docindex_of h' o = Some (PyInt z)) ->
  docindex_inv h'.
Proof.
  intros (Hname & Hbound & Huniq & Hhas) Hn Hs Hz Hat Hhas'.
  split; [congruence|]. split; [|split; [|exact Hhas']].
  - intros w z H. destruct (Hat w z H) as [Hold|[_ ->]]; [|lia].
    specialize (Hbound w z Hold). lia.
  - intros w1 w2 z H1 H2.
    destruct (Hat w1 z H1) as [O1|[E1 F1]], (Hat w2 z H2) as [O2|[E2 F2]].
    + exact (Huniq w1 w2 z O1 O2).
    + specialize (Hbound w1 _ O1). lia.
    + specialize (Hbound w2 _ O2). lia.
    + congruence.
Qed.

Lemma docindex_inv_same h h' :
  docindex_inv h ->
  docIndexFeatureName h' = docIndexFeatureName h -> script h' = script h ->
  curdocindex h <= curdocindex h' ->
  (forall w z, docindex_at h' w z -> docindex_at h w z) ->
  (forall a o, store h' !! a = Some o ->
               exists z, docindex_of h' o = Some (PyInt z)) ->
  docindex_inv h'.
Proof.
  intros (Hname & Hbound & Huniq & Hhas) Hn Hs Hz Hat Hhas'.
  split; [congruence|]. split; [|split; [|exact Hhas']].
  - intros w z H. specialize (Hbound w z (Hat w z H)). lia.
  - intros w1 w2 z H1 H2. exact (Huniq w1 w2 z (Hat _ _ H1) (Hat _ _ H2)).
Qed.

(** An object is replaced by one with the same document index. *)
Lemma docindex_inv_update h h' a o o' :
  docindex_inv h ->
  docIndexFeatureName h' = docIndexFeatureName h -> script h' = script h ->
  curdocindex h <= curdocindex h' -> tokens h' = tokens h ->
  store h !! a = Some o -> store h' = <[a := o']> (store h) ->
  dict_get (docIndexFeatureName h) (SRObject.nonStringFeatures o')
  = dict_get (docIndexFeatureName h) (SRObject.nonStringFeatures o) ->
  docindex_inv h'.
Proof.
  intros Hinv Hn Hs Hz Ht Ho Hst Hsame.
  assert (Hlook : forall b ob, store h' !! b = Some ob ->
             exists ob', store h !! b = Some ob'
                         /\ docindex_of h' ob = docindex_of h ob').
  { intros b ob Hb. rewrite Hst in Hb. unfold docindex_of. rewrite Hn.
    destruct (decide (a = b)) as [<-|Hne].
    - rewrite list_lookup_insert_eq in Hb by (eapply lookup_lt_Some; eauto).
      injection Hb as <-. eauto.
    - rewrite list_lookup_insert_ne in Hb by exact Hne. eauto. }
  apply (docindex_inv_same h); auto.
  - intros [[ty k]|b] z; simpl.
    + rewrite Ht. auto.
    + intros (ob & Hb & Hz'). destruct (Hlook _ _ Hb) as (ob' & Hb' & E).
      exists ob'. split; [exact Hb'|congruence].
  - intros b ob Hb. destruct (Hlook _ _ Hb) as (ob' & Hb' & E).
    destruct Hinv as (_ & _ & _ & Hhas). rewrite E. eauto.
Qed.

Lemma createToken_docindex_inv h ty p s x h' :
  nonneg_increments (script h) ->
  docindex_inv h -> createToken h ty p s x = Ok h' -> docindex_inv h'.
Proof.
  intros Hnn Hinv H.
  pose proof (createToken_static_eq _ _ _ _ _ _ H) as (_ & _ & _ & Hs & Hn & _).
  apply (createToken_Ok (fun _ => []) id) in H.
  destruct H as (l & Hl & Ht & _ & _ & Hd & _ & Hst & _).
  pose proof (docindex_increment_nonneg h ty Hnn) as Hinc.
  apply (docindex_inv_new h h' (inl (ty, length l))
           (curdocindex h + docindex_increment h ty)); auto; [lia| |].
  - intros [[ty1 k]|a] z; simpl.
    + intros (l1 & t & H1 & H2 & H3). rewrite Ht in H1.
      destruct (lookup_insert_snoc _ _ _ _ _ _ _ _ Hl H1 H2)
        as [(l1' & A1 & A2 & _)|(-> & -> & ->)]; [left; eauto|].
      right. split; [reflexivity|]. rewrite <- H3. reflexivity.
    + rewrite Hst. unfold docindex_of. rewrite Hn. auto.
  - intros a o Ho. rewrite Hst in Ho. unfold docindex_of. rewrite Hn.
    destruct Hinv as (_ & _ & _ & Hhas). apply (Hhas a o Ho).
Qed.

Lemma createObject_docindex_inv h ty :
  docindex_inv h -> docindex_inv (fst (createObject h ty)).
Proof.
  intros Hinv.
  assert (Hnew : dict_get (docIndexFeatureName h)
                   (dict_set (docIndexFeatureName h) (PyInt (curdocindex h)) [])
                 = Some (PyInt (curdocindex h))) by apply dict_get_set_eq.
  apply (docindex_inv_new h _ (inr (length (store h))) (curdocindex h)); auto.
  - simpl. lia.
  - intros [[ty1 k]|a] z; simpl; [auto|].
    intros (o & Ho & Hz). unfold docindex_of in Hz. simpl in Hz.
    destruct (decide (a < length (store h))%nat) as [Hlt|Hge].
    + rewrite lookup_app_l in Ho by exact Hlt. left. eauto.
    + right. rewrite lookup_app_r in Ho by lia.
      destruct (a - length (store h))%nat eqn:E; simpl in Ho; [|discriminate Ho].
      injection Ho as <-. simpl in Hz.
      assert (a = length (store h)) by lia. subst a.
      split; [reflexivity|].
      rewrite decide_True in Hz by reflexivity. congruence.
  - intros a o Ho. simpl in Ho. unfold docindex_of. simpl.
    destruct (decide (a < length (store h))%nat) as [Hlt|Hge].
    + rewrite lookup_app_l in Ho by exact Hlt.
      destruct Hinv as (_ & _ & _ & Hhas). apply (Hhas a o Ho).
    + rewrite lookup_app_r in Ho by lia.
      destruct (a - length (store h))%nat eqn:E; simpl in Ho; [|discriminate Ho].
      injection Ho as <-. simpl. rewrite decide_True by reflexivity. eauto.
Qed.

Lemma handleElementStart_attribute_docindex_inv lower tag attributes a h entry he declared h' :
  docindex_reserved (script h) ->
  dict_get tag (handled h) = Some he -> he_attributes he = Some declared ->
  entry ∈ declared ->
  docindex_inv h ->
  handleElementStart_attribute lower tag attributes a h entry = Ok h' ->
  docindex_inv h'.
Proof.
  intros Hres Hhe Hattrs Hin Hinv H.
  pose proof (handleElementStart_attribute_docindex _ _ _ _ _ _ _ H) as Hd.
  unfold handleElementStart_attribute, deref in H.
  destruct (dict_get (fst entry) attributes) as [value|].
  - inv_ok H. subst h'.
    assert (Hne : r <> docIndexFeatureName h).
    { intros ->. destruct Hinv as (Hname & _).
      apply (Hres tag he declared entry Hhe Hattrs Hin).
      unfold feature_name. rewrite Hr, Hname. reflexivity. }
    apply (docindex_inv_update h _ a r1
             (if featureTypeIsSTRING lower r0
              then SRObject.setStringFeature r1 r value
              else SRObject.setNonStringFeature r1 r (PyStr value)));
      [exact Hinv|reflexivity|reflexivity|simpl; lia|reflexivity|exact Hr1
      |reflexivity|].
    destruct (featureTypeIsSTRING lower r0); simpl; [reflexivity|].
    apply dict_get_set_ne. auto.
  - inv_ok H. subst h'. exact Hinv.
Qed.

Lemma handleElementStart_docindex_inv lower h tag attributes h' :
  docindex_reserved (script h) ->
  docindex_inv h ->
  handleElementStart lower h tag attributes = Ok h' ->
  docindex_inv h'.
Proof.
  intros Hres Hinv H. unfold handleElementStart in H.
  destruct (dict_get tag (handled h)) as [he|] eqn:Hhe.
  - pose proof (createObject_docindex_inv h (he_objectTypeName he) Hinv) as Hinv1.
    destruct (he_attributes he) as [declared|] eqn:Hattrs.
    + assert (G : forall (rest : dict AttributeSpec) s s',
                 (forall e, e ∈ rest -> e ∈ declared) ->
                 docindex_inv s /\ script s = script h ->
                 for_each (handleElementStart_attribute lower tag attributes
                             (snd (createObject h (he_objectTypeName he)))) rest s
                 = Ok s' ->
                 docindex_inv s').
      { induction rest as [|e rest IH]; intros s s' Hsub [Hs1 Hs2] Hrun; simpl in Hrun.
        - injection Hrun as <-. exact Hs1.
        - inv_ok Hrun.
          apply (IH r s'); [intros e' He'; apply Hsub, elem_of_cons; auto| |exact Hrun].
          split.
          + eapply (handleElementStart_attribute_docindex_inv lower tag attributes _ s e
                      he declared); eauto.
            * rewrite Hs2. exact Hres.
            * unfold handled. rewrite Hs2. exact Hhe.
            * apply Hsub, elem_of_cons. auto.
          + apply (handleElementStart_attribute_same_text_state (fun _ => [])) in Hr.
            destruct Hr as (_ & _ & _ & E & _). congruence. }
      apply (G declared (fst (createObject h (he_objectTypeName he))) h');
        [auto|split; [exact Hinv1|reflexivity]|exact H].
    + inv_ok H. subst h'. exact Hinv1.
  - inv_ok H. subst h'. exact Hinv.
Qed.

Lemma pad_to_minimum_features fuel : forall obj c L obj' c',
  pad_to_minimum fuel obj c L = Some (obj', c') ->
  SRObject.nonStringFeatures obj' = SRObject.nonStringFeatures obj
  /\ SRObject.stringFeatures obj' = SRObject.stringFeatures obj.
Proof.
  induction fuel as [|fuel IH]; intros obj c L obj' c' H; simpl in H;
    destruct (SRObject.getMonadLength obj <? L); try discriminate H.
  - injection H as <- <-. auto.
  - apply IH in H. simpl in H. exact H.
  - injection H as <- <-. auto.
Qed.

Lemma handleElementEnd_docindex_inv h tag h' :
  docindex_inv h -> handleElementEnd h tag = Ok h' -> docindex_inv h'.
Proof.
  intros Hinv H.
  pose proof (handleElementEnd_static_eq _ _ _ H) as (_ & _ & _ & Hs & Hn & _).
  pose proof (handleElementEnd_frame (fun _ => []) id _ _ _ H)
    as (Ht & _ & _ & Hd & _).
  unfold handleElementEnd in H.
  destruct (dict_get tag (handled h)) as [he|].
  - inv_ok H. destruct r as [h1 a]. cbn [fst snd] in *.
    apply (endObject_Ok (fun _ => []) id) in Hr.
    destruct Hr as (stack & stack' & obj & _ & _ & Hobj & _ & Hst & _).
    assert (Hlt : (a < length (store h))%nat) by (eapply lookup_lt_Some; eauto).
    rewrite Hst, list_lookup_insert_eq in Hr0 by exact Hlt.
    injection Hr0 as <-.
    destruct (pad_to_minimum _ _ _ _) as [[obj' c']|] eqn:Hpad; [|discriminate H].
    inv_ok H. subst h'.
    apply pad_to_minimum_features in Hpad. destruct Hpad as [Hf _].
    apply (docindex_inv_update h _ a obj obj');
      [exact Hinv|exact Hn|exact Hs|rewrite Hd; lia|exact Ht|exact Hobj| |].
    + simpl. rewrite Hst, list_insert_insert_eq. reflexivity.
    + rewrite Hf. reflexivity.
  - inv_ok H. subst h'. exact Hinv.
Qed.

Lemma handle_event_docindex_inv tokenize_string lower h ev h' :
  nonneg_increments (script h) -> docindex_reserved (script h) ->
  docindex_inv h ->
  handle_event tokenize_string lower h ev = Ok h' ->
  docindex_inv h' /\ script h' = script h.
Proof.
  intros Hnn Hres Hinv H.
  split; [|apply (handle_event_static_eq _ _ _ _ _ H)].
  assert (Hflush : forall s chars tag b s',
             docindex_inv s /\ script s = script h ->
             handleChars tokenize_string s chars tag b = Ok s' ->
             docindex_inv s' /\ script s' = script h).
  { intros s chars tag b s' Hs. 
    apply (handleChars_token_invariant tokenize_string
             (fun s => docindex_inv s /\ script s = script h)); [|exact Hs].
    intros s0 ty p t x s1 [I1 I2] Hbody. split.
    - apply (createToken_docindex_inv s0 ty p t x s1);
        [rewrite I2; exact Hnn|exact I1|exact Hbody].
    - apply createToken_static_eq in Hbody.
      destruct Hbody as (_ & _ & _ & E & _). congruence. }
  destruct ev as [tag attributes|data|tag]; simpl in H.
  - unfold startElement in H. cbv zeta in H. rewrite handleChars_start in H.
    simpl in H.
    repeat case_decide; try discriminate H;
      try (inv_ok H; subst h'; exact Hinv).
    eapply handleElementStart_docindex_inv; [| |exact H]; [exact Hres|exact Hinv].
  - injection H as <-. exact Hinv.
  - unfold endElement in H. cbv zeta in H. inv_ok H. subst h'.
    destruct (Hflush _ _ _ _ _ (conj (Hinv : docindex_inv (set_charstack [] h)) eq_refl) Hr)
      as [I1 I2].
    assert (I3 : docindex_inv r0).
    { repeat case_decide; try discriminate Hr0;
        try (inv_ok Hr0; subst r0; exact I1).
      eapply handleElementEnd_docindex_inv; eauto. }
    exact I3.
Qed.

Lemma init_docindex_inv scr first_monad first_id_d h :
  init scr first_monad first_id_d = Ok h -> docindex_inv h.
Proof.
  intros H.
  pose proof (init_classification _ _ _ _ H) as (_ & _ & _ & _ & Hname).
  apply init_Ok in H. destruct H as (_ & _ & _ & Hscr & Hempty & Hst & _).
  split; [congruence|]. split; [|split].
  - intros [[ty k]|a] z; simpl.
    + intros (l & t & Hl & Ht & _). rewrite (Hempty _ _ Hl) in Ht. discriminate Ht.
    + intros (o & Ho & _). rewrite Hst in Ho. discriminate Ho.
  - intros [[ty k]|a] w2 z; simpl.
    + intros (l & t & Hl & Ht & _). rewrite (Hempty _ _ Hl) in Ht. discriminate Ht.
    + intros (o & Ho & _). rewrite Hst in Ho. discriminate Ho.
  - intros a o Ho. rewrite Hst in Ho. discriminate Ho.
Qed.

(** X25: the document indexes tell the objects and tokens of a run
    apart.  When no configured pre-increment is negative and no declared
    attribute has the document index as its feature, every object carries an
    integer document index, all document indexes of objects and tokens are below
    the counter, and no two of them are equal: not those of two objects, not
    those of two tokens, and not that of an object and that of a token. *)
Theorem document_indexes_are_unique
    tokenize_string lower (scr : Script) (first_monad first_id_d : Z)
    (h0 h : Handler) (events : list event) :
  init scr first_monad first_id_d = Ok h0 ->
  parse tokenize_string lower h0 events = Ok h ->
  nonneg_increments scr ->
  docindex_reserved scr ->
  (forall a o, store h !! a = Some o ->
     exists z, docindex_of h o = Some (PyInt z) /\ z < curdocindex h)
  /\ (forall ty l k t, tokens h !! ty = Some l -> l !! k = Some t ->
        Token.xmlindex t < curdocindex h)
  /\ (forall a b oa ob z,
        store h !! a = Some oa -> store h !! b = Some ob ->
        docindex_of h oa = Some (PyInt z) -> docindex_of h ob = Some (PyInt z) ->
        a = b)
  /\ (forall ty1 ty2 l1 l2 k1 k2 t1 t2,
        tokens h !! ty1 = Some l1 -> l1 !! k1 = Some t1 ->
        tokens h !! ty2 = Some l2 -> l2 !! k2 = Some t2 ->
        Token.xmlindex t1 = Token.xmlindex t2 -> ty1 = ty2 /\ k1 = k2)
  /\ (forall a o ty l k t,
        store h !! a = Some o -> tokens h !! ty = Some l -> l !! k = Some t ->
        docindex_of h o <> Some (PyInt (Token.xmlindex t))).
Proof.
  intros Hinit Hrun Hnn Hres.
  pose proof (init_docindex_inv _ _ _ _ Hinit) as Hinv0.
  apply init_Ok in Hinit. destruct Hinit as (_ & _ & _ & Hscr & _).
  rewrite parse_for_each in Hrun.
  assert (Hinv : docindex_inv h /\ script h = scr).
  { revert Hrun.
    apply (for_each_invariant (fun s => docindex_inv s /\ script s = scr));
      [|auto].
    intros s ev s' [I1 I2] Hev.
    destruct (handle_event_docindex_inv tokenize_string lower s ev s') as [J1 J2];
      try rewrite I2; auto. split; [exact J1|congruence]. }
  destruct Hinv as [(_ & Hbound & Huniq & Hhas) _].
  split; [|split; [|split; [|split]]].
  - intros a o Ho. destruct (Hhas a o Ho) as [z Hz]. exists z.
    split; [exact Hz|]. apply (Hbound (inr a)). simpl. eauto.
  - intros ty l k t Hl Ht. apply (Hbound (inl (ty, k))). simpl. eauto.
  - intros a b oa ob z Ha Hb Hza Hzb.
    assert (E : (inr a : pystr * nat + nat) = inr b)
      by (apply (Huniq _ _ z); simpl; eauto).
    congruence.
  - intros ty1 ty2 l1 l2 k1 k2 t1 t2 H1 H2 H3 H4 Heq.
    assert (E : (inl (ty1, k1) : pystr * nat + nat) = inl (ty2, k2)).
    { apply (Huniq _ _ (Token.xmlindex t1)); simpl; eauto 10. }
    split; congruence.
  - intros a o ty l k t Ho Hl Ht Heq.
    assert (E : (inr a : pystr * nat + nat) = inl (ty, k))
      by (apply (Huniq _ _ (Token.xmlindex t)); simpl; eauto).
    discriminate E.
Qed.

Lemma document_indexes_are_unique_witness :
  exists t,
    tokens_of after_hi_there (u "word") !! 1%nat = Some t
    /\ Token.xmlindex t < curdocindex after_hi_there.
Proof.
  pose proof (document_indexes_are_unique tokenize_ws lower_ascii
                script_p_note 1 0 fresh_handler after_hi_there doc_hi_there) as K.
  destruct K as (_ & K & _).
  - vm_compute. reflexivity.
  - vm_compute. reflexivity.
  - intros ty z H. unfold script_p_note, gp_word in H. simpl in H.
    case_decide; [|discriminate H]. injection H as <-. lia.
  - intros tag he declared entry Hhe Hattrs.
    unfold script_p_note in Hhe. simpl in Hhe.
    case_decide; [|discriminate Hhe]. injection Hhe as <-. discriminate Hattrs.
  - assert (E : tokens after_hi_there !! u "word"
                = Some (tokens_of after_hi_there (u "word")))
      by (vm_compute; reflexivity).
    destruct (tokens_of after_hi_there (u "word") !! 1%nat) as [t|] eqn:Et;
      [|vm_compute in Et; discriminate Et].
    exists t. split; [reflexivity|]. exact (K _ _ _ _ E Et).
Defined.

(** ** The handler: the identifiers of the objects *)

Lemma pad_to_minimum_invariant (Q : SRObject.t -> Prop) :
  (forall o m, Q o -> Q (SRObject.setLastMonad o m)) ->
  forall fuel obj c L obj' c',
    Q obj -> pad_to_minimum fuel obj c L = Some (obj', c') -> Q obj'.
Proof.
  intros Hset. induction fuel as [|fuel IH]; intros obj c L obj' c' Hq H; simpl in H;
    destruct (SRObject.getMonadLength obj <? L); try discriminate H.
  - injection H as <- <-. exact Hq.
  - eapply IH; [|exact H]. apply Hset, Hq.
  - injection H as <- <-. exact Hq.
Qed.

(** A property of the objects that holds for a new object and that the
    setters keep holds for every object of the store, throughout a run. *)
Lemma for_each_store_invariant tokenize_string lower (Q : SRObject.t -> Prop) :
  (forall ty c name v,
     Q (SRObject.setNonStringFeature (SRObject.init ty c) name v)) ->
  (forall o n v, Q o -> Q (SRObject.setStringFeature o n v)) ->
  (forall o n v, Q o -> Q (SRObject.setNonStringFeature o n v)) ->
  (forall o m, Q o -> Q (SRObject.setLastMonad o m)) ->
  forall events h h',
    (forall a o, store h !! a = Some o -> Q o) ->
    for_each (handle_event tokenize_string lower) events h = Ok h' ->
    (forall a o, store h' !! a = Some o -> Q o).
Proof.
  intros Hnew Hstr Hnon Hlast events.
  apply (for_each_invariant (fun h => forall a o, store h !! a = Some o -> Q o)).
  intros h ev h' Hh Hev.
  assert (Hupd : forall (st : list SRObject.t) a o',
             (forall b o, st !! b = Some o -> Q o) -> Q o' ->
             forall b o, <[a := o']> st !! b = Some o -> Q o).
  { intros st a o' Hst Ho' b o Hb.
    destruct (decide (a = b)) as [<-|Hne].
    - destruct (decide (a < length st)%nat) as [Hlt|Hge].
      + rewrite list_lookup_insert_eq in Hb by exact Hlt. congruence.
      + rewrite list_insert_ge in Hb by lia. eauto.
    - rewrite list_lookup_insert_ne in Hb by exact Hne. eauto. }
  assert (Hstart : forall s tag attributes s',
             (forall a o, store s !! a = Some o -> Q o) ->
             handleElementStart lower s tag attributes = Ok s' ->
             forall a o, store s' !! a = Some o -> Q o).
  { intros s tag attributes s' Hs H. unfold handleElementStart in H.
    destruct (dict_get tag (handled s)) as [he|]; [|inv_ok H; subst s'; exact Hs].
    assert (H0 : forall a o,
               store (fst (createObject s (he_objectTypeName he))) !! a = Some o ->
               Q o).
    { intros a o Ho. simpl in Ho.
      destruct (decide (a < length (store s))%nat) as [Hlt|Hge].
      - rewrite lookup_app_l in Ho by exact Hlt. eauto.
      - rewrite lookup_app_r in Ho by lia.
        destruct (a - length (store s))%nat; simpl in Ho; [|discriminate Ho].
        injection Ho as <-. apply Hnew. }
    destruct (he_attributes he) as [attrs|]; [|inv_ok H; subst s'; exact H0].
    revert H.
    apply (for_each_invariant (fun s => forall a o, store s !! a = Some o -> Q o));
      [|exact H0].
    intros s1 entry s2 Hs1 Hbody. unfold handleElementStart_attribute, deref in Hbody.
    destruct (dict_get (fst entry) attributes) as [value|].
    - inv_ok Hbody. subst s2. simpl. apply Hupd; [exact Hs1|].
      destruct (featureTypeIsSTRING lower r0); [apply Hstr|apply Hnon]; eauto.
    - inv_ok Hbody. subst s2. exact Hs1. }
  assert (Hend : forall s tag s',
             (forall a o, store s !! a = Some o -> Q o) ->
             handleElementEnd s tag = Ok s' ->
             forall a o, store s' !! a = Some o -> Q o).
  { intros s tag s' Hs H. unfold handleElementEnd in H.
    destruct (dict_get tag (handled s)) as [he|]; [|inv_ok H; subst s'; exact Hs].
    inv_ok H. destruct r as [s1 a1]. cbn [fst snd] in *.
    apply (endObject_Ok (fun _ => []) id) in Hr.
    destruct Hr as (stack & stack' & obj & _ & _ & Hobj & _ & Hst & _).
    assert (Hs1 : forall a o, store s1 !! a = Some o -> Q o).
    { rewrite Hst. apply Hupd; [exact Hs|]. apply Hlast. eauto. }
    destruct (pad_to_minimum _ _ _ _) as [[obj' c']|] eqn:Hpad; [|discriminate H].
    inv_ok H. subst s'. simpl. apply Hupd; [exact Hs1|].
    eapply (pad_to_minimum_invariant Q Hlast); [|exact Hpad]. eauto. }
  destruct ev as [tag attributes|data|tag]; simpl in Hev.
  - unfold startElement in Hev. cbv zeta in Hev. rewrite handleChars_start in Hev.
    simpl in Hev.
    repeat case_decide; try discriminate Hev;
      try (inv_ok Hev; subst h'; exact Hh).
    eapply Hstart; [|exact Hev]. exact Hh.
  - injection Hev as <-. exact Hh.
  - unfold endElement in Hev. cbv zeta in Hev. inv_ok Hev. subst h'.
    pose proof (handleChars_frame _ id _ _ _ _ _ Hr) as (_ & Hst & _).
    simpl in Hst. simpl.
    assert (Hr' : forall a o, store r !! a = Some o -> Q o)
      by (rewrite Hst; exact Hh).
    repeat case_decide; try discriminate Hr0;
      try (inv_ok Hr0; subst r0; exact Hr').
    eapply Hend; [|exact Hr0]. exact Hr'.
Qed.

(** X26: the objects of the elements never get an identifier of their
    own.  Nothing in a run calls [setID_D]: every object of the store has the
    identifier 0, and so no object is written with a WITH ID_D clause, whereas
    the tokens are. *)
Theorem objects_are_written_without_identifier
    tokenize_string lower (scr : Script) (first_monad first_id_d : Z)
    (h0 h : Handler) (events : list event) (a : nat) (o : SRObject.t) :
  init scr first_monad first_id_d = Ok h0 ->
  parse tokenize_string lower h0 events = Ok h ->
  store h !! a = Some o ->
  SRObject.id_d o = 0 /\ has_id_clause (fst (SRObject.dumpMQL o)) = false.
Proof.
  intros Hinit Hrun Ho.
  apply init_Ok in Hinit. destruct Hinit as (_ & _ & _ & _ & _ & Hst & _).
  rewrite parse_for_each in Hrun.
  assert (Hid : SRObject.id_d o = 0).
  { revert a o Ho. revert Hrun.
    apply (for_each_store_invariant tokenize_string lower
             (fun o => SRObject.id_d o = 0)); auto.
    intros a o Ho. rewrite Hst in Ho. discriminate Ho. }
  split; [exact Hid|].
  destruct (has_id_clause (fst (SRObject.dumpMQL o))) eqn:E; [|reflexivity].
  apply SRObject_dumpMQL_id_clause in E. contradiction.
Qed.

Lemma objects_are_written_without_identifier_witness :
  exists o,
    store after_hi_there !! 0%nat = Some o
    /\ SRObject.id_d o = 0 /\ has_id_clause (fst (SRObject.dumpMQL o)) = false.
Proof.
  destruct (store after_hi_there !! 0%nat) as [o|] eqn:Eo;
    [|vm_compute in Eo; discriminate Eo].
  exists o. split; [reflexivity|].
  apply (objects_are_written_without_identifier tokenize_ws lower_ascii
           script_p_note 1 0 fresh_handler after_hi_there doc_hi_there 0%nat o).
  - vm_compute. reflexivity.
  - vm_compute. reflexivity.
  - exact Eo.
Defined.

(** ** The parser and the element stack *)

(** Over events that the handler accepts, the parser fails exactly when the
    nesting is not that of a balanced document, and then with its own
    exception. *)
Lemma sax_events_for_each tokenize_string lower (events : list event) :
  forall open h h',
    for_each (handle_event tokenize_string lower) events h = Ok h' ->
    sax_events tokenize_string lower open events h
    = (if decide (nesting open events = Some []) then Ok h'
       else Error SAXParseException).
Proof.
  induction events as [|ev rest IH]; intros open h h' Hrun.
  - simpl in *. injection Hrun as <-.
    destruct (decide (open = [])) as [->|Hne].
    + rewrite decide_True by reflexivity. reflexivity.
    + rewrite decide_False; [reflexivity|]. intros [= E]. tauto.
  - simpl in Hrun. inv_ok Hrun. destruct ev as [tag attributes|data|tag].
    + simpl in *. rewrite Hr. simpl. apply IH. exact Hrun.
    + simpl in *. injection Hr as <-. apply IH. exact Hrun.
    + simpl in *. destruct (list_pop open) as [[open' top]|].
      * destruct (decide (top = tag)) as [_|_].
        -- rewrite Hr. simpl. apply IH. exact Hrun.
        -- rewrite decide_False by discriminate. reflexivity.
      * rewrite decide_False by discriminate. reflexivity.
Qed.

(** What the parser lets through is the handler's own result on a balanced
    document. *)
Lemma sax_events_Ok tokenize_string lower (events : list event) :
  forall open h h',
    sax_events tokenize_string lower open events h = Ok h' ->
    nesting open events = Some []
    /\ for_each (handle_event tokenize_string lower) events h = Ok h'.
Proof.
  induction events as [|ev rest IH]; intros open h h' Hrun.
  - simpl in *. case_decide; [|discriminate Hrun]. subst open. tauto.
  - destruct ev as [tag attributes|data|tag]; simpl in *.
    + inv_ok Hrun. rewrite Hr. simpl. apply IH. exact Hrun.
    + apply IH. exact Hrun.
    + destruct (list_pop open) as [[open' top]|]; [|discriminate Hrun].
      case_decide; [|discriminate Hrun]. inv_ok Hrun. rewrite Hr. simpl.
      apply IH. exact Hrun.
Qed.

(** The element stack of the handler follows the open elements. *)
Lemma for_each_elemstack tokenize_string lower (events : list event) :
  forall h h' open,
    nesting (elemstack h) events = Some open ->
    for_each (handle_event tokenize_string lower) events h = Ok h' ->
    elemstack h' = open.
Proof.
  induction events as [|ev rest IH]; intros h h' open Hnest Hrun.
  - simpl in *. injection Hrun as <-. congruence.
  - simpl in Hrun. inv_ok Hrun. destruct ev as [tag attributes|data|tag]; simpl in *.
    + apply startElement_stacks in Hr. destruct Hr as (_ & He & _).
      apply (IH r); [rewrite He; exact Hnest|exact Hrun].
    + injection Hr as <-. apply (IH (characters h data)); [exact Hnest|exact Hrun].
    + destruct (list_pop (elemstack h)) as [[st top]|] eqn:Hpop; [|discriminate Hnest].
      case_decide; [|discriminate Hnest].
      apply list_pop_Some in Hpop. apply endElement_stacks in Hr.
      destruct Hr as (_ & [top' Htop] & _).
      rewrite Hpop in Htop. apply app_inj_tail in Htop. destruct Htop as [Hst _].
      apply (IH r); [rewrite <- Hst; exact Hnest|exact Hrun].
Qed.

(** On a balanced document the parser is transparent. *)
Lemma sax_events_balanced tokenize_string lower (events : list event) :
  forall open h,
    nesting open events = Some [] ->
    sax_events tokenize_string lower open events h
    = for_each (handle_event tokenize_string lower) events h.
Proof.
  induction events as [|ev rest IH]; intros open h Hnest.
  - simpl in *. injection Hnest as ->. reflexivity.
  - destruct ev as [tag attributes|data|tag]; simpl in *.
    + destruct (startElement tokenize_string lower h tag attributes) as [r|e];
        [|reflexivity].
      simpl. apply IH. exact Hnest.
    + apply IH. exact Hnest.
    + destruct (list_pop open) as [[open' top]|]; [|discriminate Hnest].
      case_decide; [|discriminate Hnest].
      destruct (endElement tokenize_string h tag) as [r|e]; [|reflexivity].
      simpl. apply IH. exact Hnest.
Qed.

(** C9: a run on an input at whose end the element stack is not empty
    fails.  When the handler has accepted every event of the input and its
    element stack still holds an element, the parser raises
    [SAXParseException]; a run that returns a state has an empty element stack
    and went over a balanced document, on which it is the handler's own run;
    and an input that ends with elements open never returns a state. *)
Theorem unbalanced_document_is_fatal
    (tokenize_string : pystr -> list (pystr * pystr * pystr)) (lower : pystr -> pystr)
    (h0 : Handler) (events : list event) :
  elemstack h0 = [] ->
  (forall h, for_each (handle_event tokenize_string lower) events h0 = Ok h ->
     elemstack h <> [] ->
     sax_parse tokenize_string lower h0 events = Error SAXParseException)
  /\ (forall h, sax_parse tokenize_string lower h0 events = Ok h ->
        elemstack h = [] /\ nesting [] events = Some []
        /\ parse tokenize_string lower h0 events = Ok h)
  /\ (forall open, nesting [] events = Some open -> open <> [] ->
        exists e, sax_parse tokenize_string lower h0 events = Error e)
  /\ (nesting [] events = Some [] ->
      sax_parse tokenize_string lower h0 events = parse tokenize_string lower h0 events).
Proof.
  intros He0.
  assert (Hok : forall h, sax_parse tokenize_string lower h0 events = Ok h ->
                  elemstack h = [] /\ nesting [] events = Some []
                  /\ parse tokenize_string lower h0 events = Ok h).
  { intros h H. unfold sax_parse, startDocument, endDocument in H. simpl in H.
    inv_ok H. subst r. apply sax_events_Ok in Hr. destruct Hr as [Hnest Hrun].
    split; [|split; [exact Hnest|]].
    - apply (for_each_elemstack tokenize_string lower events h0 h []);
        [rewrite He0; exact Hnest|exact Hrun].
    - rewrite parse_for_each. exact Hrun. }
  split; [|split; [exact Hok|split]].
  - intros h Hrun Hne. unfold sax_parse, startDocument, endDocument. simpl.
    rewrite (sax_events_for_each _ _ _ [] _ _ Hrun).
    rewrite decide_False; [reflexivity|].
    intros Hnest. apply Hne.
    apply (for_each_elemstack tokenize_string lower events h0 h []);
      [rewrite He0; exact Hnest|exact Hrun].
  - intros open Hnest Hne.
    destruct (sax_parse tokenize_string lower h0 events) as [h|e] eqn:E; [|eauto].
    destruct (Hok h eq_refl) as (_ & E' & _). congruence.
  - intros Hnest. rewrite parse_for_each.
    unfold sax_parse, startDocument, endDocument. simpl.
    rewrite (sax_events_balanced _ _ _ _ _ Hnest).
    destruct (for_each (handle_event tokenize_string lower) events h0);
      reflexivity.
Qed.

(** The theorem at the input that ends after the start tag of [p]. *)
Lemma unbalanced_document_is_fatal_witness :
  elemstack fresh_handler = []
  /\ for_each (handle_event tokenize_ws lower_ascii) [StartElement (u "p") []]
       fresh_handler
     = Ok (state_after script_p_note [StartElement (u "p") []])
  /\ elemstack (state_after script_p_note [StartElement (u "p") []]) = [u "p"]
  /\ sax_parse tokenize_ws lower_ascii fresh_handler [StartElement (u "p") []]
     = Error SAXParseException.
Proof.
  assert (H0 : elemstack fresh_handler = []) by (vm_compute; reflexivity).
  assert (H : for_each (handle_event tokenize_ws lower_ascii)
                [StartElement (u "p") []] fresh_handler
              = Ok (state_after script_p_note [StartElement (u "p") []]))
    by (vm_compute; reflexivity).
  assert (He : elemstack (state_after script_p_note [StartElement (u "p") []])
               = [u "p"])
    by (vm_compute; reflexivity).
  split; [exact H0|]. split; [exact H|]. split; [exact He|].
  destruct (unbalanced_document_is_fatal tokenize_ws lower_ascii fresh_handler
              [StartElement (u "p") []] H0) as [K _].
  apply (K _ H). rewrite He. discriminate.
Defined.

(** ** The counters over the documents of a corpus *)








(** ** The identifier clause and the identifier *)

Lemma u_inj (s1 s2 : string) : u s1 = u s2 -> s1 = s2.
Proof.
  unfold u. intros H. apply (f_equal (map ascii_of_N)) in H.
  rewrite !map_map in H.
  rewrite !(map_ext (fun a => ascii_of_N (N_of_ascii a)) (fun a => a)) in H
    by (intros a; apply ascii_N_embedding).
  rewrite !map_id in H.
  rewrite <- (string_of_list_ascii_of_string s1),
          <- (string_of_list_ascii_of_string s2).
  congruence.
Qed.

(** [%d] prints different integers differently. *)
Lemma fmt_d_inj (z1 z2 : Z) : fmt_d z1 = fmt_d z2 -> z1 = z2.
Proof. unfold fmt_d. intros H. apply u_inj in H. exact (pretty_Z_inj _ _ H). Qed.

Lemma startswith_app (p s : pystr) : startswith p (p ++ s) = true.
Proof.
  induction p as [|c p IH]; [reflexivity|].
  simpl. rewrite N.eqb_refl. exact IH.
Qed.

Lemma id_clauses_app (o1 o2 : output) :
  id_clauses (o1 ++ o2) = id_clauses o1 ++ id_clauses o2.
Proof. apply List.filter_app. Qed.

Lemma id_clauses_none (out : output) :
  has_id_clause out = false -> id_clauses out = [].
Proof.
  unfold has_id_clause, id_clauses.
  induction out as [|w out IH]; [reflexivity|].
  cbn [existsb List.filter].
  destruct (startswith (u "WITH ID_D=") w); [discriminate|exact IH].
Qed.

(** What the head of a rendered token or object holds. *)
Lemma id_clauses_head (first clause last : pystr) (id_d : Z) (rest : output) :
  startswith (u "WITH ID_D=") first = false ->
  startswith (u "WITH ID_D=") clause = true ->
  startswith (u "WITH ID_D=") last = false ->
  id_clauses ([first] ++ (if decide (id_d ≠ 0) then [clause] else []) ++ [last] ++ rest)
  = (if decide (id_d = 0) then [] else [clause]) ++ id_clauses rest.
Proof.
  intros H1 H2 H3. unfold id_clauses.
  destruct (decide (id_d = 0)) as [E|N].
  - rewrite decide_False by tauto. cbn [app List.filter].
    rewrite H1, H3. reflexivity.
  - rewrite decide_True by exact N. cbn [app List.filter].
    rewrite H1, H2, H3. reflexivity.
Qed.

(** The identifier clause of a rendered token: none when the identifier is
    0, and otherwise one, which is the second write and holds the
    identifier. *)
Lemma Token_dumpMQL_id_clauses lower (t : Token.t) :
  id_clauses (fst (Token.dumpMQL lower t))
  = (if decide (Token.id_d t = 0) then []
     else [u "WITH ID_D=" ++ fmt_d (Token.id_d t) ++ [10%N]])
  /\ (Token.id_d t <> 0 ->
      fst (Token.dumpMQL lower t) !! 1%nat
      = Some (u "WITH ID_D=" ++ fmt_d (Token.id_d t) ++ [10%N])).
Proof.
  unfold Token.dumpMQL. cbv zeta.
  pose proof (Token_write_features_no_clause
                [ (u "prefix", Token.prefix t); (u "surface", Token.surface t);
                  (u "suffix", Token.suffix t);
                  (u "surface_lowcase", lower (Token.surface t)) ]) as Hbody.
  destruct (Token.write_features _) as [body e].
  assert (Hb : id_clauses body = [])
    by (apply id_clauses_none, Hbody; repeat constructor).
  clear Hbody.
  split.
  - destruct e as [e|]; cbn [fst]; rewrite <- !app_assoc;
      (rewrite id_clauses_head;
         [|reflexivity|apply startswith_app|reflexivity]);
      rewrite ?id_clauses_app, Hb; unfold Token.id_clause;
      destruct (decide (Token.id_d t = 0)); reflexivity.
  - intros Hid.
    destruct e as [e|]; cbn [fst]; rewrite decide_True by exact Hid; reflexivity.
Qed.

(** The same for a rendered object, whose clause has no line break. *)
Lemma SRObject_dumpMQL_id_clauses (o : SRObject.t) :
  id_clauses (fst (SRObject.dumpMQL o))
  = (if decide (SRObject.id_d o = 0) then []
     else [u "WITH ID_D=" ++ fmt_d (SRObject.id_d o)])
  /\ (SRObject.id_d o <> 0 ->
      fst (SRObject.dumpMQL o) !! 1%nat
      = Some (u "WITH ID_D=" ++ fmt_d (SRObject.id_d o))).
Proof.
  unfold SRObject.dumpMQL. cbv zeta.
  pose proof (SRObject_write_stringFeatures_no_clause (SRObject.stringFeatures o)) as Hb.
  apply id_clauses_none in Hb.
  pose proof (SRObject_nonStringFeatures_no_clause (SRObject.nonStringFeatures o)) as Hn.
  apply id_clauses_none in Hn.
  destruct (SRObject.write_stringFeatures _) as [body e]. cbn [fst] in Hb.
  split.
  - destruct e as [e|]; cbn [fst]; rewrite <- !app_assoc;
      (rewrite id_clauses_head;
         [|reflexivity|apply startswith_app|reflexivity]);
      rewrite ?id_clauses_app, Hn, Hb; unfold SRObject.id_clause;
      destruct (decide (SRObject.id_d o = 0)); reflexivity.
  - intros Hid.
    destruct e as [e|]; cbn [fst]; rewrite decide_True by exact Hid; reflexivity.
Qed.

(** C10: a rendered token or object has an identifier clause exactly when
    its identifier is not 0, and the clause holds that identifier: it is the
    second write, [WITH ID_D=] followed by the identifier in decimal (and a
    line break for a token), no other write is an identifier clause, and
    different identifiers are printed differently.  In a run that starts
    with identifier 0, a token that is minted gets the current identifier
    counter; it is rendered without the clause exactly when no token was
    minted before it, and with the clause of its own identifier, which is
    positive, when one was; the identifiers handed out stay pairwise different
    and below the counter.  After [<p>Hi there</p>] the first token is
    rendered without the clause and the second with [WITH ID_D=1]. *)
Theorem id_clause_holds_the_identifier
    (tokenize_string : pystr -> list (pystr * pystr * pystr)) (lower : pystr -> pystr)
    (scr : Script) (first_monad : Z) (events : list event) (h0 h : Handler)
    (ty p s x : pystr) (h' : Handler) :
  init scr first_monad 0 = Ok h0 ->
  parse tokenize_string lower h0 events = Ok h ->
  createToken h ty p s x = Ok h' ->
  (forall t,
     (has_id_clause (fst (Token.dumpMQL lower t)) = true <-> Token.id_d t <> 0)
     /\ id_clauses (fst (Token.dumpMQL lower t))
        = (if decide (Token.id_d t = 0) then []
           else [u "WITH ID_D=" ++ fmt_d (Token.id_d t) ++ [10%N]])
     /\ (Token.id_d t <> 0 ->
         fst (Token.dumpMQL lower t) !! 1%nat
         = Some (u "WITH ID_D=" ++ fmt_d (Token.id_d t) ++ [10%N])))
  /\ (forall o,
        (has_id_clause (fst (SRObject.dumpMQL o)) = true <-> SRObject.id_d o <> 0)
        /\ id_clauses (fst (SRObject.dumpMQL o))
           = (if decide (SRObject.id_d o = 0) then []
              else [u "WITH ID_D=" ++ fmt_d (SRObject.id_d o)])
        /\ (SRObject.id_d o <> 0 ->
            fst (SRObject.dumpMQL o) !! 1%nat
            = Some (u "WITH ID_D=" ++ fmt_d (SRObject.id_d o))))
  /\ (forall z1 z2, fmt_d z1 = fmt_d z2 -> z1 = z2)
  /\ map fmt_d [0; 7; 12; 305; -3] = [u "0"; u "7"; u "12"; u "305"; u "-3"]
  /\ (exists l t,
        tokens h !! ty = Some l
        /\ tokens h' = <[ty := l ++ [t]]> (tokens h)
        /\ Token.id_d t = curid_d h
        /\ (has_id_clause (fst (Token.dumpMQL lower t)) = false
            <-> (forall ty' l', tokens h !! ty' = Some l' -> l' = []))
        /\ ((exists ty' l', tokens h !! ty' = Some l' /\ l' <> []) ->
            0 < Token.id_d t
            /\ id_clauses (fst (Token.dumpMQL lower t))
               = [u "WITH ID_D=" ++ fmt_d (curid_d h) ++ [10%N]]))
  /\ ids_inv 0 (tokens h') (curid_d h')
  /\ map (fun t => take 2 (fst (Token.dumpMQL lower_ascii t)))
       (tokens_of after_hi_there (u "word"))
     = [ [u "CREATE OBJECT FROM MONADS={1}" ++ [10%N]; u "["];
         [u "CREATE OBJECT FROM MONADS={2}" ++ [10%N]; u "WITH ID_D=1" ++ [10%N]] ].
Proof.
  intros Hinit Hparse Hmint.
  pose proof (init_ids_inv _ _ _ _ Hinit) as Hinv0.
  pose proof (parse_ids_inv tokenize_string lower _ _ _ _ Hparse Hinv0) as Hinv.
  split.
  { intros t. split; [apply Token_dumpMQL_id_clause|].
    apply Token_dumpMQL_id_clauses. }
  split.
  { intros o. split; [apply SRObject_dumpMQL_id_clause|].
    apply SRObject_dumpMQL_id_clauses. }
  split; [exact fmt_d_inj|].
  split; [vm_compute; reflexivity|].
  split; [|split; [eapply (createToken_ids_inv tokenize_string lower); eauto
                  |vm_compute; reflexivity]].
  pose proof Hmint as Hm.
  apply (createToken_Ok (fun _ => []) id) in Hm. destruct Hm as (l & Hl & Ht & _).
  exists l, (minted h ty p s x).
  split; [exact Hl|]. split; [exact Ht|]. split; [reflexivity|].
  destruct Hinv as (Hle & _ & _ & Hfirst).
  pose proof (Token_dumpMQL_id_clause lower (minted h ty p s x))
    as Hclause.
  change (Token.id_d (minted h ty p s x)) with (curid_d h) in Hclause.
  split.
  - rewrite <- Hfirst.
    destruct (has_id_clause _).
    + split; [discriminate|]. intros H0. apply Hclause in H0; tauto.
    + split; [|reflexivity]. intros _.
      destruct (decide (curid_d h = 0)) as [E|N]; [exact E|].
      apply Hclause in N. discriminate N.
  - intros (ty' & l' & Hl' & Hne).
    assert (Hpos : curid_d h <> 0).
    { intros E. apply Hne. destruct Hfirst as [Hf _]. eapply (Hf E); eauto. }
    split; [simpl; lia|].
    destruct (Token_dumpMQL_id_clauses lower (minted h ty p s x)) as [Hc _].
    rewrite Hc. change (Token.id_d (minted h ty p s x)) with (curid_d h).
    rewrite decide_False by exact Hpos. reflexivity.
Qed.

(** The theorem at the first token minted after [<p>Hi there</p>], which
    is the third of the run and carries the identifier 2. *)
Lemma id_clause_holds_the_identifier_witness :
  init script_p_note 1 0 = Ok fresh_handler
  /\ parse tokenize_ws lower_ascii fresh_handler doc_hi_there = Ok after_hi_there
  /\ createToken after_hi_there (u "word") [] (u "x") []
     = Ok (the_state (createToken after_hi_there (u "word") [] (u "x") []))
  /\ exists l t,
       tokens after_hi_there !! u "word" = Some l
       /\ l <> []
       /\ tokens (the_state (createToken after_hi_there (u "word") [] (u "x") []))
          = <[u "word" := l ++ [t]]> (tokens after_hi_there)
       /\ Token.id_d t = 2
       /\ id_clauses (fst (Token.dumpMQL lower_ascii t)) = [u "WITH ID_D=2" ++ [10%N]].
Proof.
  assert (H1 : init script_p_note 1 0 = Ok fresh_handler) by (vm_compute; reflexivity).
  assert (H2 : parse tokenize_ws lower_ascii fresh_handler doc_hi_there
               = Ok after_hi_there) by (vm_compute; reflexivity).
  assert (H3 : createToken after_hi_there (u "word") [] (u "x") []
               = Ok (the_state (createToken after_hi_there (u "word") [] (u "x") [])))
    by (vm_compute; reflexivity).
  repeat (split; [assumption|]).
  destruct (id_clause_holds_the_identifier tokenize_ws lower_ascii
              script_p_note 1 doc_hi_there fresh_handler after_hi_there
              (u "word") [] (u "x") [] _ H1 H2 H3)
    as (_ & _ & _ & _ & (l & t & Hl & Ht & Hid & _ & Hlater) & _).
  assert (Hne : l <> []).
  { intros ->. vm_compute in Hl. discriminate Hl. }
  exists l, t. split; [exact Hl|]. split; [exact Hne|]. split; [exact Ht|].
  assert (E2 : curid_d after_hi_there = 2) by (vm_compute; reflexivity).
  split; [rewrite Hid; exact E2|].
  destruct Hlater as [_ Hc]; [exists (u "word"), l; auto|].
  rewrite Hc, E2. vm_compute. reflexivity.
Defined.

(** ** Text before a start tag *)

(** C4: the text buffered before a start tag is flushed and lost, where
    the generator of the script attributes it to the parent.  On
    [<p>A<b/></p>] the generator marks [p] as token-bearing, which it does
    not without the text [A], and the run that the generated script guides
    mints no token: [A] is in no token of [p].  In the run on
    [<p>A<note>B<p>C</p></note>D</p>] with [p] handled and token-bearing,
    the tokens are [C] and [D]; [A] is not among them.  In every state a
    start tag empties the buffer, mints no token and leaves the monad and
    identifier counters alone. *)
Theorem text_before_start_tag_is_lost :
  match generated_script doc_text_before_child with
  | Ok scr =>
      token_bearing scr = [(u "p", Some (u "word")); (u "b", None)]
      /\ match run scr 1 0 doc_text_before_child with
         | Ok h =>
             tokens_of h (u "word") = []
             /\ map (fun o => (SRObject.fm o, SRObject.lm o)) (objects_of h (u "p"))
                = [(1, 1)]
             /\ counters h = (1, 0, 3)
         | Error _ => False
         end
  | Error _ => False
  end
  /\ match generated_script doc_child_only with
     | Ok scr => token_bearing scr = [(u "p", None); (u "b", None)]
     | Error _ => False
     end
  /\ match run script_p_note 1 0 doc_nixing with
     | Ok h => map Token.surface (tokens_of h (u "word")) = [u "C"; u "D"]
     | Error _ => False
     end
  /\ forall (tokenize_string : pystr -> list (pystr * pystr * pystr))
       (lower : pystr -> pystr) (h : Handler) (tag : pystr) (attributes : dict pystr),
       match startElement tokenize_string lower h tag attributes with
       | Ok h' =>
           charstack h' = [] /\ tokens h' = tokens h
           /\ curmonad h' = curmonad h /\ curid_d h' = curid_d h
       | Error _ => True
       end.
Proof.
  split; [vm_compute; repeat split|].
  split; [vm_compute; reflexivity|].
  split; [vm_compute; reflexivity|].
  intros tokenize_string lower h tag attributes.
  destruct (startElement tokenize_string lower h tag attributes) as [h'|e] eqn:E;
    [|exact I].
  eapply startElement_discards_text; eauto.
Qed.
